(** * HHVM JIT back end, PPC64 port: a shallow embedding

    The development follows the sources of the PPC64 port of the JIT
    back end:

    - [hphp/runtime/vm/jit/back-end-ppc64.cpp]: the [ppc64::BackEnd]
      implementation of the [jit::BackEnd] interface and the free functions
      next to it;
    - [unique-stubs-ppc64.cpp]: the emitters of the shared helper stubs
      ([emitFunctionEnterHelper], [emitDecRefHelper], [emitFreeLocalsHelpers],
      [emitCallToExit], [emitEndCatchHelper]);
    - [hphp/util/eh-frame.h]: the [EHFrameWriter] interface.

    Emitters are embedded as functions that build instruction sequences; the
    instructions are given an executable semantics over an explicit machine
    state, and host functions called from the stubs are recorded in an event
    trace. *)

From Stdlib Require Import ZArith List Bool Ascii String Lia.
Import ListNotations.

Local Open Scope Z_scope.

#[local] Set Warnings "-register-all".

(** ** Process-level outcomes

    A call either returns a value or aborts the process. *)

Inductive Outcome (A : Type) : Type :=
| Returned (a : A)
| Aborted (why : string).

Arguments Returned {A} a.
Arguments Aborted {A} why.

Definition is_aborted {A} (o : Outcome A) : bool :=
  match o with
  | Returned _ => false
  | Aborted _ => true
  end.

(** Modelled from the spec: the macro [not_implemented()]
    (hphp/util/assertions.h) is missing.  An operation that is unimplemented
    for the architecture aborts the process immediately: a deliberate hard
    abort, nothing is returned to the caller. *)
Definition not_implemented {A} : Outcome A := Aborted "not implemented".

(** Modelled from the spec: the macro [always_assert(...)]
    (hphp/util/assertions.h) is missing.  A failed assertion is fatal and
    unrecoverable, in every build. *)
Definition always_assert (b : bool) : Outcome unit :=
  if b then Returned tt else Aborted "assertion failed".

Definition bind {A B} (o : Outcome A) (k : A -> Outcome B) : Outcome B :=
  match o with
  | Returned a => k a
  | Aborted why => Aborted why
  end.

(** Code addresses ([TCA], [Address], [CodeAddress]) are 64-bit pointers. *)
Definition TCA := Z.
Definition Address := Z.

(** Object representations: the little-endian bytes of an integer, as
    [memcpy] from a scalar writes them, and the integer they denote. *)
Module Bytes.

Fixpoint le_bytes (n : nat) (t : Z) : list Z :=
  match n with
  | O => []
  | S k => t mod 256 :: le_bytes k (t / 256)
  end.

Fixpoint from_le (bs : list Z) : Z :=
  match bs with
  | [] => 0
  | b :: rest => b + 256 * from_le rest
  end.

End Bytes.

(** ** The back-end interface ([jit::BackEnd]) and its PPC64 implementation *)

Module BackEndPPC64.

(** Types that the interface mentions and that the PPC64 bodies never
    inspect are kept abstract as small records or numbers. *)
Definition PhysReg := Z.
Definition ConditionCode := Z.
Definition ServiceRequest := Z.
Definition SRFlags := Z.
Definition TransID := Z.
Definition FuncId := Z.
Definition SrcKey := Z.
Definition FPInvOffset := Z.
Definition CodeBlockId := Z.

(** One constructor per virtual method of [jit::BackEnd] overridden by
    [ppc64::BackEnd], carrying the arguments of the call. *)
Inductive Call : Type :=
| abi
| cacheLineSize
| rSp
| rVmSp
| rVmFp
| rVmTl
| enterTCHelper (start : TCA) (stashedAR : Z)
| emitUniqueStubs
| emitServiceReqWork (cb : CodeBlockId) (start : TCA) (flags : SRFlags)
    (spOff : option FPInvOffset) (req : ServiceRequest) (argv : list Z)
| reusableStubSize
| emitInterpReq (code : CodeBlockId) (sk : SrcKey) (spOff : FPInvOffset)
| funcPrologueHasGuard (prologue : TCA) (func : FuncId)
| funcPrologueToGuard (prologue : TCA) (func : FuncId)
| emitFuncPrologue (transID : TransID) (func : FuncId) (argc : Z) (start : TCA)
| emitCallArrayPrologue (func : FuncId) (dvs : list Z)
| funcPrologueSmashGuard (prologue : TCA) (func : FuncId)
| emitIncStat (cb : CodeBlockId) (disp : Z) (n : Z)
| prepareForTestAndSmash (cb : CodeBlockId) (testBytes : Z) (flags : Z)
| smashJmp (jmpAddr newDest : TCA)
| smashCall (callAddr newDest : TCA)
| smashJcc (jccAddr newDest : TCA)
| emitSmashableJump (cb : CodeBlockId) (dest : TCA) (cc : ConditionCode)
| emitSmashableCall (cb : CodeBlockId) (dest : TCA)
| smashableCallFromReturn (returnAddr : TCA)
| jmpTarget (jmp : TCA)
| jccTarget (jmp : TCA)
| jccCondCode (jmp : TCA)
| callTarget (call : TCA)
| addDbgGuard (codeMain codeCold : CodeBlockId) (sk : SrcKey) (dbgOff : Z)
| streamPhysReg (reg : PhysReg)
| disasmRange (indent : Z) (dumpIR : bool) (begin_ end_ : TCA)
| genCodeImpl (unit_ : Z) (kind : Z)
| do_moveToAlign (cb : CodeBlockId) (flags : Z)
| do_isSmashable (frontier : Address) (nBytes offset : Z)
| do_prepareForSmash (cb : CodeBlockId) (nBytes offset : Z).

Section Dispatch.

(** The two methods with a real body hand over to code outside this file:
    the assembly routine [enterTCHelper] and [ppc64::emitUniqueStubs]. *)
Variable enterTCHelper_asm : TCA -> Z -> Z.
Variable ppc64_emitUniqueStubs : Z.

(** [ppc64::BackEnd]: the result of a call, as a number when one is
    returned ([void] methods return 0). *)
Definition invoke (c : Call) : Outcome Z :=
  match c with
  | abi => not_implemented
  | cacheLineSize => not_implemented
  | rSp => not_implemented
  | rVmSp => not_implemented
  | rVmFp => not_implemented
  | rVmTl => not_implemented
  | enterTCHelper start stashedAR => Returned (enterTCHelper_asm start stashedAR)
  | emitUniqueStubs => Returned ppc64_emitUniqueStubs
  | emitServiceReqWork _ _ _ _ _ _ => not_implemented
  | reusableStubSize => not_implemented
  | emitInterpReq _ _ _ => not_implemented
  | funcPrologueHasGuard _ _ => not_implemented
  | funcPrologueToGuard _ _ => not_implemented
  | emitFuncPrologue _ _ _ _ => not_implemented
  | emitCallArrayPrologue _ _ => not_implemented
  | funcPrologueSmashGuard _ _ => not_implemented
  | emitIncStat _ _ _ => not_implemented
  | prepareForTestAndSmash _ _ _ => not_implemented
  | smashJmp _ _ => not_implemented
  | smashCall _ _ => not_implemented
  | smashJcc _ _ => not_implemented
  | emitSmashableJump _ _ _ => not_implemented
  | emitSmashableCall _ _ => not_implemented
  | smashableCallFromReturn _ => not_implemented
  | jmpTarget _ => not_implemented
  | jccTarget _ => not_implemented
  | jccCondCode _ => not_implemented
  | callTarget _ => not_implemented
  | addDbgGuard _ _ _ _ => not_implemented
  | streamPhysReg _ => not_implemented
  | disasmRange _ _ _ _ => not_implemented
  | genCodeImpl _ _ => not_implemented
  | do_moveToAlign _ _ => not_implemented
  | do_isSmashable _ _ _ => not_implemented
  | do_prepareForSmash _ _ _ => not_implemented
  end.

End Dispatch.

(** The methods of [ppc64::BackEnd] that have a body other than
    [not_implemented()]. *)
Definition has_body (c : Call) : bool :=
  match c with
  | enterTCHelper _ _ | emitUniqueStubs => true
  | _ => false
  end.

(** The free functions of namespace [ppc64] at the end of the file. *)
Definition isSmashable (frontier : Address) (nBytes offset : Z) : Outcome bool :=
  Returned false.

Definition prepareForSmashImpl (cb : CodeBlockId) (nBytes offset : Z)
  : Outcome unit := not_implemented.

Definition free_smashJmp (jmpAddr newDest : TCA) : Outcome unit :=
  not_implemented.

Definition free_smashCall (callAddr newDest : TCA) : Outcome unit :=
  not_implemented.

End BackEndPPC64.

(** ** Machine state shared by the stub semantics

    PPC64 general-purpose registers, the link and count registers, the CR0
    field set by compare instructions, and a byte-addressed little-endian
    memory.

    Modelled from the spec: [abi-ppc64.h] is missing.  The ABI contract
    fixes the roles of the stack pointer, the frame pointer and the
    thread-local base; these are callee-saved registers of their own,
    different from each other and from the argument registers r3, r4, ...
    in which the code passes arguments and reads results. *)

Module Machine.

Inductive PhysReg : Type :=
| rsp            (* native stack pointer, r1 *)
| rvmfp          (* VM frame pointer *)
| rvmsp          (* VM stack pointer *)
| rvmtl          (* thread-local (RDS) base *)
| rfuncln        (* function linkage register used by prologues *)
| gpr (n : nat). (* any other general-purpose register, by number *)

(** Argument and return registers of the native calling convention:
    [rarg(i)] is r(3+i), [rret()] is r3. *)
Definition rarg (i : nat) : PhysReg := gpr (3 + i).
Definition rret : PhysReg := gpr 3.
Definition r3 : PhysReg := gpr 3.
Definition r4 : PhysReg := gpr 4.

Definition reg_eqb (a b : PhysReg) : bool :=
  match a, b with
  | rsp, rsp | rvmfp, rvmfp | rvmsp, rvmsp | rvmtl, rvmtl
  | rfuncln, rfuncln => true
  | gpr n, gpr m => Nat.eqb n m
  | _, _ => false
  end.

(** Two's-complement words. *)
Definition wrap (bits : Z) (x : Z) : Z := x mod 2 ^ bits.
Definition wrap64 (x : Z) : Z := wrap 64 x.
Definition signed (bits : Z) (x : Z) : Z :=
  let u := wrap bits x in
  if u <? 2 ^ (bits - 1) then u else u - 2 ^ bits.

(** CR0 after a signed comparison. *)
Record Flags : Type := mkFlags { cr_lt : bool; cr_gt : bool; cr_eq : bool }.

Definition compare (a b : Z) : Flags :=
  mkFlags (a <? b) (b <? a) (a =? b).

Inductive ConditionCode : Type :=
| CC_E | CC_NE | CC_Z | CC_NZ | CC_L | CC_NL | CC_G | CC_LE.

Definition cond (cc : ConditionCode) (f : Flags) : bool :=
  match cc with
  | CC_E | CC_Z => cr_eq f
  | CC_NE | CC_NZ => negb (cr_eq f)
  | CC_L => cr_lt f
  | CC_NL => negb (cr_lt f)
  | CC_G => cr_gt f
  | CC_LE => negb (cr_gt f)
  end.

(** Little-endian memory of bytes. *)
Definition Memory := Z -> Z.

Fixpoint load_bytes (n : nat) (m : Memory) (a : Z) : Z :=
  match n with
  | O => 0
  | S k => m a mod 256 + 256 * load_bytes k m (a + 1)
  end.

Fixpoint store_bytes (n : nat) (m : Memory) (a : Z) (v : Z) : Memory :=
  match n with
  | O => m
  | S k => store_bytes k (fun x => if x =? a then v mod 256 else m x)
             (a + 1) (v / 256)
  end.

Definition load8 := load_bytes 1.
Definition load32 := load_bytes 4.
Definition load64 := load_bytes 8.
Definition store8 := store_bytes 1.
Definition store32 := store_bytes 4.
Definition store64 := store_bytes 8.

Record State : Type := mkState {
  regs : PhysReg -> Z;
  lr : Z;
  ctr : Z;
  cr0 : Flags;
  mem : Memory
}.

Definition get (s : State) (r : PhysReg) : Z := regs s r.

Definition setr (s : State) (r : PhysReg) (v : Z) : State :=
  mkState (fun x => if reg_eqb x r then wrap64 v else regs s x)
          (lr s) (ctr s) (cr0 s) (mem s).

Definition set_lr (s : State) (v : Z) : State :=
  mkState (regs s) (wrap64 v) (ctr s) (cr0 s) (mem s).

Definition set_ctr (s : State) (v : Z) : State :=
  mkState (regs s) (lr s) (wrap64 v) (cr0 s) (mem s).

Definition set_cr0 (s : State) (f : Flags) : State :=
  mkState (regs s) (lr s) (ctr s) f (mem s).

Definition set_mem (s : State) (m : Memory) : State :=
  mkState (regs s) (lr s) (ctr s) (cr0 s) m.

(** Functions of the host runtime that the stubs call or jump to. *)
Inductive HostFn : Type :=
| onFunctionCall          (* EventHook::onFunctionCall *)
| tc_unwind_resume
| Unwind_Resume           (* _Unwind_Resume, does not return *)
| destructor (index : Z)  (* g_destructors[index] *)
| enterTCExit.

Definition noreturn (h : HostFn) : bool :=
  match h with
  | Unwind_Resume => true
  | _ => false
  end.

(** What an observer of a stub sees: host calls with the first two argument
    registers, synchronization points, and service requests. *)
Inductive Event : Type :=
| EvCall (h : HostFn) (arg0 arg1 : Z)
| EvSyncpoint (fixup : Z)
| EvServiceRequest (req : Z).

Definition Trace := list Event.

End Machine.

(** ** Vasm: the virtual assembly the stubs are written in

    Modelled from the spec: the instruction set ([vasm-instr.h]) and the
    control-flow combinators [ifThen] and [doWhile] ([code-gen-cf.h]) are
    missing.  Only the instructions used by [unique-stubs-ppc64.cpp] are
    given, each with the meaning of its name: operands are listed sources
    first, a comparison [cmp s0, s1] sets the flags from [s1 - s0], [declm]
    decrements in memory, [ifThen cc] runs its block when [cc] holds and
    [doWhile cc] repeats its body while [cc] holds.  Status-flag virtual
    registers all live in CR0; scratch destinations created with
    [v.makeReg()] that nothing reads are dropped. *)

Module Vasm.
Import Machine.

(** A memory operand [base[disp]], or the address of a thread-local datum
    obtained with [emitTLSAddr]. *)
Inductive Vptr : Type :=
| BaseDisp (base : PhysReg) (disp : Z)
| Absolute (addr : Z).

Definition ea (s : State) (p : Vptr) : Z :=
  match p with
  | BaseDisp b d => wrap64 (get s b + d)
  | Absolute a => wrap64 a
  end.

(** Where control can go: a stub entry of the code block being emitted
    (the index of its first instruction) or a host function. *)
Inductive Target : Type :=
| Stub (entry : nat)
| Host (h : HostFn).

Inductive Vinstr : Type :=
| load (s : Vptr) (d : PhysReg)
| loadzbl (s : Vptr) (d : PhysReg)
| storeqi (imm : Z) (m : Vptr)
| storebi (imm : Z) (m : Vptr)
| copy (s d : PhysReg)
| lea (s : Vptr) (d : PhysReg)
| addqi (imm : Z) (s d : PhysReg)
| declm (m : Vptr)
| cmplim (imm : Z) (m : Vptr)
| cmpqim (imm : Z) (m : Vptr)
| cmpbi (imm : Z) (r : PhysReg)
| cmpq (s0 s1 : PhysReg)
| testq (s0 s1 : PhysReg)
| push (r : PhysReg)
| pop (r : PhysReg)
| call (t : Target)
| callm_destructor (shift : Z) (type : PhysReg)
| syncpoint (fixup : Z)
| svcreq (req : Z)
| jcci (cc : ConditionCode) (taken : nat)
| jmpr (r : PhysReg)
| ret
| ud2
| padding (nbytes : Z). (* fill written by [align] in a dead context *)

(** Code as the emitters build it: instructions, plus the two control-flow
    combinators of [code-gen-cf.h] that the stubs use. *)
Inductive Vcode : Type :=
| I (i : Vinstr)
| ifThen (cc : ConditionCode) (thenBlock : list Vcode)
| doWhile (cc : ConditionCode) (body : list Vcode).

(** How a run of emitted code ends. *)
Inductive Exit : Type :=
| ExitFallthrough        (* ran past the last emitted instruction *)
| ExitReturn             (* [ret] to the caller of the stub *)
| ExitJump (addr : Z)    (* [jmpr] to code outside the block *)
| ExitServiceRequest (req : Z)
| ExitNoReturn (h : HostFn)
| ExitTrap               (* [ud2] *)
| ExitBadTarget          (* branch or call to an address with no code *)
| OutOfFuel.

Record Run : Type := mkRun { exit : Exit; final : State; events : Trace }.

(** Instructions that only update registers, flags or memory and then go on
    to the next instruction. *)
Definition is_simple (i : Vinstr) : bool :=
  match i with
  | ret | ud2 | padding _ | jmpr _ | svcreq _ | syncpoint _ | jcci _ _
  | call _ | callm_destructor _ _ => false
  | _ => true
  end.

Section Semantics.

(** Effect of a host function on registers and memory. *)
Variable host : HostFn -> State -> State.

Definition step_simple (i : Vinstr) (s : State) : State :=
  match i with
  | load p d => setr s d (load64 (mem s) (ea s p))
  | loadzbl p d => setr s d (load8 (mem s) (ea s p))
  | storeqi imm p => set_mem s (store64 (mem s) (ea s p) (wrap64 imm))
  | storebi imm p => set_mem s (store8 (mem s) (ea s p) (wrap 8 imm))
  | copy a d => setr s d (get s a)
  | lea p d => setr s d (ea s p)
  | addqi imm a d =>
      let v := wrap64 (get s a + imm) in
      set_cr0 (setr s d v) (compare (signed 64 v) 0)
  | declm p =>
      let v := wrap 32 (load32 (mem s) (ea s p) - 1) in
      set_cr0 (set_mem s (store32 (mem s) (ea s p) v)) (compare (signed 32 v) 0)
  | cmplim imm p =>
      set_cr0 s (compare (signed 32 (load32 (mem s) (ea s p))) (signed 32 imm))
  | cmpqim imm p =>
      set_cr0 s (compare (signed 64 (load64 (mem s) (ea s p))) (signed 64 imm))
  | cmpbi imm r => set_cr0 s (compare (signed 8 (get s r)) (signed 8 imm))
  | cmpq s0 s1 =>
      set_cr0 s (compare (signed 64 (get s s1)) (signed 64 (get s s0)))
  | testq s0 s1 =>
      set_cr0 s (compare (signed 64 (Z.land (get s s0) (get s s1))) 0)
  | push r =>
      let sp := wrap64 (get s rsp - 8) in
      set_mem (setr s rsp sp) (store64 (mem s) sp (get s r))
  | pop r =>
      let v := load64 (mem s) (get s rsp) in
      setr (setr s r v) rsp (get (setr s r v) rsp + 8)
  | _ => s
  end.

Definition ev_call (h : HostFn) (s : State) : Event :=
  EvCall h (get s (rarg 0)) (get s (rarg 1)).

(** [exec cb fuel c s t] runs the code [c], which is a suffix of the code
    block [cb], from state [s] with the events [t] seen so far.  Calls and
    [jcci] look their target up in [cb]; each executed item costs one unit of
    fuel. *)
Fixpoint exec (cb : list Vcode) (fuel : nat) (c : list Vcode)
              (s : State) (t : Trace) {struct fuel} : Run :=
  match fuel with
  | O => mkRun OutOfFuel s t
  | S f =>
    match c with
    | [] => mkRun ExitFallthrough s t
    | ifThen cc body :: rest =>
        if cond cc (cr0 s) then
          let r := exec cb f body s t in
          match exit r with
          | ExitFallthrough => exec cb f rest (final r) (events r)
          | _ => r
          end
        else exec cb f rest s t
    | doWhile cc body :: rest =>
        let r := exec cb f body s t in
        match exit r with
        | ExitFallthrough =>
            if cond cc (cr0 (final r))
            then exec cb f (doWhile cc body :: rest) (final r) (events r)
            else exec cb f rest (final r) (events r)
        | _ => r
        end
    | I i :: rest =>
        match i with
        | ret => mkRun ExitReturn s t
        | ud2 | padding _ => mkRun ExitTrap s t
        | jmpr r => mkRun (ExitJump (get s r)) s t
        | svcreq req =>
            mkRun (ExitServiceRequest req) s (t ++ [EvServiceRequest req])
        | syncpoint fixup => exec cb f rest s (t ++ [EvSyncpoint fixup])
        | jcci cc taken =>
            if cond cc (cr0 s) then
              if Nat.ltb taken (List.length cb)
              then exec cb f (skipn taken cb) s t
              else mkRun ExitBadTarget s t
            else exec cb f rest s t
        | call (Host h) =>
            let t' := t ++ [ev_call h s] in
            if noreturn h then mkRun (ExitNoReturn h) (host h s) t'
            else exec cb f rest (host h s) t'
        | callm_destructor shift type =>
            let h := destructor (Z.shiftr (wrap 32 (get s type)) shift) in
            exec cb f rest (host h s) (t ++ [ev_call h s])
        | call (Stub entry) =>
            if Nat.ltb entry (List.length cb) then
              let r := exec cb f (skipn entry cb) s t in
              match exit r with
              | ExitReturn => exec cb f rest (final r) (events r)
              | _ => r
              end
            else mkRun ExitBadTarget s t
        | _ => exec cb f rest (step_simple i s) t
        end
    end
  end.

(** Entering the code block at a stub entry. *)
Definition run (cb : list Vcode) (fuel : nat) (entry : nat)
               (s : State) : Run :=
  exec cb fuel (skipn entry cb) s [].

End Semantics.

End Vasm.

(** ** The unique stubs written in Vasm ([unique-stubs-ppc64.cpp]) *)

Module UniqueStubs.
Import Machine Vasm.

(** Constants and build settings that the emitters read from headers that
    are not part of this development.  They are parameters of everything
    below. *)
Record Layout : Type := mkLayout {
  kNumFreeLocalsHelpers : nat;
  TVOFF_m_data : Z;
  TVOFF_m_type : Z;
  sizeof_TypedValue : Z;
  FAST_REFCOUNT_OFFSET : Z;
  KindOfRefCountThreshold : Z;
  kShiftDataTypeToDestrIndex : Z;
  unwinderDebuggerReturnSPOff : Z;
  unwinderExnOff : Z;
  tl_regState : Z;                 (* address given by [emitTLSAddr] *)
  VMRegState_CLEAN : Z;
  REQ_POST_DEBUGGER_RET : Z;
  cache_line_size : Z;
  jmp_target_alignment : Z;        (* [Alignment::JmpTarget] *)
  code_base : Z;                   (* address of the first byte of the block *)
  lowered_size : Vcode -> Z;       (* bytes the item takes once lowered *)
  PPC64_PERFORMANCE : bool;        (* the preprocessor symbol is defined *)
  Stats_enabled : bool             (* [Stats::enabled()] *)
}.

(** The table of stub entry points filled in by the emitters. *)
Record UniqueStubs : Type := mkUniqueStubs {
  freeManyLocalsHelper : nat;
  freeLocalsHelpers : nat -> nat;
  endCatchHelperPast : nat
}.

Definition set_freeManyLocalsHelper (us : UniqueStubs) (a : nat) :=
  mkUniqueStubs a (freeLocalsHelpers us) (endCatchHelperPast us).

Definition set_freeLocalsHelpers (us : UniqueStubs) (i : nat) (a : nat) :=
  mkUniqueStubs (freeManyLocalsHelper us)
    (fun j => if Nat.eqb j i then a else freeLocalsHelpers us j)
    (endCatchHelperPast us).

Definition set_endCatchHelperPast (us : UniqueStubs) (a : nat) :=
  mkUniqueStubs (freeManyLocalsHelper us) (freeLocalsHelpers us) a.

Definition CodeBlock := list Vcode.

Section Emitters.

Variable L : Layout.

(** [cb.frontier()], as an entry index and in bytes. *)
Definition frontier (cb : CodeBlock) : nat := List.length cb.

Definition item_bytes (c : Vcode) : Z :=
  match c with
  | I (padding n) => n
  | _ => lowered_size L c
  end.

Definition code_bytes (c : list Vcode) : Z :=
  fold_right (fun x acc => item_bytes x + acc) 0 c.

Definition frontier_bytes (cb : CodeBlock) : Z := code_base L + code_bytes cb.

(** [vwrap(cb, gen)]: append the generated code, return where it starts. *)
Definition vwrap (cb : CodeBlock) (gen : list Vcode) : CodeBlock * nat :=
  (cb ++ gen, frontier cb).

(** Modelled from the spec: [align] ([align-ppc64.h]) is missing.
    [align(cb, alignment, AlignContext::Dead)] fills up to the next multiple
    of the alignment with bytes that are never executed. *)
Definition align_fill (cb : CodeBlock) (alignment : Z) : list Vcode :=
  let gap := (- frontier_bytes cb) mod alignment in
  if gap =? 0 then [] else [I (padding gap)].

Definition align (cb : CodeBlock) (alignment : Z) : CodeBlock :=
  cb ++ align_fill cb alignment.

Definition alignJmpTarget (cb : CodeBlock) : CodeBlock :=
  align cb (jmp_target_alignment L).

(** [localOffset(i)]: locals sit below the frame pointer, local 0 highest. *)
Definition localOffset (i : Z) : Z := - ((i + 1) * sizeof_TypedValue L).

(** Modelled from the spec: [PhysRegSaver] is missing.  It pushes the live
    registers when constructed and pops them when it goes out of scope, so
    that they keep their values across a native call. *)
Definition PhysRegSaver (live : list PhysReg) (scope : list Vcode)
  : list Vcode :=
  map (fun r => I (push r)) live ++ scope
    ++ map (fun r => I (pop r)) (rev live).

Definition dwordsPushed (live : list PhysReg) : Z :=
  Z.of_nat (List.length live).

Definition makeIndirectFixup (qwords : Z) : Z := qwords.

Definition emitDecRefHelper_code (tv type : PhysReg) (live : list PhysReg)
  : list Vcode :=
  let data := rarg 0 in
  [ I (load (BaseDisp tv (TVOFF_m_data L)) data);
    I (cmplim 1 (BaseDisp data (FAST_REFCOUNT_OFFSET L)));
    ifThen CC_NL
      ( ifThen CC_NE
          [ I (declm (BaseDisp data (FAST_REFCOUNT_OFFSET L)));
            I ret ]
        :: PhysRegSaver live
             [ I (callm_destructor (kShiftDataTypeToDestrIndex L) type);
               I (syncpoint (makeIndirectFixup (dwordsPushed live + 1))) ] );
    I ret ].

Definition emitDecRefHelper (cb : CodeBlock) (tv type : PhysReg)
    (live : list PhysReg) : CodeBlock * nat :=
  vwrap cb (emitDecRefHelper_code tv type live).

(** Registers of [emitFreeLocalsHelpers]. *)
Definition local : PhysReg := rarg 1.
Definition last : PhysReg := rarg 2.
Definition type : PhysReg := rarg 3.

Definition decref_local (release : nat) : list Vcode :=
  [ I (loadzbl (BaseDisp local (TVOFF_m_type L)) type);
    I (cmpbi (KindOfRefCountThreshold L) type);
    ifThen CC_G [ I (call (Stub release)) ] ].

Definition next_local : list Vcode :=
  [ I (addqi (sizeof_TypedValue L) local local) ].

(** The loop [for (i = kNumFreeLocalsHelpers - 1; i >= 0; --i)]; the
    argument counts the iterations left, so the next index is [n - 1]. *)
Fixpoint emit_unrolled (release : nat) (n : nat) (cb : CodeBlock)
    (us : UniqueStubs) : CodeBlock * UniqueStubs :=
  match n with
  | O => (cb, us)
  | S i =>
      let '(cb1, start) :=
        vwrap cb (decref_local release
                    ++ (if Nat.eqb i 0 then [] else next_local)) in
      emit_unrolled release i cb1 (set_freeLocalsHelpers us i start)
  end.

Definition freeManyLocalsHelper_code (release : nat) : list Vcode :=
  [ I (lea (BaseDisp rvmfp
              (localOffset (Z.of_nat (kNumFreeLocalsHelpers L) - 1))) last);
    doWhile CC_NZ
      (decref_local release ++ next_local ++ [ I (cmpq local last) ]) ].

(** [emitFreeLocalsHelpers] up to the size check: the code block, the
    stub table and the address of the release routine. *)
Definition emitFreeLocalsHelpers_code (cb : CodeBlock) (us : UniqueStubs)
  : CodeBlock * UniqueStubs * nat :=
  let cb := align cb (cache_line_size L) in
  let '(cb, release) := emitDecRefHelper cb local type [local; last] in
  let cb := alignJmpTarget cb in
  let '(cb, many) := vwrap cb (freeManyLocalsHelper_code release) in
  let us := set_freeManyLocalsHelper us many in
  let '(cb, us) := emit_unrolled release (kNumFreeLocalsHelpers L) cb us in
  let '(cb, _) := vwrap cb [ I ret ] in
  (cb, us, release).

(** The size check is compiled in only when [PPC64_PERFORMANCE] is
    defined. *)
Definition emitFreeLocalsHelpers (cb : CodeBlock) (us : UniqueStubs)
  : Outcome (CodeBlock * UniqueStubs * nat) :=
  let '(cb, us, release) := emitFreeLocalsHelpers_code cb us in
  bind
    (if PPC64_PERFORMANCE L then
       always_assert
         (Stats_enabled L
          || (code_bytes (skipn release cb) <=? 4 * cache_line_size L))
     else Returned tt)
    (fun _ => Returned (cb, us, release)).

(** Modelled from the spec: [svcreq::emit_persistent] is missing.
    [emit_persistent(cb, folly::none, req)] emits a small trampoline that,
    when reached, hands the request code to the shared handler. *)
Definition emit_persistent (cb : CodeBlock) (req : Z) : CodeBlock :=
  fst (vwrap cb [ I (svcreq req) ]).

Definition emitEndCatchHelper (cb : CodeBlock) (us : UniqueStubs)
  : CodeBlock * UniqueStubs * nat :=
  let udrspo := BaseDisp rvmtl (unwinderDebuggerReturnSPOff L) in
  let '(cb, debuggerReturn) :=
    vwrap cb [ I (load udrspo rvmsp); I (storeqi 0 udrspo) ] in
  let cb := emit_persistent cb (REQ_POST_DEBUGGER_RET L) in
  let '(cb, resumeCPPUnwind) :=
    vwrap cb [ I (storebi (VMRegState_CLEAN L) (Absolute (tl_regState L)));
               I (load (BaseDisp rvmtl (unwinderExnOff L)) (rarg 0));
               I (call (Host Unwind_Resume)) ] in
  let us := set_endCatchHelperPast us (frontier cb) in
  let '(cb, _) := vwrap cb [ I ud2 ] in
  let cb := alignJmpTarget cb in
  let '(cb, start) :=
    vwrap cb [ I (cmpqim 0 udrspo);
               I (jcci CC_NE debuggerReturn);
               I (copy rvmfp (rarg 0));
               I (call (Host tc_unwind_resume));
               I (copy r4 rvmfp);
               I (testq r3 r3);
               I (jcci CC_Z resumeCPPUnwind);
               I (jmpr r3) ] in
  (cb, us, start).

End Emitters.

(** *** What the release routine looks at

    The value's payload pointer, the address of the refcount of what it
    points to, and the refcount as the signed 32-bit number the routine
    compares. *)
Section Observations.

Variable L : Layout.

Definition slot_data (s : State) : Z :=
  load64 (mem s) (wrap64 (get s local + TVOFF_m_data L)).

Definition refcount_addr (s : State) : Z :=
  wrap64 (slot_data s + FAST_REFCOUNT_OFFSET L).

Definition refcount_at (m : Memory) (a : Z) : Z := signed 32 (load32 m a).

Definition destructor_of (s : State) : HostFn :=
  destructor (Z.shiftr (wrap 32 (get s type)) (kShiftDataTypeToDestrIndex L)).

End Observations.

(** *** The release routine as a function of the state

    What one run of the routine emitted by [emitDecRefHelper] for
    [emitFreeLocalsHelpers] comes to, path by path. *)
Section ReleaseRoutine.

Variable L : Layout.
Variable host : HostFn -> State -> State.

Definition after_compare (s : State) : State :=
  step_simple (cmplim 1 (BaseDisp (rarg 0) (FAST_REFCOUNT_OFFSET L)))
    (step_simple (load (BaseDisp local (TVOFF_m_data L)) (rarg 0)) s).

Definition before_destructor (s : State) : State :=
  step_simple (push last) (step_simple (push local) (after_compare s)).

Definition after_destructor (s : State) : State :=
  let s1 := before_destructor s in
  step_simple (pop local)
    (step_simple (pop last) (host (destructor_of L s1) s1)).

Definition release_result (s : State) (t : Trace) : Run :=
  let rc := refcount_at (mem s) (refcount_addr L s) in
  if rc <? 1 then mkRun ExitReturn (after_compare s) t
  else if rc =? 1 then
    let s1 := before_destructor s in
    mkRun ExitReturn (after_destructor s)
      (t ++ [ev_call (destructor_of L s1) s1; EvSyncpoint 3])
  else
    mkRun ExitReturn
      (step_simple (declm (BaseDisp (rarg 0) (FAST_REFCOUNT_OFFSET L)))
         (after_compare s)) t.

End ReleaseRoutine.

(** *** Releasing the locals of a frame, slot by slot

    [local] points at a slot; one step releases it and the next moves the
    pointer up by one [TypedValue].  The side effects of a run are the memory
    it leaves and the events it produced. *)
Section FreeLocals.

Variable L : Layout.
Variable host : HostFn -> State -> State.

(** The code of the unrolled entry points [n - 1], ..., 0 in emission
    order. *)
Fixpoint unrolled_code (release : nat) (n : nat) : list Vcode :=
  match n with
  | O => []
  | S i =>
      (decref_local L release ++ (if Nat.eqb i 0 then [] else next_local L))
        ++ unrolled_code release i
  end.

Definition load_type (s : State) : State :=
  step_simple (loadzbl (BaseDisp local (TVOFF_m_type L)) type) s.

(** The type tag of the slot is above [KindOfRefCountThreshold]. *)
Definition refcounted_type (s : State) : bool :=
  signed 8 (KindOfRefCountThreshold L)
  <? signed 8 (load8 (mem s) (wrap64 (get s local + TVOFF_m_type L))).

(** The release routine invoked on the slot, with the slot's type tag in
    the type register as the routine expects. *)
Definition release_local (s : State) (t : Trace) : State * Trace :=
  let r := release_result L host (load_type s) t in
  (final r, events r).

(** The same, but only for a slot whose type tag is refcounted. *)
Definition release_local_if_refcounted (s : State) (t : Trace)
  : State * Trace :=
  let s1 := step_simple (cmpbi (KindOfRefCountThreshold L) type)
              (load_type s) in
  if refcounted_type s then
    let r := release_result L host s1 t in (final r, events r)
  else (s1, t).

Definition advance (s : State) : State :=
  step_simple (addqi (sizeof_TypedValue L) local local) s.

Fixpoint each_local (act : State -> Trace -> State * Trace) (k : nat)
    (s : State) (t : Trace) : State * Trace :=
  match k with
  | O => (s, t)
  | S k' => let '(s1, t1) := act s t in each_local act k' (advance s1) t1
  end.

(** The release routine invoked [k] times in sequence on [k] consecutive
    slots. *)
Definition release_locals (k : nat) (s : State) (t : Trace)
  : State * Trace :=
  each_local release_local k s t.

Definition release_refcounted_locals (k : nat) (s : State) (t : Trace)
  : State * Trace :=
  each_local release_local_if_refcounted k s t.

(** Each of the [k] slots has a refcounted type when the routine is invoked
    on it, as the routine expects of its argument. *)
Fixpoint slots_refcounted (k : nat) (s : State) (t : Trace) : bool :=
  match k with
  | O => true
  | S k' =>
      refcounted_type s
      && slots_refcounted k' (advance (fst (release_local s t)))
           (snd (release_local s t))
  end.

(** *** The looping entry

    [freeManyLocalsHelper] first computes in [last] the address of the local
    that the unrolled entries start with, then releases a slot and steps to
    the next until the pointer reaches [last]. *)
Definition enter_many (s : State) : State :=
  step_simple
    (lea (BaseDisp rvmfp
            (localOffset L (Z.of_nat (kNumFreeLocalsHelpers L) - 1))) last) s.

Definition loop_iteration (s : State) (t : Trace) : State * Trace :=
  let '(s1, t1) := release_local_if_refcounted s t in
  (step_simple (cmpq local last) (advance s1), t1).

(** The loop is left after exactly [n] iterations. *)
Fixpoint loop_exits_after (n : nat) (s : State) (t : Trace) : Prop :=
  match n with
  | O => False
  | S n' =>
      if cond CC_NZ (cr0 (fst (loop_iteration s t)))
      then loop_exits_after n' (fst (loop_iteration s t))
             (snd (loop_iteration s t))
      else n' = O
  end.

Definition effects (st : State * Trace) : Memory * Trace :=
  (mem (fst st), snd st).

Definition run_effects (r : Run) : Memory * Trace :=
  (mem (final r), events r).

End FreeLocals.

(** The number of [ret] instructions in a piece of code. *)
Fixpoint count_ret (c : Vcode) : nat :=
  match c with
  | I ret => 1
  | I _ => 0
  | ifThen _ body => fold_right (fun x n => (count_ret x + n)%nat) 0%nat body
  | doWhile _ body => fold_right (fun x n => (count_ret x + n)%nat) 0%nat body
  end.

Definition count_rets (code : list Vcode) : nat :=
  fold_right (fun x n => (count_ret x + n)%nat) 0%nat code.

(** *** What the end-catch stub looks at *)
Section EndCatch.

Variable L : Layout.
Variable host : HostFn -> State -> State.

(** The thread-local debugger-return stack offset, and where it lives. *)
Definition debugger_return_addr (s : State) : Z :=
  wrap64 (get s rvmtl + unwinderDebuggerReturnSPOff L).

Definition debugger_return_flag (s : State) : Z :=
  load64 (mem s) (debugger_return_addr s).

(** The state in which [tc_unwind_resume] is called, and the one it
    returns. *)
Definition at_resume_call (s : State) : State :=
  step_simple (copy rvmfp (rarg 0))
    (step_simple
       (cmpqim 0 (BaseDisp rvmtl (unwinderDebuggerReturnSPOff L))) s).

Definition after_resume_call (s : State) : State :=
  host tc_unwind_resume (at_resume_call s).

(** The catch trace returned in r3 is null. *)
Definition catch_trace_is_null (s1 : State) : bool :=
  signed 64 (get s1 r3) =? 0.

(** The state in which [_Unwind_Resume] is called. *)
Definition at_unwind_resume (s1 : State) : State :=
  step_simple (load (BaseDisp rvmtl (unwinderExnOff L)) (rarg 0))
    (step_simple (storebi (VMRegState_CLEAN L) (Absolute (tl_regState L)))
       (step_simple (testq r3 r3) (step_simple (copy r4 rvmfp) s1))).

(** The run from the entry of the stub, path by path. *)
Definition endCatch_result (s : State) : Run :=
  let udrspo := BaseDisp rvmtl (unwinderDebuggerReturnSPOff L) in
  if debugger_return_flag s =? 0 then
    let s0 := at_resume_call s in
    let s1 := after_resume_call s in
    let s2 := step_simple (testq r3 r3) (step_simple (copy r4 rvmfp) s1) in
    if catch_trace_is_null s1 then
      mkRun (ExitNoReturn Unwind_Resume)
            (host Unwind_Resume (at_unwind_resume s1))
            [ev_call tc_unwind_resume s0;
             ev_call Unwind_Resume (at_unwind_resume s1)]
    else mkRun (ExitJump (get s2 r3)) s2 [ev_call tc_unwind_resume s0]
  else
    mkRun (ExitServiceRequest (REQ_POST_DEBUGGER_RET L))
          (step_simple (storeqi 0 udrspo)
             (step_simple (load udrspo rvmsp)
                (step_simple (cmpqim 0 udrspo) s)))
          [EvServiceRequest (REQ_POST_DEBUGGER_RET L)].

End EndCatch.

(** The code of the end-catch stub emitted at entry index [n], with the
    padding [fill] before its entry. *)
Definition endCatch_code (L : Layout) (n : nat) (fill : list Vcode)
  : list Vcode :=
  let udrspo := BaseDisp rvmtl (unwinderDebuggerReturnSPOff L) in
  [ I (load udrspo rvmsp); I (storeqi 0 udrspo);
    I (svcreq (REQ_POST_DEBUGGER_RET L));
    I (storebi (VMRegState_CLEAN L) (Absolute (tl_regState L)));
    I (load (BaseDisp rvmtl (unwinderExnOff L)) (rarg 0));
    I (call (Host Unwind_Resume));
    I ud2 ]
  ++ fill
  ++ [ I (cmpqim 0 udrspo);
       I (jcci CC_NE n);
       I (copy rvmfp (rarg 0));
       I (call (Host tc_unwind_resume));
       I (copy r4 rvmfp);
       I (testq r3 r3);
       I (jcci CC_Z (n + 3));
       I (jmpr r3) ].

Definition is_resume_call (e : Event) : bool :=
  match e with
  | EvCall tc_unwind_resume _ _ => true
  | _ => false
  end.

Definition is_service_request (e : Event) : bool :=
  match e with
  | EvServiceRequest _ => true
  | _ => false
  end.

Definition count_events (p : Event -> bool) (t : Trace) : nat :=
  List.length (filter p t).

End UniqueStubs.

(** ** The stubs written with the PPC64 assembler directly

    [emitFunctionEnterHelper] and [emitCallToExit] use
    [ppc64_asm::Assembler] rather than Vasm.

    Modelled from the spec: the assembler ([asm-ppc64.h]) is missing.  Its
    methods emit the Power ISA instruction they are named after;
    [branchAuto] loads the target into the count register and branches
    there, on the given condition, saving the return address in the link
    register when asked to. *)

Module PPC64Asm.
Import Machine Vasm.

Inductive BranchConditions : Type := Always | Equal | NotEqual.
Inductive LinkReg : Type := Save | DoNotTouch.

Inductive BranchTarget : Type :=
| ToLabel (index : nat)      (* a [Label] bound with [asm_label] *)
| ToHost (h : HostFn).       (* the address of a C++ function *)

Inductive Instr : Type :=
| mflr (rt : PhysReg)
| mtctr (rs : PhysReg)
| std (rs : PhysReg) (base : PhysReg) (disp : Z)
| stdu (rs : PhysReg) (base : PhysReg) (disp : Z)
| ld (rt : PhysReg) (base : PhysReg) (disp : Z)
| addi (rt ra : PhysReg) (imm : Z)
| cmpdi (ra : PhysReg) (imm : Z)
| bcctr (bc : BranchConditions)
| branchAuto (target : BranchTarget) (bc : BranchConditions) (lk : LinkReg)
| fill (nbytes : Z).         (* written by [align] in a dead context *)

(** [branchAuto] expands to a 64-bit immediate load, [mtctr] and a branch on
    CTR; every other instruction is one word. *)
Definition instr_bytes (i : Instr) : Z :=
  match i with
  | branchAuto _ _ _ => 28
  | fill n => n
  | _ => 4
  end.

Definition branch_taken (bc : BranchConditions) (f : Flags) : bool :=
  match bc with
  | Always => true
  | Equal => cr_eq f
  | NotEqual => negb (cr_eq f)
  end.

Section Semantics.

Variable host : HostFn -> State -> State.
Variable host_addr : HostFn -> Z.  (* where the C++ functions live *)
Variable code_base : Z.            (* address of the first instruction *)

Definition addr_of (code : list Instr) (index : nat) : Z :=
  code_base + fold_right (fun i acc => instr_bytes i + acc) 0
                (firstn index code).


Definition step_simple (i : Instr) (s : State) : State :=
  match i with
  | mflr rt => setr s rt (lr s)
  | mtctr rs => set_ctr s (get s rs)
  | std rs b d => set_mem s (store64 (mem s) (wrap64 (get s b + d)) (get s rs))
  | stdu rs b d =>
      let a := wrap64 (get s b + d) in
      setr (set_mem s (store64 (mem s) a (get s rs))) b a
  | ld rt b d => setr s rt (load64 (mem s) (wrap64 (get s b + d)))
  | addi rt ra imm => setr s rt (get s ra + imm)
  | cmpdi ra imm => set_cr0 s (compare (signed 64 (get s ra)) imm)
  | _ => s
  end.

(** [exec code fuel pc s t]: run from instruction index [pc]. *)
Fixpoint exec (code : list Instr) (fuel : nat) (pc : nat)
              (s : State) (t : Trace) {struct fuel} : Run :=
  match fuel with
  | O => mkRun OutOfFuel s t
  | S f =>
    match nth_error code pc with
    | None => mkRun ExitFallthrough s t
    | Some (fill _) => mkRun ExitTrap s t
    | Some (bcctr bc) =>
        if branch_taken bc (cr0 s) then mkRun (ExitJump (ctr s)) s t
        else exec code f (S pc) s t
    | Some (branchAuto target bc lk) =>
        if branch_taken bc (cr0 s) then
          let s1 := match lk with
                    | Save => set_lr s (addr_of code (S pc))
                    | DoNotTouch => s
                    end in
          match target with
          | ToLabel l => exec code f l (set_ctr s1 (addr_of code l)) t
          | ToHost h =>
              let s2 := set_ctr s1 (host_addr h) in
              let t' := t ++ [ev_call h s2] in
              match lk with
              | Save => exec code f (S pc) (host h s2) t'
              | DoNotTouch => mkRun (ExitNoReturn h) (host h s2) t'
              end
          end
        else exec code f (S pc) s t
    | Some i => exec code f (S pc) (step_simple i s) t
    end
  end.

End Semantics.

(** [emitFunctionEnterHelper]: returns the code block, the entry [start]
    and the address recorded in [us.functionEnterHelperReturn].  The label
    [l] is bound after the taken path. *)
Definition functionEnter_prologue : list Instr :=
  [ mflr rfuncln;
    std rfuncln rsp 16;
    stdu rsp rsp (-80);
    branchAuto (ToHost onFunctionCall) Always Save ].

Definition functionEnter_taken : list Instr :=
  [ ld rsp rsp 0;
    addi rsp rsp 80;
    ld rfuncln rsp 16;
    mtctr rfuncln;
    bcctr Always ].

Definition functionEnter_label : list Instr :=
  [ ld rsp rsp 0;
    addi rsp rsp 80 ].

Definition code_size (code : list Instr) : Z :=
  fold_right (fun i acc => instr_bytes i + acc) 0 code.

(** [alignJmpTarget(cb)]: [align(cb, Alignment::JmpTarget,
    AlignContext::Dead)]. *)
Definition alignJmpTarget (code_base alignment : Z) (cb : list Instr)
  : list Instr :=
  let gap := (- (code_base + code_size cb)) mod alignment in
  if gap =? 0 then cb else cb ++ [ fill gap ].

Definition emitFunctionEnterHelper (code_base alignment : Z)
    (cb0 : list Instr) : list Instr * nat * nat :=
  let cb := alignJmpTarget code_base alignment cb0 in
  let start := List.length cb in
  let HelperReturn := (start + List.length functionEnter_prologue)%nat in
  let l := (HelperReturn + 2 + List.length functionEnter_taken)%nat in
  (cb ++ functionEnter_prologue
      ++ [ cmpdi rret 0; branchAuto (ToLabel l) Equal DoNotTouch ]
      ++ functionEnter_taken
      ++ functionEnter_label,
   start, HelperReturn).

(** [emitCallToExit]. *)
Definition emitCallToExit (cb : list Instr) : list Instr * nat :=
  (cb ++ [ branchAuto (ToHost enterTCExit) Always DoNotTouch ],
   List.length cb).

(** The stub emitted after [n] instructions; its label is bound at
    [n + 11]. *)
Definition functionEnter_code (n : nat) : list Instr :=
  functionEnter_prologue
    ++ [ cmpdi rret 0; branchAuto (ToLabel (n + 11)) Equal DoNotTouch ]
    ++ functionEnter_taken
    ++ functionEnter_label.


(** *** The function-enter helper, path by path *)
Section FunctionEnter.

Variable host : HostFn -> State -> State.
Variable host_addr : HostFn -> Z.

(** The state in which the hook is called, given the address the call
    returns to, and the state the hook leaves. *)
Definition at_hook_call (helperReturn : Z) (s : State) : State :=
  set_ctr
    (set_lr
       (step_simple (stdu rsp rsp (-80))
          (step_simple (std rfuncln rsp 16)
             (step_simple (mflr rfuncln) s)))
       helperReturn)
    (host_addr onFunctionCall).

Definition after_hook (helperReturn : Z) (s : State) : State :=
  host onFunctionCall (at_hook_call helperReturn s).

(** [ld rsp, 0(rsp)] followed by [addi rsp, rsp, 80], as both paths do. *)
Definition pop_frame (s : State) : State :=
  step_simple (addi rsp rsp 80) (step_simple (ld rsp rsp 0) s).

(** The hook leaves the stack pointer and the back chain it points to as
    they were, as the calling convention demands of a callee. *)
Definition hook_keeps_frame (helperReturn : Z) (s : State) : Prop :=
  let s3 := at_hook_call helperReturn s in
  get (after_hook helperReturn s) rsp = get s3 rsp /\
  load64 (mem (after_hook helperReturn s)) (get s3 rsp)
  = load64 (mem s3) (get s3 rsp).

(** The run of the stub: the hook is called once; a zero result branches
    to the label and falls out of the stub, any other result ends in the
    branch to the count register. *)
Definition functionEnter_result (helperReturn label : Z) (s : State) : Run :=
  let s3 := at_hook_call helperReturn s in
  let s4 := step_simple (cmpdi rret 0) (after_hook helperReturn s) in
  if signed 64 (get (after_hook helperReturn s) rret) =? 0 then
    mkRun ExitFallthrough (pop_frame (set_ctr s4 label))
          [ev_call onFunctionCall s3]
  else
    let s5 := step_simple (mtctr rfuncln)
                (step_simple (ld rfuncln rsp 16) (pop_frame s4)) in
    mkRun (ExitJump (ctr s5)) s5 [ev_call onFunctionCall s3].

End FunctionEnter.

End PPC64Asm.

(** ** The CFI writer ([hphp/util/eh-frame.h]) *)

Module EHFrame.
Import Bytes.

(** DWARF constant from <dwarf.h>. *)
Definition DW_EH_PE_absptr : Z := 0.

(** [dw_reg::PPC64Reg]: the enumerators count up from R0; LR is 65. *)
Definition dw_reg_SP : Z := 1.
Definition dw_reg_FP : Z := 31.
Definition dw_reg_LR : Z := 65.
Definition dw_reg_VMFP : Z := dw_reg_FP.

(** [m_fde] and [m_expression] hold an index or [kInvalid]. *)
Record EHFrameWriter : Type := mkWriter {
  m_buf : list Z;
  m_fde : option nat;
  m_expression : option nat
}.

Definition new_writer : EHFrameWriter := mkWriter [] None None.

(** [write<T>(t)]: grow the vector by [sizeof(T)] and copy the object
    representation of [t] there (little-endian host). *)
Definition write (sizeofT : nat) (t : Z) (w : EHFrameWriter)
  : EHFrameWriter :=
  mkWriter (m_buf w ++ le_bytes sizeofT t) (m_fde w) (m_expression w).

Definition write_char (c : Ascii.ascii) (w : EHFrameWriter) : EHFrameWriter :=
  write 1 (Z.of_N (Ascii.N_of_ascii c)) w.

(** Modelled from the spec: the bodies of [write_uleb] and [write_sleb]
    (eh-frame.cpp) are missing; the records are LEB128-prefixed DWARF
    records, so these are the DWARF LEB128 encoders.  A 64-bit value takes
    at most ten groups of seven bits. *)
Fixpoint uleb128 (fuel : nat) (v : Z) : list Z :=
  match fuel with
  | O => []
  | S f =>
      let byte := Z.land v 127 in
      let v' := Z.shiftr v 7 in
      if v' =? 0 then [byte] else (Z.lor byte 128) :: uleb128 f v'
  end.

Fixpoint sleb128 (fuel : nat) (v : Z) : list Z :=
  match fuel with
  | O => []
  | S f =>
      let byte := Z.land v 127 in
      let v' := Z.shiftr v 7 in
      if ((v' =? 0) && (Z.land byte 64 =? 0))
         || ((v' =? -1) && negb (Z.land byte 64 =? 0))
      then [byte] else (Z.lor byte 128) :: sleb128 f v'
  end.

Definition write_bytes (bs : list Z) (w : EHFrameWriter) : EHFrameWriter :=
  mkWriter (m_buf w ++ bs) (m_fde w) (m_expression w).

Definition write_uleb (v : Z) (w : EHFrameWriter) : EHFrameWriter :=
  write_bytes (uleb128 10 (v mod 2 ^ 64)) w.

Definition write_sleb (v : Z) (w : EHFrameWriter) : EHFrameWriter :=
  write_bytes (sleb128 10 v) w.

(** Modelled from the spec: the body of [begin_cie] (eh-frame.cpp) is
    missing.  The fields and their order are those of the comment above its
    declaration and of the [.eh_frame] CIE layout it refers to: length
    (patched by [end_cie]), CIE id 0, version 1, augmentation string,
    code alignment 1, data alignment -8, return register, then the
    augmentation data with every pointer encoding [DW_EH_PE_absptr]. *)
Definition begin_cie (rip : Z) (personality : Z) (w : EHFrameWriter)
  : EHFrameWriter :=
  let w := write 4 0 w in
  let w := write 4 0 w in
  let w := write 1 1 w in
  let w := write_char "z"%char w in
  let w := if personality =? 0 then w else write_char "P"%char w in
  let w := write_char "R"%char w in
  let w := write_char Ascii.zero w in
  let w := write_uleb 1 w in
  let w := write_sleb (-8) w in
  let w := write 1 rip w in
  let w := write_uleb (if personality =? 0 then 1 else 10) w in
  let w := if personality =? 0 then w
           else write 8 personality (write 1 DW_EH_PE_absptr w) in
  write 1 DW_EH_PE_absptr w.

(** Modelled from the spec: [end_cie] patches the length field, which does
    not count itself, once the body has been written. *)
Definition end_cie (w : EHFrameWriter) : EHFrameWriter :=
  let len := Z.of_nat (List.length (m_buf w)) - 4 in
  mkWriter (le_bytes 4 len ++ skipn 4 (m_buf w)) (m_fde w) (m_expression w).

(** *** Reading a CIE back, as an unwinder does *)

Record CIE : Type := mkCIE {
  cie_id : Z;
  cie_version : Z;
  cie_augmentation : string;
  cie_code_align : Z;
  cie_data_align : Z;
  cie_return_reg : Z;
  cie_personality : option (Z * Z);  (* encoding, routine *)
  cie_fde_encoding : option Z;
  cie_instructions : list Z
}.

Definition take (n : nat) (bs : list Z) : option (list Z * list Z) :=
  if Nat.leb n (List.length bs) then Some (firstn n bs, skipn n bs) else None.

Definition read (n : nat) (bs : list Z) : option (Z * list Z) :=
  match take n bs with
  | Some (x, rest) => Some (from_le x, rest)
  | None => None
  end.

Fixpoint read_uleb (bs : list Z) : option (Z * list Z) :=
  match bs with
  | [] => None
  | b :: rest =>
      if Z.land b 128 =? 0 then Some (b, rest)
      else match read_uleb rest with
           | Some (v, rest') => Some (Z.land b 127 + 128 * v, rest')
           | None => None
           end
  end.

Fixpoint read_sleb (bs : list Z) : option (Z * list Z) :=
  match bs with
  | [] => None
  | b :: rest =>
      if Z.land b 128 =? 0
      then Some (if Z.land b 64 =? 0 then b else b - 128, rest)
      else match read_sleb rest with
           | Some (v, rest') => Some (Z.land b 127 + 128 * v, rest')
           | None => None
           end
  end.

Fixpoint read_cstring (bs : list Z) : option (string * list Z) :=
  match bs with
  | [] => None
  | b :: rest =>
      if b =? 0 then Some (EmptyString, rest)
      else match read_cstring rest with
           | Some (str, rest') =>
               Some (String (Ascii.ascii_of_N (Z.to_N b)) str, rest')
           | None => None
           end
  end.

(** The augmentation data, one item per letter after the leading z. *)
Fixpoint read_augmentation (letters : string) (bs : list Z)
    (acc : option (Z * Z) * option Z)
  : option (option (Z * Z) * option Z) :=
  match letters with
  | EmptyString => match bs with [] => Some acc | _ => None end
  | String c rest =>
      if Ascii.eqb c "P"%char then
        match read 1 bs with
        | Some (enc, bs1) =>
            if enc =? DW_EH_PE_absptr then
              match read 8 bs1 with
              | Some (p, bs2) =>
                  read_augmentation rest bs2 (Some (enc, p), snd acc)
              | None => None
              end
            else None
        | None => None
        end
      else if Ascii.eqb c "R"%char then
        match read 1 bs with
        | Some (enc, bs1) => read_augmentation rest bs1 (fst acc, Some enc)
        | None => None
        end
      else None
  end.

Definition opt_bind {A B} (o : option A) (k : A -> option B) : option B :=
  match o with
  | Some a => k a
  | None => None
  end.

(** [parse_cie bs]: the first record of [bs] read as a CIE, and the bytes
    that follow it. *)
Definition parse_cie (bs : list Z) : option (CIE * list Z) :=
  opt_bind (read 4 bs) (fun '(len, bs) =>
  opt_bind (take (Z.to_nat len) bs) (fun '(body, after) =>
  opt_bind (read 4 body) (fun '(id, body) =>
  opt_bind (read 1 body) (fun '(version, body) =>
  opt_bind (read_cstring body) (fun '(aug, body) =>
  opt_bind (read_uleb body) (fun '(code_align, body) =>
  opt_bind (read_sleb body) (fun '(data_align, body) =>
  opt_bind (read 1 body) (fun '(ret, body) =>
  match aug with
  | String "z"%char letters =>
      opt_bind (read_uleb body) (fun '(auglen, body) =>
      opt_bind (take (Z.to_nat auglen) body) (fun '(augdata, insns) =>
      opt_bind (read_augmentation letters augdata (None, None))
        (fun '(pers, fde_enc) =>
           Some (mkCIE id version aug code_align data_align ret
                       pers fde_enc insns, after))))
  | _ =>
      Some (mkCIE id version aug code_align data_align ret None None body,
            after)
  end)))))))).

(** The CIE that the comment above [begin_cie] describes. *)
Definition expected_cie (rip personality : Z) : CIE :=
  mkCIE 0 1 (if Z.eqb personality 0 then "zR"%string else "zPR"%string)
    1 (-8) (rip mod 256)
    (if Z.eqb personality 0 then None
     else Some (DW_EH_PE_absptr, personality mod 2 ^ 64))
    (Some DW_EH_PE_absptr) [].

End EHFrame.

(** ** Smashable call sites

    Modelled from the spec: the implementations of [emitSmashable*],
    [smashJmp]/[smashJcc]/[smashCall] and [jmpTarget]/[jccTarget]/
    [callTarget] for the implemented architectures are missing (the PPC64
    ones above abort).  Following the smashable call-site protocol, a site is
    an instruction of fixed opcode and fixed total length whose only
    rewritable part is one embedded operand, an absolute address or a 4-byte
    displacement from the end of the instruction; smashing rewrites that
    operand and nothing else.  The target read back is always the
    destination written, so an operation asked for a destination that the
    operand cannot hold fails its assertion and writes nothing. *)

Module Smashable.
Import Bytes.

Inductive Kind : Type := Jmp | Jcc | Call.

Inductive OperandForm : Type :=
| AbsoluteAddress      (* an 8-byte target address *)
| Displacement32.      (* a 4-byte displacement from the next instruction *)

(** What an architecture fixes for each kind of site. *)
Record Arch : Type := mkArch {
  opcode : Kind -> list Z;
  operand_form : Kind -> OperandForm
}.

Definition operand_width (f : OperandForm) : nat :=
  match f with
  | AbsoluteAddress => 8
  | Displacement32 => 4
  end.

Section Protocol.

Variable arch : Arch.

Definition operand_offset (k : Kind) : nat := List.length (opcode arch k).

Definition instr_len (k : Kind) : nat :=
  (operand_offset k + operand_width (operand_form arch k))%nat.

(** The operand of the site can hold the destination: any 64-bit address
    for an absolute operand; for a displacement, a 64-bit address whose
    distance from the next instruction is a signed 32-bit number. *)
Definition fits (k : Kind) (pos dest : Z) : bool :=
  (0 <=? dest) && (dest <? 2 ^ 64)
  && match operand_form arch k with
     | AbsoluteAddress => true
     | Displacement32 =>
         let d := dest - (pos + Z.of_nat (instr_len k)) in
         (- 2 ^ 31 <=? d) && (d <? 2 ^ 31)
     end.

Definition encode_operand (k : Kind) (pos dest : Z) : list Z :=
  match operand_form arch k with
  | AbsoluteAddress => le_bytes 8 dest
  | Displacement32 => le_bytes 4 (dest - (pos + Z.of_nat (instr_len k)))
  end.

(** The bytes of a new site, and a site with its operand unit
    overwritten. *)
Definition emitted (k : Kind) (pos dest : Z) : list Z :=
  opcode arch k ++ encode_operand k pos dest.

Definition smashed (k : Kind) (pos : Z) (site : list Z) (dest : Z) : list Z :=
  firstn (operand_offset k) site
    ++ encode_operand k pos dest
    ++ skipn (instr_len k) site.

(** [emitSmashableJump]/[emitSmashableCall]: the bytes of a new site at
    address [pos].  The target read back from a site is always the
    destination that was written, so a destination that the operand cannot
    hold is never written: the operation fails its assertion instead. *)
Definition emitSmashable (k : Kind) (pos dest : Z) : Outcome (list Z) :=
  bind (always_assert (fits k pos dest))
    (fun _ => Returned (emitted k pos dest)).

(** [smashJmp]/[smashJcc]/[smashCall]: overwrite the operand unit, under
    the same assertion. *)
Definition smash (k : Kind) (pos : Z) (site : list Z) (newDest : Z)
  : Outcome (list Z) :=
  bind (always_assert (fits k pos newDest))
    (fun _ => Returned (smashed k pos site newDest)).

Fixpoint list_eqb (a b : list Z) : bool :=
  match a, b with
  | [], [] => true
  | x :: a', y :: b' => (x =? y) && list_eqb a' b'
  | _, _ => false
  end.

(** A site decodes when it has the length and the opcode of its kind; the
    result is the raw operand. *)
Definition decode (k : Kind) (site : list Z) : option Z :=
  if Nat.eqb (List.length site) (instr_len k)
     && list_eqb (firstn (operand_offset k) site) (opcode arch k)
  then Some (from_le (skipn (operand_offset k) site))
  else None.

(** [jmpTarget]/[jccTarget]/[callTarget]. *)
Definition target (k : Kind) (pos : Z) (site : list Z) : option Z :=
  match decode k site with
  | None => None
  | Some v =>
      match operand_form arch k with
      | AbsoluteAddress => Some v
      | Displacement32 =>
          let d := if v <? 2 ^ 31 then v else v - 2 ^ 32 in
          Some ((pos + Z.of_nat (instr_len k) + d) mod 2 ^ 64)
      end
  end.

(** A sequence of smash operations on a site, one destination after the
    other. *)
Fixpoint smash_all (k : Kind) (pos : Z) (site : list Z) (dests : list Z)
  : Outcome (list Z) :=
  match dests with
  | [] => Returned site
  | d :: rest =>
      bind (smash k pos site d) (fun site' => smash_all k pos site' rest)
  end.

(** A site emitted for [dest0] and then smashed to each of [dests]. *)
Definition emit_and_smash (k : Kind) (pos dest0 : Z) (dests : list Z)
  : Outcome (list Z) :=
  bind (emitSmashable k pos dest0) (fun site => smash_all k pos site dests).


End Protocol.

(** An architecture with one-byte opcodes and 4-byte displacements for jumps
    and calls, and a two-byte opcode for conditional jumps. *)
Definition rel32_arch : Arch :=
  mkArch (fun k => match k with
                   | Jmp => [233]
                   | Call => [232]
                   | Jcc => [15; 132]
                   end)
         (fun _ => Displacement32).

End Smashable.

(** ** Sample data for examples

    A layout with the sizes of a 64-bit build ([TypedValue] is 16 bytes with
    the payload first and the type tag at offset 8, refcounts sit at offset
    12 of a counted object, nine unrolled helpers) and otherwise arbitrary
    numbers; a host whose functions change nothing; and small frames. *)

Module Samples.
Import Machine Vasm UniqueStubs.

(** Bytes per item: four per machine instruction, a call being a 64-bit
    immediate load, [mtctr] and a branch (seven instructions), and one
    branch per [ifThen] or [doWhile]. *)
Fixpoint sample_size (c : Vcode) : Z :=
  match c with
  | I (call _) => 28
  | I (callm_destructor _ _) => 12
  | I (syncpoint _) => 0
  | I _ => 4
  | ifThen _ body => 4 + fold_right (fun x n => sample_size x + n) 0 body
  | doWhile _ body => 4 + fold_right (fun x n => sample_size x + n) 0 body
  end.

Definition sample_layout : Layout :=
  {| kNumFreeLocalsHelpers := 9;
     TVOFF_m_data := 0;
     TVOFF_m_type := 8;
     sizeof_TypedValue := 16;
     FAST_REFCOUNT_OFFSET := 12;
     KindOfRefCountThreshold := 12;
     kShiftDataTypeToDestrIndex := 4;
     unwinderDebuggerReturnSPOff := 32;
     unwinderExnOff := 24;
     tl_regState := 65536;
     VMRegState_CLEAN := 0;
     REQ_POST_DEBUGGER_RET := 5;
     cache_line_size := 128;
     jmp_target_alignment := 16;
     code_base := 0;
     lowered_size := sample_size;
     PPC64_PERFORMANCE := false;
     Stats_enabled := false |}.

(** The same layout built with [PPC64_PERFORMANCE] defined. *)
Definition performance_layout : Layout :=
  {| kNumFreeLocalsHelpers := 9;
     TVOFF_m_data := 0;
     TVOFF_m_type := 8;
     sizeof_TypedValue := 16;
     FAST_REFCOUNT_OFFSET := 12;
     KindOfRefCountThreshold := 12;
     kShiftDataTypeToDestrIndex := 4;
     unwinderDebuggerReturnSPOff := 32;
     unwinderExnOff := 24;
     tl_regState := 65536;
     VMRegState_CLEAN := 0;
     REQ_POST_DEBUGGER_RET := 5;
     cache_line_size := 128;
     jmp_target_alignment := 16;
     code_base := 0;
     lowered_size := sample_size;
     PPC64_PERFORMANCE := true;
     Stats_enabled := false |}.

Definition quiet_host (h : HostFn) (s : State) : State := s.

Definition no_stubs : UniqueStubs := mkUniqueStubs 0 (fun _ => 0%nat) 0.

Definition no_flags : Flags := mkFlags false false false.

(** A frame whose lowest local, at address 1000, is an integer (type tag
    10) with value 2000; the word at 2012 holds 2. *)
Definition int_frame : State :=
  mkState (fun r => if reg_eqb r local then 1000
                    else if reg_eqb r rsp then 8000 else 0)
          0 0 no_flags
          (fun a => if a =? 1000 then 208
                    else if a =? 1001 then 7
                    else if a =? 1008 then 10
                    else if a =? 2012 then 2
                    else 0).

(** A frame with two locals, at 1000 and 1016: a string (type tag 20) at
    2000 with refcount 2, and an integer. *)
Definition string_frame : State :=
  mkState (fun r => if reg_eqb r local then 1000
                    else if reg_eqb r rsp then 8000 else 0)
          0 0 no_flags
          (fun a => if a =? 1000 then 208
                    else if a =? 1001 then 7
                    else if a =? 1008 then 20
                    else if a =? 1024 then 10
                    else if a =? 2012 then 2
                    else 0).

(** A frame with two locals, at 1000 and 1016, both strings (type tag 20):
    one at 2000 with refcount 2 and one at 3000 with refcount 1. *)
Definition two_strings_frame : State :=
  mkState (fun r => if reg_eqb r local then 1000
                    else if reg_eqb r rsp then 8000 else 0)
          0 0 no_flags
          (fun a => if a =? 1000 then 208
                    else if a =? 1001 then 7
                    else if a =? 1008 then 20
                    else if a =? 1016 then 184
                    else if a =? 1017 then 11
                    else if a =? 1024 then 20
                    else if a =? 2012 then 2
                    else if a =? 3012 then 1
                    else 0).

(** A hook that returns [v] in r3 and changes nothing else. *)
Definition hook_returning (v : Z) (h : HostFn) (s : State) : State :=
  setr s rret v.

Definition host_at (h : HostFn) : Z := 1048576.

(** A call of the function-enter helper with the stack pointer at 8000 and
    the return address 4660 in the link register; memory is zero. *)
Definition helper_entry : State :=
  mkState (fun r => if reg_eqb r rsp then 8000 else 0)
          4660 0 no_flags (fun _ => 0).

(** A frame of ten locals below the frame pointer 4000, entered with
    [local] at the lowest one (3840): that one is a string at 2000 with
    refcount 2, the others are uninitialized. *)
Definition ten_locals_frame : State :=
  mkState (fun r => if reg_eqb r local then 3840
                    else if reg_eqb r rvmfp then 4000
                    else if reg_eqb r rsp then 8000 else 0)
          0 0 no_flags
          (fun a => if a =? 3840 then 208
                    else if a =? 3841 then 7
                    else if a =? 3848 then 20
                    else if a =? 2012 then 2
                    else 0).

(** A frame whose local at 1000 has the given type tag, also in the type
    register, and points to an object at 2000 whose refcount has the given
    lowest and highest bytes. *)
Definition value_frame (tag rc_low rc_high : Z) : State :=
  mkState (fun r => if reg_eqb r local then 1000
                    else if reg_eqb r type then tag
                    else if reg_eqb r rsp then 8000 else 0)
          0 0 no_flags
          (fun a => if a =? 1000 then 208
                    else if a =? 1001 then 7
                    else if a =? 1008 then tag
                    else if a =? 2012 then rc_low
                    else if a =? 2015 then rc_high
                    else 0).

(** An unwinding thread: thread-local base 5000, frame pointer 4000, and
    the given debugger-return offset at 5032. *)
Definition unwinding (offset_low : Z) : State :=
  mkState (fun r => if reg_eqb r rvmtl then 5000
                    else if reg_eqb r rvmfp then 4000
                    else if reg_eqb r rsp then 8000 else 0)
          0 0 no_flags
          (fun a => if a =? 5032 then offset_low else 0).

(** A host whose [tc_unwind_resume] returns the given catch trace and
    frame pointer. *)
Definition resuming_host (trace fp : Z) (h : HostFn) (s : State) : State :=
  match h with
  | tc_unwind_resume => setr (setr s r3 trace) r4 fp
  | _ => s
  end.

End Samples.

(** ** What the stubs promise their callers

    Conditions and observations used to state what the emitted stubs do for
    the code that calls them. *)

Module StubContracts.
Import Machine Vasm UniqueStubs.

Section Contracts.

Variable L : Layout.
Variable host : HostFn -> State -> State.

(** What the native calling convention demands of the destructor that the
    release routine calls: it returns with the stack pointer where it was,
    and the two words that [PhysRegSaver] pushed below the caller's stack
    pointer are intact.  The registers themselves may be clobbered. *)
Definition destructor_keeps_saved (s : State) : Prop :=
  let s1 := before_destructor L s in
  let s2 := host (destructor_of L s1) s1 in
  get s2 rsp = get s1 rsp /\
  load64 (mem s2) (get s1 rsp) = load64 (mem s1) (get s1 rsp) /\
  load64 (mem s2) (wrap64 (get s1 rsp + 8))
  = load64 (mem s1) (wrap64 (get s1 rsp + 8)).

(** None of the [k] consecutive slots from [local] on has a refcounted
    type tag. *)
Fixpoint no_refcounted_slot (k : nat) (s : State) : bool :=
  match k with
  | O => true
  | S k' => negb (refcounted_type L s) && no_refcounted_slot k' (advance L s)
  end.

(** The state and the trace after [n] rounds of the loop of the looping
    entry. *)
Fixpoint loop_rounds (n : nat) (s : State) (t : Trace) : State * Trace :=
  match n with
  | O => (s, t)
  | S n' =>
      loop_rounds n' (fst (loop_iteration L host s t))
        (snd (loop_iteration L host s t))
  end.

(** The state and the trace at the shared [ret] after the unrolled entries
    of index [i], ..., 0: a guarded release per entry and a pointer step
    between two entries. *)
Fixpoint unrolled_slots (i : nat) (s : State) (t : Trace) : State * Trace :=
  match i with
  | O => release_local_if_refcounted L host s t
  | S j =>
      unrolled_slots j
        (advance L (fst (release_local_if_refcounted L host s t)))
        (snd (release_local_if_refcounted L host s t))
  end.

End Contracts.

(** The address of the first byte of the item at index [n] of a code
    block. *)
Definition entry_address (L : Layout) (cb : CodeBlock) (n : nat) : Z :=
  frontier_bytes L (firstn n cb).

(** A trace made only of destructor calls, each followed at once by the
    synchronization point over the three words between the stack pointer and
    the return address into the helper (the two saved registers and the
    return address of the call to the release routine); the result is the
    number of such pairs. *)
Fixpoint destructor_pairs (t : Trace) : option nat :=
  match t with
  | [] => Some 0%nat
  | EvCall (destructor _) _ _ :: EvSyncpoint fixup :: rest =>
      if fixup =? 3 then option_map S (destructor_pairs rest) else None
  | _ => None
  end.

(** A destructor that follows the calling convention but overwrites the
    argument registers, among them [local] and [last]. *)
Definition clobbering_host (h : HostFn) (s : State) : State :=
  setr (setr (setr s (rarg 0) 0) local 0) last 0.

(** A frame of eleven locals below the frame pointer 4000, all integers
    (type tag 10), entered with [local] at the lowest one (3824). *)
Definition plain_locals_frame : State :=
  mkState (fun r => if reg_eqb r local then 3824
                    else if reg_eqb r rvmfp then 4000
                    else if reg_eqb r rsp then 8000 else 0)
          0 0 Samples.no_flags
          (fun a => if (a mod 16 =? 8) && (3824 <=? a) && (a <? 4000)
                    then 10 else 0).

End StubContracts.

From Stdlib Require DecimalString.

(** ** The exception trait ([BaseException.ns.php]) *)

Module BaseException.

(** Objects that use the trait, by identity. *)
Definition Object := nat.

(** One entry of a trace: anything that is not an array, or a frame array
    with the value of each key as the string PHP converts it to; a key that
    is not set, or is null, is [None]. *)
Record Frame : Type := mkFrame {
  frame_file : option string;
  frame_line : option string;
  frame_class : option string;
  frame_type : option string;
  frame_function : option string
}.

Inductive TraceEntry : Type :=
| NotArray
| FrameArray (f : Frame).

(** The properties of the trait. *)
Record Properties : Type := mkProperties {
  message : string;
  code : Z;
  file : string;
  line : Z;
  trace : list TraceEntry;
  previous : option Object
}.

Definition Heap := Object -> Properties.

Definition getPrevious (h : Heap) (this : Object) : option Object :=
  previous (h this).

Definition setPrevious (h : Heap) (this : Object) (p : Object) : Heap :=
  fun o =>
    if Nat.eqb o this then
      mkProperties (message (h o)) (code (h o)) (file (h o)) (line (h o))
                   (trace (h o)) (Some p)
    else h o.

(** The loop of [setPreviousChain]: the object at the end of the chain of
    previous exceptions, if the loop ends within [fuel] tests. *)
Fixpoint chain_end (fuel : nat) (h : Heap) (cur : Object) : option Object :=
  match fuel with
  | O => None
  | S f =>
      match getPrevious h cur with
      | Some next => chain_end f h next
      | None => Some cur
      end
  end.

Definition setPreviousChain (fuel : nat) (h : Heap) (this : Object)
    (p : Object) : option Heap :=
  match chain_end fuel h this with
  | Some cur => Some (setPrevious h cur p)
  | None => None
  end.

(** The first loop of [__toString]: the exception and its chain of previous
    exceptions, in the order in which they are collected. *)
Fixpoint toString_list (fuel : nat) (h : Heap) (ex : option Object)
  : option (list Object) :=
  match fuel with
  | O => None
  | S f =>
      match ex with
      | None => Some []
      | Some e =>
          match toString_list f h (getPrevious h e) with
          | Some l => Some (e :: l)
          | None => None
          end
      end
  end.

Definition disjoint (a b : list Object) : bool :=
  forallb (fun x => negb (existsb (Nat.eqb x) b)) a.

(** [getTraceAsString]. *)
Definition decimal (n : nat) : string :=
  DecimalString.NilEmpty.string_of_uint (Nat.to_uint n).

Definition or_empty (o : option string) : string :=
  match o with
  | Some s => s
  | None => EmptyString
  end.

Definition newline : string := String (Ascii.ascii_of_nat 10) EmptyString.

Definition frame_text (i : nat) (f : Frame) : string :=
  ("#" ++ decimal i ++ " " ++ or_empty (frame_file f) ++ "("
     ++ or_empty (frame_line f) ++ "): "
     ++ match frame_class f with
        | Some c => c ++ or_empty (frame_type f)
        | None => EmptyString
        end
     ++ or_empty (frame_function f) ++ "()" ++ newline)%string.

Definition trace_step (st : nat * string) (entry : TraceEntry)
  : nat * string :=
  match entry with
  | NotArray => st
  | FrameArray f => (S (fst st), (snd st ++ frame_text (fst st) f)%string)
  end.

Definition getTraceAsString (tr : list TraceEntry) : string :=
  let '(i, s) := fold_left trace_step tr (O, EmptyString) in
  (s ++ "#" ++ decimal i ++ " {main}")%string.

Definition is_frame (e : TraceEntry) : bool :=
  match e with
  | FrameArray _ => true
  | NotArray => false
  end.

(** The chain from [e]: each element's previous exception is the next one,
    the last has none. *)
Fixpoint is_chain (h : Heap) (l : list Object) (e : option Object) : Prop :=
  match l with
  | [] => e = None
  | x :: rest => e = Some x /\ is_chain h rest (getPrevious h x)
  end.


(** Three exceptions: 0 has 1 as its previous exception, 1 and 2 have
    none. *)
Definition sample_heap : Heap :=
  fun o => mkProperties EmptyString 0 EmptyString 0 []
             (if Nat.eqb o 0 then Some 1%nat else None).

End BaseException.

(** ** The method-jumps service (the first OCaml file of the sources) *)

Module MethodJumps.

(** An OCaml computation returns or raises. *)
Inductive exn : Type :=
| Invalid_argument (msg : string)
| Failure (msg : string).

Inductive outcome (A : Type) : Type :=
| Ret (a : A)
| Raise (e : exn).

Arguments Ret {A} a.
Arguments Raise {A} e.

Inductive filter : Type := No_filter | Class | Interface | Trait.

Definition string_filter_to_method_jump_filter (s : string) : option filter :=
  if String.eqb s "No_filter" then Some No_filter
  else if String.eqb s "Class" then Some Class
  else if String.eqb s "Interface" then Some Interface
  else if String.eqb s "Trait" then Some Trait
  else None.

(** The namespace separator, a backslash. *)
Definition backslash : ascii := Ascii.ascii_of_nat 92.

(** [name.[0]] raises on the empty string. *)
Definition add_ns (name : string) : outcome string :=
  match String.get 0 name with
  | None => Raise (Invalid_argument "index out of bounds")
  | Some c =>
      if Ascii.eqb c backslash then Ret name else Ret (String backslash name)
  end.

Definition filter_eqb (a b : filter) : bool :=
  match a, b with
  | No_filter, No_filter | Class, Class | Interface, Interface
  | Trait, Trait => true
  | _, _ => false
  end.

Section Inheritance.

(** [get_inheritance] is stated over the typing heap
    ([TLazyHeap.get_class]), the search for child classes
    ([find_extended_classes_in_files_parallel] on the files that
    [FindRefsService] gives) and the walk over the ancestors
    ([get_ancestor_classes_and_methods]), whatever they answer. *)
Variable class_type : Type.
Variable result : Type.
Variable get_class : string -> option class_type.
Variable find_extended_classes : class_type -> list result.
Variable get_ancestor_classes_and_methods :
  class_type -> filter -> list result -> list result.

Definition get_child_classes_and_methods (cls : class_type) (f : filter)
  : outcome (list result) :=
  if negb (filter_eqb f No_filter)
  then Raise (Failure "Method jump filters not implemented for finding children")
  else Ret (find_extended_classes cls).

Definition get_inheritance (class_ : string) (f : filter)
    (find_children : bool) : outcome (list result) :=
  match add_ns class_ with
  | Raise e => Raise e
  | Ret class_ =>
      match get_class class_ with
      | None => Ret []
      | Some c =>
          if find_children then get_child_classes_and_methods c f
          else Ret (get_ancestor_classes_and_methods c f [])
      end
  end.

End Inheritance.

End MethodJumps.

(** ** Type hints to type constraints (the second OCaml file of the
    sources, [emit_type_hint.ml]) *)

Module EmitTypeHint.

Inductive type_hint_kind : Type := Property | Return | Param | TypeDef.

Definition kind_eqb (a b : type_hint_kind) : bool :=
  match a, b with
  | Property, Property | Return, Return | Param, Param | TypeDef, TypeDef =>
      true
  | _, _ => false
  end.

(** The part of [Ast] that the file matches on.  A hint is a position with
    a [hint_]; here every constructor carries its position.  What the
    functions below never look into (the variadic part of a function hint,
    the fields of a shape) is kept as a handle. *)
Definition Pos := Z.
Definition id : Type := Pos * string.
Definition variadic_hint := Z.
Definition shape_info := Z.

Inductive hint : Type :=
| Hoption (p : Pos) (t : hint)
| Hfun (p : Pos) (is_coroutine : bool) (args : list hint)
       (variadic : variadic_hint) (ret : hint)
| Htuple (p : Pos) (hs : list hint)
| Happly (p : Pos) (name : id) (args : list hint)
| Hshape (p : Pos) (si : shape_info)
| Haccess (p : Pos) (h1 h2 : id) (accesses : list id)
| Hsoft (p : Pos) (t : hint).

(** [Hhas_type_constraint]: a constraint is an optional name and a list of
    flags. *)
Module TC.

Inductive type_constraint_flag : Type :=
| Nullable | HHType | ExtendedHint | TypeVar | Soft | TypeConstant.

Record t : Type := make { name : option string;
                          flags : list type_constraint_flag }.

End TC.

(** What a call comes to: a value, or the fatal error raised by
    [Emit_fatal.raise_fatal_runtime]. *)
Inductive result (A : Type) : Type :=
| Value (a : A)
| Fatal (pos : Pos) (msg : string).

Arguments Value {A} a.
Arguments Fatal {A} pos msg.

Definition map_result {A B} (f : A -> B) (r : result A) : result B :=
  match r with
  | Value a => Value (f a)
  | Fatal pos msg => Fatal pos msg
  end.

Definition mem (l : list string) (x : string) : bool :=
  existsb (String.eqb x) l.

Definition is_awaitable (name : string) : bool :=
  String.eqb name "WaitHandle" || String.eqb name "Awaitable".

(** The pattern [(_, A.Happly ((_, "void"), []))]. *)
Definition is_void (h : hint) : bool :=
  match h with
  | Happly _ (_, name) [] => String.eqb name "void"
  | _ => false
  end.

Section Constraints.

(** [List.dedup] of [Hh_core] and the composition of
    [Hhbc_id.Class.elaborate_id] with [Hhbc_id.Class.to_raw_string] come
    from modules outside this file. *)
Variable Namespace : Type.
Variable dedup : list TC.type_constraint_flag -> list TC.type_constraint_flag.
Variable elaborate_raw : Namespace -> id -> string.

(** The body of [make_tc_with_flags_if_non_empty_flags] once the constraint
    of the inner hint is known. *)
Definition with_flags_if_non_empty (tc : TC.t)
    (flags : list TC.type_constraint_flag) : TC.t :=
  match TC.name tc, TC.flags tc with
  | None, [] => tc
  | _, _ => TC.make (TC.name tc) (dedup (flags ++ TC.flags tc))
  end.

(** The last case for [A.Happly]: a type parameter, a class, or the fatal
    error for [self] and [parent] in a type definition. *)
Definition apply_constraint (kind : type_hint_kind) (tparams : list string)
    (namespace : Namespace) (name : id) : result TC.t :=
  if mem tparams (snd name) then
    Value (TC.make (Some ""%string) [TC.HHType; TC.ExtendedHint; TC.TypeVar])
  else if kind_eqb kind TypeDef
          && (String.eqb (snd name) "self" || String.eqb (snd name) "parent")
  then Fatal (fst name)
         ("Cannot access " ++ snd name ++ " when no class scope is active")
  else Value (TC.make (Some (elaborate_raw namespace name)) [TC.HHType]).

Fixpoint hint_to_type_constraint (kind : type_hint_kind)
    (tparams : list string) (skipawaitable : bool) (namespace : Namespace)
    (h : hint) {struct h} : result TC.t :=
  match h with
  | Happly _ name args =>
      match args with
      | [] =>
          if String.eqb (snd name) "mixed" then Value (TC.make None [])
          else if String.eqb (snd name) "void" && negb (kind_eqb kind TypeDef)
          then Value (TC.make None [])
          else if skipawaitable && is_awaitable (snd name)
          then Value (TC.make None [])
          else apply_constraint kind tparams namespace name
      | [h1] =>
          if skipawaitable && is_awaitable (snd name) then
            if is_void h1 then Value (TC.make None [])
            else hint_to_type_constraint kind tparams false namespace h1
          else apply_constraint kind tparams namespace name
      | _ => apply_constraint kind tparams namespace name
      end
  | Hfun _ _ _ _ _ => Value (TC.make None [])
  | Haccess _ _ _ _ =>
      Value (TC.make (Some ""%string)
               [TC.HHType; TC.ExtendedHint; TC.TypeConstant])
  | Hshape _ _ | Htuple _ _ =>
      Value (TC.make (Some "array"%string) [TC.HHType; TC.ExtendedHint])
  | Hoption _ t =>
      let nullable :=
        map_result
          (fun tc => with_flags_if_non_empty tc
                       [TC.Nullable; TC.HHType; TC.ExtendedHint])
          (hint_to_type_constraint kind tparams skipawaitable namespace t) in
      if skipawaitable then
        match t with
        | Happly _ name [] =>
            if is_awaitable (snd name) then Value (TC.make None [])
            else nullable
        | Happly _ name [h1] =>
            if is_awaitable (snd name)
            then hint_to_type_constraint kind tparams false namespace h1
            else nullable
        | Hsoft _ (Happly _ name [h1]) =>
            if is_awaitable (snd name) then
              map_result
                (fun tc => with_flags_if_non_empty tc
                             [TC.Soft; TC.HHType; TC.ExtendedHint])
                (hint_to_type_constraint kind tparams skipawaitable
                   namespace h1)
            else nullable
        | _ => nullable
        end
      else nullable
  | Hsoft _ t =>
      map_result
        (fun tc => with_flags_if_non_empty tc
                     [TC.Soft; TC.HHType; TC.ExtendedHint])
        (hint_to_type_constraint kind tparams skipawaitable namespace t)
  end.

Definition make_tc_with_flags_if_non_empty_flags (kind : type_hint_kind)
    (tparams : list string) (skipawaitable : bool) (namespace : Namespace)
    (t : hint) (flags : list TC.type_constraint_flag) : result TC.t :=
  map_result (fun tc => with_flags_if_non_empty tc flags)
    (hint_to_type_constraint kind tparams skipawaitable namespace t).

End Constraints.

(** A constraint is either empty, or named and flagged as a Hack type. *)
Definition empty_or_hh_type (tc : TC.t) : Prop :=
  (TC.name tc = None /\ TC.flags tc = [])
  \/ (exists n, TC.name tc = Some n /\ In TC.HHType (TC.flags tc)).

(** A [List.dedup] that keeps the first occurrence of each flag. *)
Definition flag_eqb (a b : TC.type_constraint_flag) : bool :=
  match a, b with
  | TC.Nullable, TC.Nullable | TC.HHType, TC.HHType
  | TC.ExtendedHint, TC.ExtendedHint | TC.TypeVar, TC.TypeVar
  | TC.Soft, TC.Soft | TC.TypeConstant, TC.TypeConstant => true
  | _, _ => false
  end.

Fixpoint dedup_first (l : list TC.type_constraint_flag)
  : list TC.type_constraint_flag :=
  match l with
  | [] => []
  | x :: rest => x :: filter (fun y => negb (flag_eqb x y)) (dedup_first rest)
  end.

(** The one fatal error of the file: [self] or [parent] in a type
    definition. *)
Definition scope_error (kind : type_hint_kind) (msg : string) : Prop :=
  kind = TypeDef /\
  exists name, (name = "self" \/ name = "parent")%string /\
    msg = ("Cannot access " ++ name ++ " when no class scope is active")%string.

End EmitTypeHint.

(** * Properties *)

(** ** Byte strings *)

Module BytesFacts.
Import Bytes.

Lemma length_le_bytes (n : nat) (t : Z) : List.length (le_bytes n t) = n.
Proof.
  revert t; induction n as [|n IH]; intros t; simpl; [reflexivity|].
  now rewrite IH.
Qed.

Lemma from_le_le_bytes (n : nat) (t : Z) :
  from_le (le_bytes n t) = t mod 256 ^ Z.of_nat n.
Proof.
  revert t; induction n as [|n IH]; intros t.
  - simpl. now rewrite Z.mod_1_r.
  - cbn [le_bytes from_le]. rewrite IH.
    rewrite Nat2Z.inj_succ, Z.pow_succ_r by lia.
    rewrite Z.rem_mul_r by lia. reflexivity.
Qed.

Lemma from_le_range (n : nat) (t : Z) :
  0 <= from_le (le_bytes n t) < 256 ^ Z.of_nat n.
Proof.
  rewrite from_le_le_bytes. apply Z.mod_pos_bound. lia.
Qed.

End BytesFacts.

(** ** The PPC64 back end *)

Module BackEndPPC64Facts.
Import BackEndPPC64.

(** C4.  Every operation of the PPC64 back end whose body is
    [not_implemented()] aborts the process when invoked instead of returning
    a value: of the methods of [ppc64::BackEnd], all but [enterTCHelper] and
    [emitUniqueStubs] (so [abi], [cacheLineSize], the prologue and guard
    operations, service-request emission, the smash and emitSmashable
    operations and the queries on smashable sites), and the free functions
    [prepareForSmashImpl], [smashJmp] and [smashCall]. *)
Theorem ppc64_unimplemented_operations_abort :
  (forall enter stubs (c : Call),
      is_aborted (invoke enter stubs c) = negb (has_body c)) /\
  (forall cb nBytes offset,
      is_aborted (prepareForSmashImpl cb nBytes offset) = true) /\
  (forall jmpAddr newDest, is_aborted (free_smashJmp jmpAddr newDest) = true) /\
  (forall callAddr newDest,
      is_aborted (free_smashCall callAddr newDest) = true).
Proof.
  repeat split; try reflexivity.
  intros enter stubs c; destruct c; reflexivity.
Qed.

(** C10.  The free function [ppc64::isSmashable] returns [false] for every
    frontier, byte count and offset; it returns normally and does not
    abort. *)
Theorem ppc64_isSmashable_false :
  forall frontier nBytes offset,
    isSmashable frontier nBytes offset = Returned false.
Proof. intros; reflexivity. Qed.

End BackEndPPC64Facts.

(** ** Smashable sites *)

Module SmashableFacts.
Import Bytes BytesFacts Smashable.

Section Protocol.

Variable arch : Arch.












End Protocol.


(** A jump site at 4096 emitted for 8192 and smashed to 100 and then to
    70000 reads back 70000; smashing it to an address 2^31 bytes past the
    end of the instruction, which the displacement cannot hold, aborts. *)
Example smashed_site_sample_runs :
  (exists site,
      emit_and_smash rel32_arch Jmp 4096 8192 [100; 70000] = Returned site /\
      target rel32_arch Jmp 4096 site = Some 70000) /\
  is_aborted (emit_and_smash rel32_arch Jmp 4096 8192
                [100; 4096 + 5 + 2 ^ 31]) = true.
Proof. split; [eexists; split; reflexivity | reflexivity]. Qed.

End SmashableFacts.

(** ** The CFI writer *)

Module EHFrameFacts.
Import Bytes BytesFacts EHFrame.

Lemma cie_bytes_without_personality rip :
  m_buf (end_cie (begin_cie rip 0 new_writer))
  = [13; 0; 0; 0; 0; 0; 0; 0; 1; 122; 82; 0; 1; 120; rip mod 256; 1; 0].
Proof. reflexivity. Qed.

Lemma cie_bytes_with_personality rip p :
  (p =? 0) = false ->
  m_buf (end_cie (begin_cie rip p new_writer))
  = [23; 0; 0; 0; 0; 0; 0; 0; 1; 122; 80; 82; 0; 1; 120; rip mod 256; 10; 0]
      ++ le_bytes 8 p ++ [0].
Proof.
  intros Hp. unfold begin_cie. rewrite Hp. reflexivity.
Qed.

(** C6.  The buffer written by [begin_cie] followed by [end_cie] reads back
    as exactly one CIE and nothing after it: CIE id 0, version 1, code
    alignment 1, data alignment -8, the return-address register that was
    passed in, every pointer encoding [DW_EH_PE_absptr], and the
    augmentation string zPR with a personality routine and zR without. *)
Theorem begin_end_cie_writes_one_cie :
  forall rip personality : Z,
    parse_cie (m_buf (end_cie (begin_cie rip personality new_writer)))
    = Some (expected_cie rip personality, []).
Proof.
  intros rip personality. unfold expected_cie.
  destruct (personality =? 0) eqn:Hp.
  - apply Z.eqb_eq in Hp; subst personality.
    rewrite cie_bytes_without_personality.
    generalize (rip mod 256); intros r.
    transitivity (Some (mkCIE 0 1 "zR" 1 (-8) (from_le [r]) None
                          (Some DW_EH_PE_absptr) [], @nil Z)).
    { reflexivity. }
    cbn [from_le]. now rewrite Z.mul_0_r, Z.add_0_r.
  - rewrite (cie_bytes_with_personality _ _ Hp).
    pose proof (from_le_le_bytes 8 personality) as H.
    change (256 ^ Z.of_nat 8) with (2 ^ 64) in H.
    generalize dependent (personality mod 2 ^ 64). intros v H.
    cbn [le_bytes from_le] in H. cbn [le_bytes app].
    generalize dependent (rip mod 256); intros r.
    revert H.
    generalize (personality mod 256).
    generalize (personality / 256 mod 256).
    generalize (personality / 256 / 256 mod 256).
    generalize (personality / 256 / 256 / 256 mod 256).
    generalize (personality / 256 / 256 / 256 / 256 mod 256).
    generalize (personality / 256 / 256 / 256 / 256 / 256 mod 256).
    generalize (personality / 256 / 256 / 256 / 256 / 256 / 256 mod 256).
    generalize
      (personality / 256 / 256 / 256 / 256 / 256 / 256 / 256 mod 256).
    intros b7 b6 b5 b4 b3 b2 b1 b0 H.
    transitivity (Some (mkCIE 0 1 "zPR" 1 (-8) (from_le [r])
                          (Some (DW_EH_PE_absptr,
                                 from_le [b0; b1; b2; b3; b4; b5; b6; b7]))
                          (Some DW_EH_PE_absptr) [], @nil Z)).
    { reflexivity. }
    cbn [from_le]. rewrite H. now rewrite Z.mul_0_r, Z.add_0_r.
Qed.

End EHFrameFacts.

(** ** Memory and words *)

Module MachineFacts.
Import Machine.

Lemma store_bytes_other (n : nat) : forall m a v x,
  x < a \/ a + Z.of_nat n <= x -> store_bytes n m a v x = m x.
Proof.
  induction n as [|n IH]; intros m a v x Hx; [reflexivity|].
  cbn [store_bytes]. rewrite IH by lia.
  destruct (Z.eqb_spec x a); [lia | reflexivity].
Qed.

Lemma load_bytes_ext (n : nat) : forall m m' a,
  (forall x, a <= x < a + Z.of_nat n -> m' x = m x) ->
  load_bytes n m' a = load_bytes n m a.
Proof.
  induction n as [|n IH]; intros m m' a H; [reflexivity|].
  cbn [load_bytes]. rewrite H by lia. f_equal. f_equal.
  apply IH. intros x Hx. apply H. lia.
Qed.

Lemma load_store_bytes (n : nat) : forall m a v,
  load_bytes n (store_bytes n m a v) a = v mod 256 ^ Z.of_nat n.
Proof.
  induction n as [|n IH]; intros m a v.
  - simpl. now rewrite Z.mod_1_r.
  - cbn [load_bytes store_bytes]. rewrite IH.
    rewrite store_bytes_other by lia. rewrite Z.eqb_refl.
    rewrite Z.mod_mod by lia.
    rewrite Nat2Z.inj_succ, Z.pow_succ_r by lia.
    rewrite Z.rem_mul_r by lia. reflexivity.
Qed.

Lemma load_bytes_range (n : nat) : forall m a,
  0 <= load_bytes n m a < 256 ^ Z.of_nat n.
Proof.
  induction n as [|n IH]; intros m a.
  - simpl. lia.
  - cbn [load_bytes]. rewrite Nat2Z.inj_succ, Z.pow_succ_r by lia.
    specialize (IH m (a + 1)).
    pose proof (Z.mod_pos_bound (m a) 256). lia.
Qed.

Lemma load_store_other (n k : nat) m a b v :
  a + Z.of_nat n <= b \/ b + Z.of_nat k <= a ->
  load_bytes n (store_bytes k m b v) a = load_bytes n m a.
Proof.
  intros H. apply load_bytes_ext. intros x Hx.
  apply store_bytes_other. lia.
Qed.

Lemma wrap64_load64 m a : wrap64 (load64 m a) = load64 m a.
Proof.
  unfold wrap64, wrap, load64. apply Z.mod_small.
  pose proof (load_bytes_range 8 m a) as H.
  change (256 ^ Z.of_nat 8) with (2 ^ 64) in H. exact H.
Qed.

Lemma wrap64_idem x : wrap64 (wrap64 x) = wrap64 x.
Proof. unfold wrap64, wrap. apply Z.mod_mod. lia. Qed.

Lemma wrap64_range x : 0 <= wrap64 x < 2 ^ 64.
Proof. unfold wrap64, wrap. apply Z.mod_pos_bound. lia. Qed.

Lemma signed32_load32 m a :
  signed 32 (load32 m a)
  = if load32 m a <? 2 ^ 31 then load32 m a else load32 m a - 2 ^ 32.
Proof.
  unfold signed, wrap. rewrite Z.mod_small; [reflexivity|].
  pose proof (load_bytes_range 4 m a) as H.
  change (256 ^ Z.of_nat 4) with (2 ^ 32) in H. exact H.
Qed.

Lemma signed_small bits x :
  0 < bits -> 0 <= x < 2 ^ (bits - 1) -> signed bits x = x.
Proof.
  intros Hb Hx. unfold signed, wrap.
  assert (2 ^ bits = 2 * 2 ^ (bits - 1)).
  { replace bits with (Z.succ (bits - 1)) at 1 by lia.
    apply Z.pow_succ_r. lia. }
  rewrite Z.mod_small by lia.
  destruct (Z.ltb_spec x (2 ^ (bits - 1))); lia.
Qed.

End MachineFacts.

(** ** Running Vasm code *)

Module VasmFacts.
Import Machine Vasm.

Section Steps.

Variable host : HostFn -> State -> State.
Variable cb : list Vcode.

Lemma exec_simple f i rest s t :
  is_simple i = true ->
  exec host cb (S f) (I i :: rest) s t
  = exec host cb f rest (step_simple i s) t.
Proof. destruct i; intros H; try discriminate H; reflexivity. Qed.

Lemma exec_ret f rest s t :
  exec host cb (S f) (I ret :: rest) s t = mkRun ExitReturn s t.
Proof. reflexivity. Qed.

Lemma exec_nil f s t :
  exec host cb (S f) [] s t = mkRun ExitFallthrough s t.
Proof. reflexivity. Qed.

Lemma exec_ifThen_false f cc body rest s t :
  cond cc (cr0 s) = false ->
  exec host cb (S f) (ifThen cc body :: rest) s t = exec host cb f rest s t.
Proof. intros H. cbn [exec]. now rewrite H. Qed.

Lemma exec_ifThen_true f cc body rest s t r :
  cond cc (cr0 s) = true ->
  exec host cb f body s t = r ->
  exec host cb (S f) (ifThen cc body :: rest) s t
  = match exit r with
    | ExitFallthrough => exec host cb f rest (final r) (events r)
    | _ => r
    end.
Proof. intros H Hr. cbn [exec]. now rewrite H, Hr. Qed.

Lemma exec_doWhile f cc body rest s t r :
  exec host cb f body s t = r ->
  exec host cb (S f) (doWhile cc body :: rest) s t
  = match exit r with
    | ExitFallthrough =>
        if cond cc (cr0 (final r))
        then exec host cb f (doWhile cc body :: rest) (final r) (events r)
        else exec host cb f rest (final r) (events r)
    | _ => r
    end.
Proof. intros Hr. cbn [exec]. now rewrite Hr. Qed.

Lemma exec_syncpoint f fixup rest s t :
  exec host cb (S f) (I (syncpoint fixup) :: rest) s t
  = exec host cb f rest s (t ++ [EvSyncpoint fixup]).
Proof. reflexivity. Qed.

Lemma exec_callm_destructor f shift ty rest s t :
  exec host cb (S f) (I (callm_destructor shift ty) :: rest) s t
  = exec host cb f rest
      (host (destructor (Z.shiftr (wrap 32 (get s ty)) shift)) s)
      (t ++ [ev_call (destructor (Z.shiftr (wrap 32 (get s ty)) shift)) s]).
Proof. reflexivity. Qed.

Lemma exec_call_host f h rest s t :
  exec host cb (S f) (I (call (Host h)) :: rest) s t
  = if noreturn h then mkRun (ExitNoReturn h) (host h s) (t ++ [ev_call h s])
    else exec host cb f rest (host h s) (t ++ [ev_call h s]).
Proof. reflexivity. Qed.

Lemma exec_call_stub f entry rest s t r :
  (entry < List.length cb)%nat ->
  exec host cb f (skipn entry cb) s t = r ->
  exec host cb (S f) (I (call (Stub entry)) :: rest) s t
  = match exit r with
    | ExitReturn => exec host cb f rest (final r) (events r)
    | _ => r
    end.
Proof.
  intros H Hr. cbn [exec].
  destruct (Nat.ltb_spec entry (List.length cb)); [now rewrite Hr | lia].
Qed.

Lemma exec_jcci_taken f cc taken rest s t :
  cond cc (cr0 s) = true ->
  (taken < List.length cb)%nat ->
  exec host cb (S f) (I (jcci cc taken) :: rest) s t
  = exec host cb f (skipn taken cb) s t.
Proof.
  intros H Hlt. cbn [exec]. rewrite H.
  destruct (Nat.ltb_spec taken (List.length cb)); [reflexivity | lia].
Qed.

Lemma exec_jcci_not_taken f cc taken rest s t :
  cond cc (cr0 s) = false ->
  exec host cb (S f) (I (jcci cc taken) :: rest) s t
  = exec host cb f rest s t.
Proof. intros H. cbn [exec]. now rewrite H. Qed.

End Steps.

End VasmFacts.

(** ** The Vasm stubs *)

Module UniqueStubsFacts.
Import Machine Vasm UniqueStubs MachineFacts VasmFacts.

Lemma skipn_frontier (cb code : list Vcode) :
  skipn (frontier cb) (cb ++ code) = code.
Proof.
  unfold frontier. rewrite skipn_app, skipn_all, Nat.sub_diag. reflexivity.
Qed.

Section Release.

Variable L : Layout.
Variable host : HostFn -> State -> State.

Lemma cr0_after_compare s :
  cr0 (after_compare L s)
  = compare (refcount_at (mem s) (refcount_addr L s)) 1.
Proof.
  unfold after_compare, refcount_at, refcount_addr, slot_data.
  cbn [step_simple cr0 set_cr0 mem setr ea get regs reg_eqb rarg local
       Nat.add Nat.eqb].
  rewrite wrap64_load64. reflexivity.
Qed.

(** A condition on the flags left by the refcount comparison, settled by
    what is known about the refcount. *)
Ltac by_refcount H :=
  unfold cond; rewrite cr0_after_compare; cbn [cr_lt cr_eq compare];
  now rewrite H.

(** The routine returns in every case, whatever code follows it in the
    block. *)
Lemma exec_release cbf rest s t extra :
  exec host cbf (12 + extra)
    (emitDecRefHelper_code L local type [local; last] ++ rest) s t
  = release_result L host s t.
Proof.
  unfold emitDecRefHelper_code, PhysRegSaver, release_result.
  cbn [Nat.add map rev app].
  rewrite !exec_simple by reflexivity.
  fold (after_compare L s).
  destruct (refcount_at (mem s) (refcount_addr L s) <? 1) eqn:Hlt.
  - rewrite exec_ifThen_false; [apply exec_ret | by_refcount Hlt].
  - assert (Hnl : cond CC_NL (cr0 (after_compare L s)) = true)
      by by_refcount Hlt.
    destruct (refcount_at (mem s) (refcount_addr L s) =? 1) eqn:Heq.
    + erewrite exec_ifThen_true; [ | exact Hnl | ].
      2:{ rewrite exec_ifThen_false; [ | by_refcount Heq ].
          rewrite !exec_simple by reflexivity.
          rewrite exec_callm_destructor, exec_syncpoint.
          rewrite !exec_simple by reflexivity.
          apply exec_nil. }
      cbn [exit final events]. rewrite exec_ret.
      unfold after_destructor, before_destructor, destructor_of,
        makeIndirectFixup, dwordsPushed.
      rewrite <- app_assoc. reflexivity.
    + erewrite exec_ifThen_true; [ | exact Hnl | ].
      2:{ erewrite exec_ifThen_true; [ reflexivity | by_refcount Heq | ].
          rewrite exec_simple by reflexivity. apply exec_ret. }
      reflexivity.
Qed.

End Release.


(** C2.  The release routine emitted for the free-locals helpers always
    returns to its caller, and what it does is decided by the refcount [rc]
    of the value the slot points to: above 1 it decrements the refcount and
    touches nothing else; at exactly 1 it calls the destructor selected by
    the type register with the value as argument and then records a
    synchronization point; below 1 (a static value) it leaves memory alone
    and calls nothing. *)
Theorem decRefHelper_decides_on_refcount :
  forall (L : Layout) (host : HostFn -> State -> State) (cb : CodeBlock)
         (s : State) (t : Trace) (extra : nat),
    let cb' := fst (emitDecRefHelper L cb local type [local; last]) in
    let release := snd (emitDecRefHelper L cb local type [local; last]) in
    let r := exec host cb' (12 + extra) (skipn release cb') s t in
    let a := refcount_addr L s in
    let rc := refcount_at (mem s) a in
    exit r = ExitReturn /\
    (1 < rc ->
       refcount_at (mem (final r)) a = rc - 1 /\
       (forall x, x < a \/ a + 4 <= x -> mem (final r) x = mem s x) /\
       events r = t) /\
    (rc = 1 ->
       events r
       = t ++ [ EvCall (destructor_of L s) (slot_data L s) (get s local);
                EvSyncpoint 3 ]) /\
    (rc < 1 -> mem (final r) = mem s /\ events r = t).
Proof.
  intros L host cb s t extra cb' release r a rc.
  assert (Hr : r = release_result L host s t).
  { subst r release cb'. unfold emitDecRefHelper, vwrap. cbn [fst snd].
    rewrite skipn_frontier.
    rewrite <- (app_nil_r (emitDecRefHelper_code _ _ _ _)).
    apply exec_release. }
  rewrite Hr. clear Hr r. unfold release_result. fold a. fold rc.
  assert (Hea : ea (after_compare L s)
                   (BaseDisp (rarg 0) (FAST_REFCOUNT_OFFSET L)) = a).
  { unfold after_compare, a, refcount_addr, slot_data.
    cbn [step_simple cr0 set_cr0 mem setr ea get regs reg_eqb rarg local
         Nat.add Nat.eqb].
    now rewrite wrap64_load64. }
  destruct (Z.ltb_spec rc 1) as [Hlt|Hge];
    [ | destruct (Z.eqb_spec rc 1) as [Heq|Hne] ].
  - repeat split; try lia; intros _; reflexivity.
  - repeat split; try lia. intros _.
    unfold ev_call, before_destructor, after_compare, destructor_of,
      slot_data.
    cbn [step_simple cr0 set_cr0 set_mem mem setr ea get regs reg_eqb rarg
         local last type Nat.add Nat.eqb].
    now rewrite wrap64_load64.
  - repeat split; try lia.
    + cbn [final step_simple set_cr0 set_mem mem]. rewrite Hea.
      change (mem (after_compare L s)) with (mem s).
      unfold refcount_at. unfold store32, load32 at 1.
      rewrite load_store_bytes. change (256 ^ Z.of_nat 4) with (2 ^ 32).
      unfold rc, refcount_at in *. rewrite signed32_load32 in *.
      pose proof (load_bytes_range 4 (mem s) a) as Hrange.
      change (256 ^ Z.of_nat 4) with (2 ^ 32) in Hrange.
      fold load32 in Hrange.
      destruct (Z.ltb_spec (load32 (mem s) a) (2 ^ 31)); [|lia].
      unfold wrap. rewrite Z.mod_mod by lia.
      rewrite Z.mod_small by lia. apply signed_small; lia.
    + intros x Hx. cbn [final step_simple set_cr0 set_mem mem]. rewrite Hea.
      change (mem (after_compare L s)) with (mem s).
      apply store_bytes_other. simpl Z.of_nat. lia.
Qed.
(** Three runs of the routine on sample frames: a string with refcount 2 is
    decremented, one with refcount 1 goes to the destructor of strings, and a
    static string (refcount with the sign bit set) is left alone. *)
Example decRefHelper_sample_runs :
  let cb := fst (emitDecRefHelper Samples.sample_layout []
                   local type [local; last]) in
  let counted := run Samples.quiet_host cb 12 0 (Samples.value_frame 20 2 0) in
  let last_ref := run Samples.quiet_host cb 12 0 (Samples.value_frame 20 1 0) in
  let static := run Samples.quiet_host cb 12 0 (Samples.value_frame 20 0 128) in
  (exit counted = ExitReturn /\
   load32 (mem (final counted)) 2012 = 1 /\
   events counted = []) /\
  (exit last_ref = ExitReturn /\
   events last_ref = [EvCall (destructor 1) 2000 1000; EvSyncpoint 3]) /\
  (exit static = ExitReturn /\
   load32 (mem (final static)) 2012 = 2147483648 /\
   events static = []).
Proof. vm_compute. repeat split. Qed.

(** *** The free-locals helpers: layout *)

Section FreeLocalsLayout.

Variable L : Layout.

Lemma emit_unrolled_fst release n : forall cb us,
  fst (emit_unrolled L release n cb us) = cb ++ unrolled_code L release n.
Proof.
  induction n as [|i IH]; intros cb us; cbn [emit_unrolled unrolled_code].
  - now rewrite app_nil_r.
  - unfold vwrap. rewrite IH. now rewrite <- app_assoc.
Qed.

Lemma emit_unrolled_keeps release n : forall cb us,
  freeManyLocalsHelper (snd (emit_unrolled L release n cb us))
  = freeManyLocalsHelper us /\
  forall j, (n <= j)%nat ->
    freeLocalsHelpers (snd (emit_unrolled L release n cb us)) j
    = freeLocalsHelpers us j.
Proof.
  induction n as [|i IH]; intros cb us; cbn [emit_unrolled].
  - split; reflexivity.
  - unfold vwrap. destruct (IH
      (cb ++ decref_local L release
          ++ (if Nat.eqb i 0 then [] else next_local L))
      (set_freeLocalsHelpers us i (frontier cb))) as [Hm Hj].
    split; [exact Hm|]. intros j Hle. rewrite Hj by lia.
    cbn [set_freeLocalsHelpers freeLocalsHelpers].
    destruct (Nat.eqb_spec j i); [lia | reflexivity].
Qed.

(** Entry [i] is where the code of the entries [i], ..., 0 starts. *)
Lemma emit_unrolled_entry release n : forall cb us i rest,
  (i < n)%nat ->
  skipn (freeLocalsHelpers (snd (emit_unrolled L release n cb us)) i)
        (fst (emit_unrolled L release n cb us) ++ rest)
  = unrolled_code L release (S i) ++ rest.
Proof.
  induction n as [|m IH]; intros cb us i rest Hi; [lia|].
  cbn [emit_unrolled]. unfold vwrap.
  destruct (Nat.eq_dec i m) as [->|Hne].
  - destruct (emit_unrolled_keeps release m
      (cb ++ decref_local L release
          ++ (if Nat.eqb m 0 then [] else next_local L))
      (set_freeLocalsHelpers us m (frontier cb))) as [_ Hj].
    rewrite Hj by lia. rewrite emit_unrolled_fst.
    cbn [set_freeLocalsHelpers freeLocalsHelpers]. rewrite Nat.eqb_refl.
    rewrite <- !app_assoc. rewrite skipn_frontier.
    cbn [unrolled_code]. now rewrite <- !app_assoc.
  - apply IH. lia.
Qed.

Lemma freeLocals_layout cb us :
  exists pre mid : list Vcode,
    let release := List.length pre in
    emitFreeLocalsHelpers_code L cb us
    = (pre ++ emitDecRefHelper_code L local type [local; last] ++ mid
           ++ freeManyLocalsHelper_code L release
           ++ unrolled_code L release (kNumFreeLocalsHelpers L) ++ [I ret],
       snd (emit_unrolled L release (kNumFreeLocalsHelpers L)
              (pre ++ emitDecRefHelper_code L local type [local; last] ++ mid
                   ++ freeManyLocalsHelper_code L release)
              (set_freeManyLocalsHelper us
                 (List.length
                    (pre ++ emitDecRefHelper_code L local type [local; last]
                         ++ mid)))),
       release).
Proof.
  exists (align L cb (cache_line_size L)).
  exists (align_fill L
            (align L cb (cache_line_size L)
               ++ emitDecRefHelper_code L local type [local; last])
            (jmp_target_alignment L)).
  cbn zeta. unfold emitFreeLocalsHelpers_code, emitDecRefHelper, vwrap,
    alignJmpTarget, frontier.
  set (pre := align L cb (cache_line_size L)).
  set (rel := emitDecRefHelper_code L local type [local; last]).
  unfold align. rewrite <- !app_assoc.
  set (mid := align_fill L (pre ++ rel) (jmp_target_alignment L)).
  match goal with
  | |- context [emit_unrolled ?a ?b ?c ?d ?e] =>
      pose proof (emit_unrolled_fst b c d e) as Hfst;
      destruct (emit_unrolled a b c d e) as [cb1 us1]
  end.
  cbn [fst snd] in *. subst cb1. now rewrite <- !app_assoc.
Qed.

(** Where the entries of the emitted block lead. *)
Lemma freeLocals_entries cb us :
  exists (cb' : CodeBlock) (us' : UniqueStubs) (release : nat)
         (after_release : list Vcode),
    emitFreeLocalsHelpers_code L cb us = (cb', us', release) /\
    (release < List.length cb')%nat /\
    skipn release cb'
    = emitDecRefHelper_code L local type [local; last] ++ after_release /\
    skipn (freeManyLocalsHelper us') cb'
    = freeManyLocalsHelper_code L release
        ++ unrolled_code L release (kNumFreeLocalsHelpers L) ++ [I ret] /\
    (forall i, (i < kNumFreeLocalsHelpers L)%nat ->
       skipn (freeLocalsHelpers us' i) cb'
       = unrolled_code L release (S i) ++ [I ret]) /\
    List.last cb' (I ud2) = I ret.
Proof.
  destruct (freeLocals_layout cb us) as [pre [mid E]]. cbn zeta in E.
  set (release := List.length pre) in *.
  set (rel := emitDecRefHelper_code L local type [local; last]) in *.
  set (many := freeManyLocalsHelper_code L release) in *.
  set (K := kNumFreeLocalsHelpers L) in *.
  set (front := pre ++ rel ++ mid ++ many) in *.
  set (us0 := set_freeManyLocalsHelper us (List.length (pre ++ rel ++ mid)))
    in *.
  set (cb' := pre ++ rel ++ mid ++ many ++ unrolled_code L release K
                  ++ [I ret]) in *.
  exists cb', (snd (emit_unrolled L release K front us0)), release,
    (mid ++ many ++ unrolled_code L release K ++ [I ret]).
  assert (Hcb : cb' = fst (emit_unrolled L release K front us0) ++ [I ret]).
  { rewrite emit_unrolled_fst. unfold cb', front.
    now rewrite <- !app_assoc. }
  repeat split.
  - exact E.
  - unfold cb', release. rewrite !length_app. unfold rel.
    cbn [emitDecRefHelper_code List.length]. lia.
  - unfold cb', release. apply skipn_frontier.
  - destruct (emit_unrolled_keeps release K front us0) as [Hm _].
    rewrite Hm. unfold us0.
    cbn [set_freeManyLocalsHelper freeManyLocalsHelper].
    unfold cb'. rewrite !app_assoc.
    rewrite <- (app_assoc _ many), <- (app_assoc _ (many ++ _)).
    rewrite <- (app_assoc many). apply skipn_frontier.
  - intros i Hi. rewrite Hcb. apply emit_unrolled_entry. exact Hi.
  - unfold cb'. rewrite !app_assoc. apply last_last.
Qed.

End FreeLocalsLayout.

(** *** The free-locals helpers: running the unrolled entries *)

Lemma wrap64_load8 m a : wrap64 (load8 m a) = load8 m a.
Proof.
  unfold wrap64, wrap, load8. apply Z.mod_small.
  pose proof (load_bytes_range 1 m a) as H.
  change (256 ^ Z.of_nat 1) with 256 in H. lia.
Qed.

Section FreeLocalsRun.

Variable L : Layout.
Variable host : HostFn -> State -> State.
Variable cbf : list Vcode.
Variable release : nat.
Variable after_release : list Vcode.

Hypothesis release_in_block : (release < List.length cbf)%nat.
Hypothesis release_code :
  skipn release cbf
  = emitDecRefHelper_code L local type [local; last] ++ after_release.

Lemma exec_release_at f s t :
  (12 <= f)%nat ->
  exec host cbf f (skipn release cbf) s t = release_result L host s t.
Proof.
  intros Hf. rewrite release_code.
  replace f with (12 + (f - 12))%nat by lia. apply exec_release.
Qed.

Lemma exit_release_result s t :
  exit (release_result L host s t) = ExitReturn.
Proof.
  unfold release_result.
  destruct (_ <? 1); [reflexivity|]. destruct (_ =? 1); reflexivity.
Qed.

Lemma gt_after_cmpbi s :
  cond CC_G (cr0 (step_simple (cmpbi (KindOfRefCountThreshold L) type)
                    (load_type L s)))
  = refcounted_type L s.
Proof.
  unfold refcounted_type, load_type.
  cbn [cond step_simple cr0 set_cr0 cr_gt compare mem setr ea get regs
       reg_eqb rarg local type Nat.add Nat.eqb].
  now rewrite wrap64_load8.
Qed.

Lemma exec_decref_local f rest s t :
  (14 <= f)%nat ->
  exec host cbf (3 + f) (decref_local L release ++ rest) s t
  = exec host cbf f rest
      (fst (release_local_if_refcounted L host s t))
      (snd (release_local_if_refcounted L host s t)).
Proof.
  intros Hf. unfold decref_local, release_local_if_refcounted.
  cbn [app Nat.add]. rewrite !exec_simple by reflexivity.
  fold (load_type L s).
  set (s1 := step_simple (cmpbi (KindOfRefCountThreshold L) type)
               (load_type L s)).
  pose proof (gt_after_cmpbi s) as Hgt. fold s1 in Hgt.
  destruct (refcounted_type L s).
  - replace f with (S (S (f - 2))) by lia.
    erewrite exec_ifThen_true; [ | exact Hgt | ].
    2:{ erewrite exec_call_stub; [ | exact release_in_block | ].
        2:{ apply exec_release_at. lia. }
        rewrite exit_release_result. apply exec_nil. }
    reflexivity.
  - rewrite exec_ifThen_false by exact Hgt. reflexivity.
Qed.

Lemma unrolled_code_S i :
  unrolled_code L release (S i)
  = decref_local L release
      ++ (if Nat.eqb i 0 then [] else next_local L)
      ++ unrolled_code L release i.
Proof. cbn [unrolled_code]. now rewrite <- app_assoc. Qed.

Lemma exec_unrolled i : forall f s t,
  (4 * i + 20 <= f)%nat ->
  exit (exec host cbf f (unrolled_code L release (S i) ++ [I ret]) s t)
  = ExitReturn /\
  run_effects (exec host cbf f (unrolled_code L release (S i) ++ [I ret]) s t)
  = effects (release_refcounted_locals L host (S i) s t).
Proof.
  induction i as [|j IH]; intros f s t Hf; rewrite unrolled_code_S;
    rewrite <- !app_assoc;
    replace f with (3 + (f - 3))%nat by lia;
    rewrite exec_decref_local by lia;
    unfold release_refcounted_locals; cbn [each_local];
    destruct (release_local_if_refcounted L host s t) as [s1 t1];
    cbn [fst snd Nat.eqb app unrolled_code].
  - replace (f - 3)%nat with (S (f - 4)) by lia. rewrite exec_ret.
    split; reflexivity.
  - unfold next_local. cbn [app].
    replace (f - 3)%nat with (S (f - 4)) by lia.
    rewrite exec_simple by reflexivity. fold (advance L s1).
    apply IH. lia.
Qed.

End FreeLocalsRun.

(** *** The free-locals helpers: the looping entry *)

Section FreeLocalsLoop.

Variable L : Layout.
Variable host : HostFn -> State -> State.

(** The release step reads the flags only after setting them. *)
Lemma release_local_if_refcounted_flags s f t :
  release_local_if_refcounted L host (set_cr0 s f) t
  = release_local_if_refcounted L host s t.
Proof. reflexivity. Qed.

Lemma each_local_flags k : forall s f t,
  effects (each_local L (release_local_if_refcounted L host) k
             (set_cr0 s f) t)
  = effects (each_local L (release_local_if_refcounted L host) k s t).
Proof.
  destruct k as [|k]; intros s f t; [reflexivity|].
  cbn [each_local]. now rewrite release_local_if_refcounted_flags.
Qed.

Variable cbf : list Vcode.
Variable release : nat.
Variable after_release : list Vcode.

Hypothesis release_in_block : (release < List.length cbf)%nat.
Hypothesis release_code :
  skipn release cbf
  = emitDecRefHelper_code L local type [local; last] ++ after_release.

Lemma exec_loop_body f s t :
  (22 <= f)%nat ->
  exec host cbf f
    (decref_local L release ++ next_local L ++ [I (cmpq local last)]) s t
  = mkRun ExitFallthrough (fst (loop_iteration L host s t))
          (snd (loop_iteration L host s t)).
Proof.
  intros Hf. replace f with (3 + (3 + (f - 6)))%nat by lia.
  rewrite (exec_decref_local L host cbf release after_release
             release_in_block release_code) by lia.
  unfold loop_iteration.
  destruct (release_local_if_refcounted L host s t) as [s1 t1].
  cbn [fst snd next_local app Nat.add].
  rewrite !exec_simple by reflexivity. apply exec_nil.
Qed.

Lemma exec_loop n : forall f rest s t,
  (n + 23 <= f)%nat ->
  loop_exits_after L host n s t ->
  exists s' t',
    exec host cbf f
      (doWhile CC_NZ
         (decref_local L release ++ next_local L ++ [I (cmpq local last)])
       :: rest) s t
    = exec host cbf (f - n) rest s' t' /\
    forall k,
      effects (each_local L (release_local_if_refcounted L host) (n + k) s t)
      = effects (each_local L (release_local_if_refcounted L host) k s' t').
Proof.
  induction n as [|n IH]; intros f rest s t Hf Hexit; [contradiction|].
  cbn [loop_exits_after] in Hexit.
  destruct f as [|f]; [lia|].
  erewrite exec_doWhile; [ | apply exec_loop_body; lia ].
  cbn [exit final events].
  destruct (cond CC_NZ (cr0 (fst (loop_iteration L host s t)))).
  - destruct (IH f rest _ _ ltac:(lia) Hexit) as [s' [t' [Hrun Heff]]].
    exists s', t'. split.
    + rewrite Hrun. f_equal.
    + intros k. rewrite <- Heff. cbn [Nat.add each_local].
      unfold loop_iteration.
      destruct (release_local_if_refcounted L host s t) as [s1 t1].
      cbn [fst snd]. symmetry. apply each_local_flags.
  - subst n. exists (fst (loop_iteration L host s t)),
      (snd (loop_iteration L host s t)). split.
    + f_equal. lia.
    + intros k. cbn [Nat.add each_local]. unfold loop_iteration.
      destruct (release_local_if_refcounted L host s t) as [s1 t1].
      cbn [fst snd]. symmetry. apply each_local_flags.
Qed.

End FreeLocalsLoop.



(** *** The free-locals helpers: the claim *)

Lemma count_rets_many L release :
  count_rets (freeManyLocalsHelper_code L release) = 0%nat.
Proof. reflexivity. Qed.

Lemma last_app_singleton (A : Type) (l : list A) (x d : A) :
  List.last (l ++ [x]) d = x.
Proof. apply last_last. Qed.





(** On the frame of two strings both slots have a refcounted type; entered
    at its second unrolled entry the helper decrements the refcount of the
    first string from 2 to 1, hands the second, whose refcount is 1, to the
    destructor of strings, and so does the release routine invoked twice in
    sequence. *)
Example unrolled_entry_sample_run :
  let '(cb', us', release) :=
    emitFreeLocalsHelpers_code Samples.sample_layout [] Samples.no_stubs in
  let r := run Samples.quiet_host cb' 24 (freeLocalsHelpers us' 1)
             Samples.two_strings_frame in
  let twice := release_locals Samples.sample_layout Samples.quiet_host 2
                 Samples.two_strings_frame [] in
  slots_refcounted Samples.sample_layout Samples.quiet_host 2
    Samples.two_strings_frame [] = true /\
  exit r = ExitReturn /\
  load32 (mem (final r)) 2012 = 1 /\
  events r = [EvCall (destructor 1) 3000 1016; EvSyncpoint 3] /\
  load32 (fst (effects twice)) 2012 = 1 /\
  snd (effects twice) = [EvCall (destructor 1) 3000 1016; EvSyncpoint 3].
Proof. vm_compute. repeat split. Qed.

(** The looping entry: when the loop is left after [n] iterations, the
    helper has gone through [n] slots and then through the [K] slots of the
    unrolled entries, releasing each slot of refcounted type, and returns
    through the shared [ret]. *)
Theorem looping_entry_releases_refcounted_slots :
  forall (L : Layout) (host : HostFn -> State -> State) (cb : CodeBlock)
         (us : UniqueStubs) (s : State) (n extra : nat),
    (1 <= kNumFreeLocalsHelpers L)%nat ->
    loop_exits_after L host n (enter_many L s) [] ->
    let '(cb', us', release) := emitFreeLocalsHelpers_code L cb us in
    let r := run host cb' (n + 4 * kNumFreeLocalsHelpers L + 25 + extra)
               (freeManyLocalsHelper us') s in
    exit r = ExitReturn /\
    run_effects r
    = effects (release_refcounted_locals L host
                 (n + kNumFreeLocalsHelpers L) (enter_many L s) []).
Proof.
  intros L host cb us s n extra HK Hloop.
  destruct (freeLocals_entries L cb us)
    as [cb' [us' [release [rest [E [Hlt [Hrel [Hmany [Hentry Hlast]]]]]]]]].
  rewrite E. clear E. unfold run. rewrite Hmany.
  unfold freeManyLocalsHelper_code. cbn [app].
  replace (n + 4 * kNumFreeLocalsHelpers L + 25 + extra)%nat
    with (S (n + 4 * kNumFreeLocalsHelpers L + 24 + extra)) by lia.
  rewrite exec_simple by reflexivity. fold (enter_many L s).
  destruct (exec_loop L host cb' release rest Hlt Hrel n
              (n + 4 * kNumFreeLocalsHelpers L + 24 + extra)%nat
              (unrolled_code L release (kNumFreeLocalsHelpers L) ++ [I ret])
              (enter_many L s) [] ltac:(lia) Hloop)
    as [s' [t' [Hrun Heff]]].
  rewrite Hrun.
  destruct (exec_unrolled L host cb' release rest Hlt Hrel
              (kNumFreeLocalsHelpers L - 1)%nat
              (n + 4 * kNumFreeLocalsHelpers L + 24 + extra - n)%nat s' t')
    as [Hexit Hrel']; [lia|].
  replace (S (kNumFreeLocalsHelpers L - 1))
    with (kNumFreeLocalsHelpers L) in * by lia.
  split; [exact Hexit|].
  rewrite Hrel'. unfold release_refcounted_locals. symmetry. apply Heff.
Qed.

Lemma looping_entry_witness :
  (1 <= kNumFreeLocalsHelpers Samples.sample_layout)%nat /\
  loop_exits_after Samples.sample_layout Samples.quiet_host 1
    (enter_many Samples.sample_layout Samples.ten_locals_frame) [] /\
  let '(cb', us', release) :=
    emitFreeLocalsHelpers_code Samples.sample_layout [] Samples.no_stubs in
  let r := run Samples.quiet_host cb'
             (1 + 4 * kNumFreeLocalsHelpers Samples.sample_layout + 25 + 0)
             (freeManyLocalsHelper us') Samples.ten_locals_frame in
  exit r = ExitReturn /\
  run_effects r
  = effects (release_refcounted_locals Samples.sample_layout
               Samples.quiet_host
               (1 + kNumFreeLocalsHelpers Samples.sample_layout)
               (enter_many Samples.sample_layout Samples.ten_locals_frame)
               []).
Proof.
  assert (H1 : (1 <= kNumFreeLocalsHelpers Samples.sample_layout)%nat)
    by (cbn; lia).
  assert (H2 : loop_exits_after Samples.sample_layout Samples.quiet_host 1
                 (enter_many Samples.sample_layout Samples.ten_locals_frame)
                 [])
    by (vm_compute; reflexivity).
  split; [exact H1|]. split; [exact H2|].
  exact (looping_entry_releases_refcounted_slots Samples.sample_layout
           Samples.quiet_host [] Samples.no_stubs Samples.ten_locals_frame
           1 0 H1 H2).
Defined.

(** On the sample frame the looping entry decrements the refcount of the
    string in the lowest local from 2 to 1 and calls nothing. *)
Example looping_entry_sample_run :
  let '(cb', us', release) :=
    emitFreeLocalsHelpers_code Samples.sample_layout [] Samples.no_stubs in
  let r := run Samples.quiet_host cb' 70 (freeManyLocalsHelper us')
             Samples.ten_locals_frame in
  exit r = ExitReturn /\
  load32 (mem (final r)) 2012 = 1 /\
  events r = [] /\
  get (final r) local = 3984.
Proof. vm_compute. repeat split. Qed.

(** *** The end-catch stub *)

Lemma skipn_app_plus (A : Type) (l l' : list A) (n : nat) :
  skipn (List.length l + n) (l ++ l') = skipn n l'.
Proof.
  rewrite skipn_app.
  rewrite skipn_all2 by lia.
  replace (List.length l + n - List.length l)%nat with n by lia.
  reflexivity.
Qed.

Lemma signed64_eq_0 x : 0 <= x < 2 ^ 64 -> (signed 64 x =? 0) = (x =? 0).
Proof.
  intros Hx. unfold signed, wrap. rewrite Z.mod_small by lia.
  change (2 ^ (64 - 1)) with (2 ^ 63).
  destruct (Z.ltb_spec x (2 ^ 63)); [reflexivity|].
  destruct (Z.eqb_spec (x - 2 ^ 64) 0), (Z.eqb_spec x 0); lia || reflexivity.
Qed.

Lemma endCatch_layout L cb us :
  exists fill : list Vcode,
    emitEndCatchHelper L cb us
    = (cb ++ endCatch_code L (List.length cb) fill,
       set_endCatchHelperPast us (List.length cb + 6),
       (List.length cb + 7 + List.length fill)%nat).
Proof.
  unfold emitEndCatchHelper, emit_persistent, vwrap, alignJmpTarget, align,
    frontier.
  cbn [fst snd].
  match goal with
  | |- context [align_fill L ?c ?a] => exists (align_fill L c a);
      set (fill := align_fill L c a)
  end.
  unfold endCatch_code. rewrite <- !app_assoc. cbn [app].
  rewrite !length_app. cbn [List.length].
  f_equal. lia.
Qed.

Section EndCatchRun.

Variable L : Layout.
Variable host : HostFn -> State -> State.
Variable cb fill : list Vcode.

Let cb' := cb ++ endCatch_code L (List.length cb) fill.
Let start := (List.length cb + 7 + List.length fill)%nat.

Lemma cb'_length : (start + 7 < List.length cb')%nat.
Proof.
  unfold cb', start, endCatch_code.
  repeat (rewrite length_app || cbn [List.length app]). lia.
Qed.

Lemma endCatch_entry :
  skipn start cb'
  = skipn (7 + List.length fill) (endCatch_code L (List.length cb) fill).
Proof.
  unfold cb', start. rewrite <- Nat.add_assoc. apply skipn_app_plus.
Qed.

Lemma endCatch_entry_code :
  skipn (7 + List.length fill) (endCatch_code L (List.length cb) fill)
  = let udrspo := BaseDisp rvmtl (unwinderDebuggerReturnSPOff L) in
    [ I (cmpqim 0 udrspo);
      I (jcci CC_NE (List.length cb));
      I (copy rvmfp (rarg 0));
      I (call (Host tc_unwind_resume));
      I (copy r4 rvmfp);
      I (testq r3 r3);
      I (jcci CC_Z (List.length cb + 3));
      I (jmpr r3) ].
Proof.
  unfold endCatch_code. cbn [Nat.add skipn app].
  rewrite skipn_app, skipn_all, Nat.sub_diag. reflexivity.
Qed.

Lemma debuggerReturn_code :
  skipn (List.length cb) cb' = endCatch_code L (List.length cb) fill.
Proof. unfold cb'. apply skipn_frontier. Qed.

Lemma resumeCPPUnwind_code :
  skipn (List.length cb + 3) cb'
  = skipn 3 (endCatch_code L (List.length cb) fill).
Proof. unfold cb'. apply skipn_app_plus. Qed.

Lemma flag_test s :
  cond CC_NE
    (cr0 (step_simple
            (cmpqim 0 (BaseDisp rvmtl (unwinderDebuggerReturnSPOff L))) s))
  = negb (debugger_return_flag L s =? 0).
Proof.
  unfold debugger_return_flag, debugger_return_addr.
  cbn [cond step_simple cr0 set_cr0 cr_eq compare ea].
  change (signed 64 0) with 0. f_equal. apply signed64_eq_0.
  pose proof (load_bytes_range 8 (mem s)
                (wrap64 (get s rvmtl + unwinderDebuggerReturnSPOff L))) as H.
  change (256 ^ Z.of_nat 8) with (2 ^ 64) in H. exact H.
Qed.

Lemma exec_endCatch s extra :
  run host cb' (10 + extra) start s = endCatch_result L host s.
Proof.
  unfold run, endCatch_result. rewrite endCatch_entry, endCatch_entry_code.
  cbn zeta. cbn [Nat.add].
  rewrite exec_simple by reflexivity.
  pose proof (flag_test s) as Hflag.
  destruct (debugger_return_flag L s =? 0); cbn [negb] in Hflag.
  - rewrite exec_jcci_not_taken by exact Hflag.
    rewrite exec_simple by reflexivity.
    fold (at_resume_call L s).
    rewrite exec_call_host. cbn [noreturn app].
    fold (after_resume_call L host s).
    rewrite !exec_simple by reflexivity.
    set (s1 := after_resume_call L host s).
    set (s2 := step_simple (testq r3 r3) (step_simple (copy r4 rvmfp) s1)).
    assert (Hz : cond CC_Z (cr0 s2) = catch_trace_is_null s1).
    { unfold s2, catch_trace_is_null.
      cbn [cond step_simple cr0 set_cr0 cr_eq compare setr get regs reg_eqb
           r3 r4].
      now rewrite Z.land_diag. }
    destruct (catch_trace_is_null s1).
    + rewrite exec_jcci_taken; [ | exact Hz | pose proof cb'_length; lia ].
      rewrite resumeCPPUnwind_code. unfold endCatch_code.
      cbn [skipn app]. rewrite !exec_simple by reflexivity.
      rewrite exec_call_host. cbn [noreturn].
      reflexivity.
    + rewrite exec_jcci_not_taken by exact Hz. reflexivity.
  - rewrite exec_jcci_taken; [ | exact Hflag | pose proof cb'_length; lia ].
    rewrite debuggerReturn_code. unfold endCatch_code. cbn [app].
    rewrite !exec_simple by reflexivity. reflexivity.
Qed.

End EndCatchRun.

(** C1.  Entered with the debugger-return offset set, the end-catch stub
    puts the saved value into the VM stack pointer, clears the offset and
    ends in the post-debugger-return service request, without calling
    [tc_unwind_resume].  Otherwise it calls [tc_unwind_resume] once, with the
    frame pointer as first argument, and what follows depends only on the
    catch trace returned in r3: when it is null the stub calls
    [_Unwind_Resume]; when it is not, the stub jumps to it with the frame
    pointer returned in r4.  In every case exactly one of the service request
    and the call to [tc_unwind_resume] happens. *)
Theorem endCatchHelper_one_host_call :
  forall (L : Layout) (host : HostFn -> State -> State) (cb : CodeBlock)
         (us : UniqueStubs) (s : State) (extra : nat),
    let '(cb', us', start) := emitEndCatchHelper L cb us in
    let r := run host cb' (10 + extra) start s in
    let resume := EvCall tc_unwind_resume (wrap64 (get s rvmfp))
                         (get s (rarg 1)) in
    (if debugger_return_flag L s =? 0 then
       let s1 := after_resume_call L host s in
       if catch_trace_is_null s1 then
         exit r = ExitNoReturn Unwind_Resume /\
         events r = [resume; ev_call Unwind_Resume (at_unwind_resume L s1)]
       else
         exit r = ExitJump (get s1 r3) /\
         get (final r) rvmfp = wrap64 (get s1 r4) /\
         events r = [resume]
     else
       exit r = ExitServiceRequest (REQ_POST_DEBUGGER_RET L) /\
       events r = [EvServiceRequest (REQ_POST_DEBUGGER_RET L)] /\
       get (final r) rvmsp = debugger_return_flag L s /\
       debugger_return_flag L (final r) = 0) /\
    (count_events is_resume_call (events r)
     + count_events is_service_request (events r) = 1)%nat.
Proof.
  intros L host cb us s extra.
  destruct (endCatch_layout L cb us) as [fill E]. rewrite E. clear E.
  rewrite exec_endCatch. unfold endCatch_result.
  destruct (debugger_return_flag L s =? 0).
  - destruct (catch_trace_is_null (after_resume_call L host s)).
    + repeat split.
    + repeat split.
  - repeat split.
    + unfold debugger_return_flag, debugger_return_addr.
      cbn [final step_simple set_cr0 set_mem setr get regs reg_eqb mem ea].
      apply wrap64_load64.
    + unfold debugger_return_flag, debugger_return_addr.
      cbn [final step_simple set_cr0 set_mem setr get regs reg_eqb mem ea].
      unfold store64, load64. rewrite load_store_bytes. reflexivity.
Qed.

(** Three runs of the stub on a sample thread: with the offset set, with a
    catch trace returned, and with none. *)
Example endCatchHelper_sample_runs :
  let '(cb, us, start) :=
    emitEndCatchHelper Samples.sample_layout [] Samples.no_stubs in
  let debugger := run (Samples.resuming_host 7777 4100) cb 10 start
                    (Samples.unwinding 64) in
  let caught := run (Samples.resuming_host 7777 4100) cb 10 start
                  (Samples.unwinding 0) in
  let uncaught := run (Samples.resuming_host 0 4100) cb 10 start
                    (Samples.unwinding 0) in
  (exit debugger = ExitServiceRequest 5 /\
   get (final debugger) rvmsp = 64 /\
   events debugger = [EvServiceRequest 5]) /\
  (exit caught = ExitJump 7777 /\
   get (final caught) rvmfp = 4100 /\
   events caught = [EvCall tc_unwind_resume 4000 0]) /\
  (exit uncaught = ExitNoReturn Unwind_Resume /\
   events uncaught = [EvCall tc_unwind_resume 4000 0;
                      EvCall Unwind_Resume 0 4100]).
Proof. vm_compute. repeat split. Qed.

(** *** The size check of the free-locals helpers *)

(** C9 as stated fails.  In a build without [PPC64_PERFORMANCE] the helpers
    of the sample layout are emitted (the emitter returns) although they take
    516 bytes from the release routine to the frontier, four bytes more than
    four cache lines of 128 bytes. *)
Lemma helpers_emitted_over_budget :
  let '(cb', us', release) :=
    emitFreeLocalsHelpers_code Samples.sample_layout [] Samples.no_stubs in
  emitFreeLocalsHelpers Samples.sample_layout [] Samples.no_stubs
  = Returned (cb', us', release) /\
  code_bytes Samples.sample_layout (skipn release cb') = 516 /\
  4 * cache_line_size Samples.sample_layout = 512.
Proof. vm_compute. repeat split. Qed.

(** C9, amended.  The size from the release routine to the frontier is
    checked against four cache lines by a fatal assertion exactly when the
    build defines [PPC64_PERFORMANCE] and statistics are not enabled: then
    emission aborts if the helpers exceed the budget and otherwise returns
    them.  Without [PPC64_PERFORMANCE], or with statistics enabled, the
    emitter returns the helpers whatever their size. *)
Theorem freeLocalsHelpers_size_check :
  forall (L : Layout) (cb : CodeBlock) (us : UniqueStubs),
    let '(cb', us', release) := emitFreeLocalsHelpers_code L cb us in
    emitFreeLocalsHelpers L cb us
    = if PPC64_PERFORMANCE L && negb (Stats_enabled L)
         && (4 * cache_line_size L <? code_bytes L (skipn release cb'))
      then Aborted "assertion failed"
      else Returned (cb', us', release).
Proof.
  intros L cb us. unfold emitFreeLocalsHelpers.
  destruct (emitFreeLocalsHelpers_code L cb us) as [[cb' us'] release].
  destruct (PPC64_PERFORMANCE L); [|reflexivity].
  destruct (Stats_enabled L); [reflexivity|].
  cbn [andb negb orb]. rewrite Z.leb_antisym.
  destruct (4 * cache_line_size L <? code_bytes L (skipn release cb'));
    reflexivity.
Qed.

End UniqueStubsFacts.


(** ** The function-enter helper *)

Module PPC64AsmFacts.
Import Machine Vasm PPC64Asm MachineFacts.

Lemma functionEnter_layout code_base alignment cb0 :
  emitFunctionEnterHelper code_base alignment cb0
  = (alignJmpTarget code_base alignment cb0
       ++ functionEnter_code
            (List.length (alignJmpTarget code_base alignment cb0)),
     List.length (alignJmpTarget code_base alignment cb0),
     (List.length (alignJmpTarget code_base alignment cb0) + 4)%nat).
Proof.
  unfold emitFunctionEnterHelper, functionEnter_code.
  cbn [List.length functionEnter_prologue functionEnter_taken].
  set (n := List.length (alignJmpTarget code_base alignment cb0)).
  replace (n + 4 + 2 + 5)%nat with (n + 11)%nat by lia. reflexivity.
Qed.

Section Run.

Variable host : HostFn -> State -> State.
Variable host_addr : HostFn -> Z.
Variable code_base : Z.
Variable cb : list Instr.

Let code := cb ++ functionEnter_code (List.length cb).

Lemma fetch k :
  nth_error code (List.length cb + k) = nth_error (functionEnter_code
                                                    (List.length cb)) k.
Proof.
  unfold code. rewrite nth_error_app2 by lia. f_equal. lia.
Qed.

Lemma exec_fetch f pc s t :
  exec host host_addr code_base code (S f) pc s t
  = match nth_error code pc with
    | None => mkRun ExitFallthrough s t
    | Some (fill _) => mkRun ExitTrap s t
    | Some (bcctr bc) =>
        if branch_taken bc (cr0 s) then mkRun (ExitJump (ctr s)) s t
        else exec host host_addr code_base code f (S pc) s t
    | Some (branchAuto target bc lk) =>
        if branch_taken bc (cr0 s) then
          let s1 := match lk with
                    | Save => set_lr s (addr_of code_base code (S pc))
                    | DoNotTouch => s
                    end in
          match target with
          | ToLabel l =>
              exec host host_addr code_base code f l
                (set_ctr s1 (addr_of code_base code l)) t
          | ToHost h =>
              let s2 := set_ctr s1 (host_addr h) in
              let t' := t ++ [ev_call h s2] in
              match lk with
              | Save => exec host host_addr code_base code f (S pc)
                          (host h s2) t'
              | DoNotTouch => mkRun (ExitNoReturn h) (host h s2) t'
              end
          end
        else exec host host_addr code_base code f (S pc) s t
    | Some i => exec host host_addr code_base code f (S pc)
                  (step_simple i s) t
    end.
Proof. reflexivity. Qed.

(** One instruction of the stub: fetch it at offset [k] and move on. *)
Ltac stub_step k :=
  rewrite exec_fetch, fetch;
  cbn [nth_error functionEnter_code functionEnter_prologue
       functionEnter_taken functionEnter_label app branch_taken];
  try replace (S (List.length cb + k)) with (List.length cb + S k)%nat by lia.

Lemma exec_functionEnter s extra :
  exec host host_addr code_base code (13 + extra) (List.length cb) s []
  = functionEnter_result host host_addr
      (addr_of code_base code (List.length cb + 4))
      (addr_of code_base code (List.length cb + 11)) s.
Proof.
  unfold functionEnter_result.
  replace (List.length cb) with (List.length cb + 0)%nat at 1 by lia.
  cbn [Nat.add].
  stub_step 0%nat. stub_step 1%nat. stub_step 2%nat. stub_step 3%nat.
  cbn zeta. cbn [app].
  fold (at_hook_call host_addr
          (addr_of code_base code (List.length cb + 4)) s).
  fold (after_hook host host_addr
          (addr_of code_base code (List.length cb + 4)) s).
  set (s4 := after_hook host host_addr
               (addr_of code_base code (List.length cb + 4)) s).
  stub_step 4%nat. stub_step 5%nat.
  cbn [step_simple cr0 set_cr0 cr_eq compare].
  destruct (signed 64 (get s4 rret) =? 0).
  - stub_step 11%nat. stub_step 12%nat. stub_step 13%nat. reflexivity.
  - stub_step 6%nat. stub_step 7%nat. stub_step 8%nat. stub_step 9%nat.
    stub_step 10%nat. reflexivity.
Qed.

End Run.

Lemma wrap64_add_l x y : wrap64 (wrap64 x + y) = wrap64 (x + y).
Proof. unfold wrap64, wrap. apply Zplus_mod_idemp_l. Qed.

(** C5 does not hold of the code.  The helper calls the hook once, with
    the argument registers as they were on entry, after saving the link
    register at 16(sp) and opening an 80-byte frame with [stdu].  But both
    paths pop the frame twice, once through the back chain and once by
    adding 80: with any hook that keeps the stack pointer and the back chain,
    the helper ends with the stack pointer 80 bytes above where it was on
    entry.  The path taken on a nonzero result then reloads the return
    address from 16 bytes above that, that is from 96(sp) and not from the
    slot at 16(sp) where it was saved, and branches there; the path taken on
    zero reloads nothing and falls out of the stub. *)
Theorem functionEnterHelper_over_restores_stack :
  forall (host : HostFn -> State -> State) (host_addr : HostFn -> Z)
         (code_base alignment : Z) (cb0 : list Instr) (s : State)
         (extra : nat),
    let '(code, start, helperReturn) :=
      emitFunctionEnterHelper code_base alignment cb0 in
    let r := exec host host_addr code_base code (13 + extra) start s [] in
    let s4 := after_hook host host_addr
                (addr_of code_base code helperReturn) s in
    0 <= get s rsp < 2 ^ 64 ->
    hook_keeps_frame host host_addr (addr_of code_base code helperReturn) s ->
    events r = [EvCall onFunctionCall (get s (rarg 0)) (get s (rarg 1))] /\
    load64 (mem (at_hook_call host_addr
                   (addr_of code_base code helperReturn) s))
           (wrap64 (get s rsp + 16)) = wrap64 (lr s) /\
    get (final r) rsp = wrap64 (get s rsp + 80) /\
    exit r = (if signed 64 (get s4 rret) =? 0 then ExitFallthrough
              else ExitJump (load64 (mem s4) (wrap64 (get s rsp + 96)))).
Proof.
  intros host host_addr code_base alignment cb0 s extra.
  rewrite functionEnter_layout. cbv beta iota zeta.
  set (cb := alignJmpTarget code_base alignment cb0).
  intros Hsp [Hkeep_sp Hkeep_chain].
  rewrite exec_functionEnter. unfold functionEnter_result.
  set (hr := addr_of code_base (cb ++ functionEnter_code (List.length cb))
               (List.length cb + 4)) in *.
  set (s4 := after_hook host host_addr hr s) in *.
  assert (Hsp3 : get (at_hook_call host_addr hr s) rsp
                 = wrap64 (get s rsp + -80)).
  { unfold at_hook_call.
    cbn [step_simple set_ctr set_lr set_mem setr get regs reg_eqb].
    apply wrap64_idem. }
  assert (Hchain : load64 (mem (at_hook_call host_addr hr s))
                     (wrap64 (get s rsp + -80)) = get s rsp).
  { unfold at_hook_call.
    cbn [step_simple set_ctr set_lr set_mem setr get regs reg_eqb mem].
    unfold load64, store64. rewrite load_store_bytes.
    change (256 ^ Z.of_nat 8) with (2 ^ 64). apply Z.mod_small. exact Hsp. }
  assert (Hsaved : load64 (mem (at_hook_call host_addr hr s))
                     (wrap64 (get s rsp + 16)) = wrap64 (lr s)).
  { unfold at_hook_call.
    cbn [step_simple set_ctr set_lr set_mem setr get regs reg_eqb mem].
    unfold load64, store64. rewrite load_store_other.
    - rewrite load_store_bytes. change (256 ^ Z.of_nat 8) with (2 ^ 64).
      unfold wrap64, wrap. apply Z.mod_mod. lia.
    - simpl Z.of_nat. unfold wrap64, wrap, get in *.
      assert (H64 : 2 ^ 64 = 18446744073709551616) by reflexivity.
      destruct (Z_lt_le_dec (regs s rsp) 80) as [Hlow|Hhigh].
      + left. rewrite (Z.mod_small (regs s rsp + 16)) by lia.
        replace ((regs s rsp + -80) mod 2 ^ 64)
          with (regs s rsp - 80 + 2 ^ 64); [lia|].
        apply Z.mod_unique with (q := -1); lia.
      + rewrite (Z.mod_small (regs s rsp + -80)) by lia.
        destruct (Z_lt_le_dec (regs s rsp + 16) (2 ^ 64)) as [Hin|Hout].
        * right. rewrite Z.mod_small by lia. lia.
        * left. replace ((regs s rsp + 16) mod 2 ^ 64)
            with (regs s rsp + 16 - 2 ^ 64); [lia|].
          apply Z.mod_unique with (q := 1); lia. }
  assert (Hpop : forall x, get x rsp = get s4 rsp -> mem x = mem s4 ->
                           get (pop_frame x) rsp = wrap64 (get s rsp + 80)).
  { intros x Hx Hm. unfold pop_frame.
    cbn [step_simple setr get regs reg_eqb mem].
    fold (get x rsp). rewrite Hx, Hm, Hkeep_sp, Hsp3.
    rewrite Z.add_0_r, wrap64_idem.
    rewrite Hsp3 in Hkeep_chain. rewrite Hkeep_chain, Hchain.
    unfold wrap64 at 2, wrap. rewrite Z.mod_small by exact Hsp.
    reflexivity. }
  repeat split.
  - destruct (signed 64 (get s4 rret) =? 0); reflexivity.
  - exact Hsaved.
  - destruct (signed 64 (get s4 rret) =? 0); cbn [final].
    + apply Hpop; reflexivity.
    + cbn [step_simple set_ctr setr get regs reg_eqb].
      apply Hpop; reflexivity.
  - destruct (signed 64 (get s4 rret) =? 0); cbn [exit]; [reflexivity|].
    f_equal.
    cbn [step_simple set_ctr ctr setr get regs reg_eqb mem].
    assert (H := Hpop (step_simple (cmpdi rret 0) s4) eq_refl eq_refl).
    cbn [step_simple] in H. rewrite H. rewrite wrap64_add_l.
    replace (get s rsp + 80 + 16) with (get s rsp + 96) by lia.
    change (mem (pop_frame (set_cr0 s4
              (compare (signed 64 (get s4 rret)) 0)))) with (mem s4).
    rewrite wrap64_load64. apply wrap64_load64.
Qed.

(** The sample call: entered with the stack pointer at 8000 and the return
    address 4660, the helper ends with the stack pointer at 8080; when the
    hook returns 1 it branches to the word found at 8096, which is 0, while
    the return address it saved sits at 8016. *)
Example functionEnterHelper_sample_run :
  let '(code, start, helperReturn) := emitFunctionEnterHelper 0 16 [] in
  let r1 := exec (Samples.hook_returning 1) Samples.host_at 0 code 13 start
              Samples.helper_entry [] in
  let r0 := exec (Samples.hook_returning 0) Samples.host_at 0 code 13 start
              Samples.helper_entry [] in
  get Samples.helper_entry rsp = 8000 /\
  lr Samples.helper_entry = 4660 /\
  exit r1 = ExitJump 0 /\
  get (final r1) rsp = 8080 /\
  load64 (mem (final r1)) 8016 = 4660 /\
  exit r0 = ExitFallthrough /\
  get (final r0) rsp = 8080.
Proof. vm_compute. repeat split. Qed.

Lemma functionEnterHelper_witness :
  0 <= get Samples.helper_entry rsp < 2 ^ 64 /\
  (let '(code, start, helperReturn) := emitFunctionEnterHelper 0 16 [] in
   hook_keeps_frame (Samples.hook_returning 1) Samples.host_at
     (addr_of 0 code helperReturn) Samples.helper_entry) /\
  (let '(code, start, helperReturn) := emitFunctionEnterHelper 0 16 [] in
   let r := exec (Samples.hook_returning 1) Samples.host_at 0 code (13 + 0)
              start Samples.helper_entry [] in
   let s4 := after_hook (Samples.hook_returning 1) Samples.host_at
               (addr_of 0 code helperReturn) Samples.helper_entry in
   events r = [EvCall onFunctionCall (get Samples.helper_entry (rarg 0))
                      (get Samples.helper_entry (rarg 1))] /\
   load64 (mem (at_hook_call Samples.host_at
                  (addr_of 0 code helperReturn) Samples.helper_entry))
          (wrap64 (get Samples.helper_entry rsp + 16))
   = wrap64 (lr Samples.helper_entry) /\
   get (final r) rsp = wrap64 (get Samples.helper_entry rsp + 80) /\
   exit r = (if signed 64 (get s4 rret) =? 0 then ExitFallthrough
             else ExitJump (load64 (mem s4)
                              (wrap64 (get Samples.helper_entry rsp + 96))))).
Proof.
  assert (H1 : 0 <= get Samples.helper_entry rsp < 2 ^ 64)
    by (change (0 <= 8000 < 2 ^ 64); lia).
  assert (H2 : let '(code, start, helperReturn) :=
                 emitFunctionEnterHelper 0 16 [] in
               hook_keeps_frame (Samples.hook_returning 1) Samples.host_at
                 (addr_of 0 code helperReturn) Samples.helper_entry)
    by (vm_compute; split; reflexivity).
  split; [exact H1|]. split; [exact H2|].
  exact (functionEnterHelper_over_restores_stack
           (Samples.hook_returning 1) Samples.host_at 0 16 []
           Samples.helper_entry 0 H1 H2).
Defined.

End PPC64AsmFacts.

(** ** What the stubs promise their callers *)

Module StubContractsFacts.
Import Machine Vasm UniqueStubs StubContracts MachineFacts VasmFacts
       UniqueStubsFacts.

Lemma wrap64_small x : 0 <= x < 2 ^ 64 -> wrap64 x = x.
Proof. intros H. unfold wrap64, wrap. apply Z.mod_small. exact H. Qed.

Lemma wrap64_sub_add x : wrap64 (wrap64 (x - 8) + 8) = wrap64 x.
Proof.
  unfold wrap64, wrap. rewrite Zplus_mod_idemp_l. f_equal. lia.
Qed.

Lemma wrap64_plus_l x y : wrap64 (wrap64 x + y) = wrap64 (x + y).
Proof. unfold wrap64, wrap. apply Zplus_mod_idemp_l. Qed.

(** Two consecutive pushes write to disjoint double words. *)
Lemma pushed_words_disjoint a :
  0 <= a < 2 ^ 64 ->
  a + 8 <= wrap64 (a - 8) \/ wrap64 (a - 8) + 8 <= a.
Proof.
  intros Ha. unfold wrap64, wrap.
  assert (H64 : 2 ^ 64 = 18446744073709551616) by reflexivity.
  destruct (Z_lt_le_dec a 8) as [Hlow|Hhigh].
  - left. replace ((a - 8) mod 2 ^ 64) with (a - 8 + 2 ^ 64); [lia|].
    apply Z.mod_unique with (q := -1); lia.
  - right. rewrite Z.mod_small by lia. lia.
Qed.

(** The release routine gives back the registers its callers go on using.
    Entered with 64-bit values in [local], [last] and the stack pointer, and
    with a destructor that returns with the stack pointer where it was and
    leaves the two saved words alone, the routine returns with [local],
    [last] and the stack pointer as they were on entry, on every path: also
    when the destructor overwrites the registers themselves, because they
    are saved on the stack around the call. *)
Theorem release_keeps_live_registers :
  forall (L : Layout) (host : HostFn -> State -> State) (cb : CodeBlock)
         (s : State) (t : Trace) (extra : nat),
    0 <= get s local < 2 ^ 64 ->
    0 <= get s last < 2 ^ 64 ->
    0 <= get s rsp < 2 ^ 64 ->
    destructor_keeps_saved L host s ->
    let cb' := fst (emitDecRefHelper L cb local type [local; last]) in
    let release := snd (emitDecRefHelper L cb local type [local; last]) in
    let r := exec host cb' (12 + extra) (skipn release cb') s t in
    exit r = ExitReturn /\
    get (final r) local = get s local /\
    get (final r) last = get s last /\
    get (final r) rsp = get s rsp.
Proof.
  intros L host cb s t extra Hlocal Hlast Hsp [Hk_sp [Hk_last Hk_local]]
         cb' release r.
  assert (Hr : r = release_result L host s t).
  { subst r release cb'. unfold emitDecRefHelper, vwrap. cbn [fst snd].
    rewrite skipn_frontier.
    rewrite <- (app_nil_r (emitDecRefHelper_code _ _ _ _)).
    apply exec_release. }
  rewrite Hr. clear Hr r. unfold release_result.
  destruct (refcount_at (mem s) (refcount_addr L s) <? 1);
    [ repeat split | ].
  destruct (refcount_at (mem s) (refcount_addr L s) =? 1);
    [ | repeat split ].
  cbn [exit final]. split; [reflexivity|].
  unfold after_destructor.
  set (s1 := before_destructor L s) in *.
  set (s2 := host (destructor_of L s1) s1) in *.
  assert (Hsp1 : get s1 rsp = wrap64 (wrap64 (get s rsp - 8) - 8)).
  { unfold s1, before_destructor, after_compare.
    cbn [step_simple set_cr0 set_mem setr get regs reg_eqb rarg local last
         Nat.add Nat.eqb].
    now rewrite !wrap64_idem. }
  assert (Hmem1 : mem s1
                  = store64 (store64 (mem s) (wrap64 (get s rsp - 8))
                               (get s local))
                      (wrap64 (wrap64 (get s rsp - 8) - 8)) (get s last)).
  { unfold s1, before_destructor, after_compare.
    cbn [step_simple set_cr0 set_mem setr get regs reg_eqb rarg local last
         Nat.add Nat.eqb mem].
    now rewrite !wrap64_idem. }
  assert (Hup : wrap64 (get s1 rsp + 8) = wrap64 (get s rsp - 8)).
  { rewrite Hsp1, wrap64_sub_add. apply wrap64_idem. }
  assert (Hlast1 : load64 (mem s1) (get s1 rsp) = get s last).
  { rewrite Hmem1, Hsp1. unfold load64, store64. rewrite load_store_bytes.
    change (256 ^ Z.of_nat 8) with (2 ^ 64). now apply Z.mod_small. }
  assert (Hlocal1 : load64 (mem s1) (wrap64 (get s1 rsp + 8)) = get s local).
  { rewrite Hup, Hmem1. unfold load64, store64.
    rewrite load_store_other.
    - rewrite load_store_bytes. change (256 ^ Z.of_nat 8) with (2 ^ 64).
      now apply Z.mod_small.
    - simpl Z.of_nat. apply pushed_words_disjoint. apply wrap64_range. }
  cbn [step_simple setr get regs reg_eqb local last rarg Nat.add Nat.eqb mem].
  fold (get s2 rsp). rewrite Hk_sp, Hk_last, Hk_local, Hlast1, Hlocal1.
  repeat split.
  - now apply wrap64_small.
  - now apply wrap64_small.
  - rewrite wrap64_plus_l, Hsp1, <- Z.add_assoc, wrap64_plus_l.
    replace (wrap64 (get s rsp - 8) - 8 + (8 + 8))
      with (wrap64 (get s rsp - 8) + 8) by lia.
    rewrite wrap64_sub_add. now apply wrap64_small.
Qed.

Lemma release_keeps_live_registers_witness :
  0 <= get (Samples.value_frame 20 1 0) local < 2 ^ 64 /\
  0 <= get (Samples.value_frame 20 1 0) last < 2 ^ 64 /\
  0 <= get (Samples.value_frame 20 1 0) rsp < 2 ^ 64 /\
  destructor_keeps_saved Samples.sample_layout clobbering_host
    (Samples.value_frame 20 1 0) /\
  let cb' := fst (emitDecRefHelper Samples.sample_layout []
                    local type [local; last]) in
  let release := snd (emitDecRefHelper Samples.sample_layout []
                        local type [local; last]) in
  let r := exec clobbering_host cb' (12 + 0) (skipn release cb')
             (Samples.value_frame 20 1 0) [] in
  exit r = ExitReturn /\
  get (final r) local = get (Samples.value_frame 20 1 0) local /\
  get (final r) last = get (Samples.value_frame 20 1 0) last /\
  get (final r) rsp = get (Samples.value_frame 20 1 0) rsp.
Proof.
  assert (H1 : 0 <= get (Samples.value_frame 20 1 0) local < 2 ^ 64)
    by (change (0 <= 1000 < 2 ^ 64); lia).
  assert (H2 : 0 <= get (Samples.value_frame 20 1 0) last < 2 ^ 64)
    by (change (0 <= 0 < 2 ^ 64); lia).
  assert (H3 : 0 <= get (Samples.value_frame 20 1 0) rsp < 2 ^ 64)
    by (change (0 <= 8000 < 2 ^ 64); lia).
  assert (H4 : destructor_keeps_saved Samples.sample_layout clobbering_host
                 (Samples.value_frame 20 1 0))
    by (vm_compute; repeat split).
  split; [exact H1|]. split; [exact H2|]. split; [exact H3|].
  split; [exact H4|].
  exact (release_keeps_live_registers Samples.sample_layout clobbering_host
           [] (Samples.value_frame 20 1 0) [] 0 H1 H2 H3 H4).
Defined.

(** On the sample frame the destructor of strings is called and returns
    with [local] and [last] zeroed; the routine hands 1000 and 0 back. *)
Example release_sample_restores_registers :
  let cb := fst (emitDecRefHelper Samples.sample_layout []
                   local type [local; last]) in
  let r := run clobbering_host cb 12 0 (Samples.value_frame 20 1 0) in
  events r = [EvCall (destructor 1) 2000 1000; EvSyncpoint 3] /\
  get (clobbering_host (destructor 1) (Samples.value_frame 20 1 0)) local = 0 /\
  get (final r) local = 1000 /\
  get (final r) rsp = 8000.
Proof. vm_compute. repeat split. Qed.


(** *** Frames without refcounted locals *)

Section PlainFrames.

Variable L : Layout.
Variable host : HostFn -> State -> State.

(** Whether a slot is refcounted depends on memory and on the slot
    pointer only. *)
Lemma refcounted_type_ext s s' :
  mem s = mem s' -> get s local = get s' local ->
  refcounted_type L s = refcounted_type L s'.
Proof. intros Hm Hl. unfold refcounted_type. now rewrite Hm, Hl. Qed.

Lemma no_refcounted_slot_ext k : forall s s',
  mem s = mem s' -> get s local = get s' local ->
  no_refcounted_slot L k s = no_refcounted_slot L k s'.
Proof.
  induction k as [|k IH]; intros s s' Hm Hl; [reflexivity|].
  cbn [no_refcounted_slot].
  rewrite (refcounted_type_ext s s' Hm Hl). f_equal.
  apply IH.
  - exact Hm.
  - unfold advance, get, local, rarg in *.
    cbn [step_simple set_cr0 setr get regs reg_eqb Nat.add Nat.eqb] in *.
    unfold get in *. now rewrite Hl.
Qed.

Lemma plain_slots_effects k : forall s t,
  no_refcounted_slot L k s = true ->
  effects (release_refcounted_locals L host k s t) = (mem s, t).
Proof.
  unfold release_refcounted_locals.
  induction k as [|k IH]; intros s t H; [reflexivity|].
  cbn [no_refcounted_slot] in H. apply andb_prop in H. destruct H as [Hty Hk].
  apply negb_true_iff in Hty.
  cbn [each_local]. unfold release_local_if_refcounted. rewrite Hty.
  rewrite IH; [reflexivity|].
  rewrite <- Hk. apply no_refcounted_slot_ext; reflexivity.
Qed.

End PlainFrames.

(** Entered at its [k]-th unrolled entry on a frame whose [k] slots all
    have a type tag that is not refcounted, the helper returns without
    writing to memory and without calling anything. *)
Theorem plain_frame_left_untouched :
  forall (L : Layout) (host : HostFn -> State -> State) (cb : CodeBlock)
         (us : UniqueStubs) (s : State) (k extra : nat),
    (1 <= k <= kNumFreeLocalsHelpers L)%nat ->
    no_refcounted_slot L k s = true ->
    let '(cb', us', release) := emitFreeLocalsHelpers_code L cb us in
    let r := run host cb' (4 * k + 16 + extra)
               (freeLocalsHelpers us' (k - 1)) s in
    exit r = ExitReturn /\ mem (final r) = mem s /\ events r = [].
Proof.
  intros L host cb us s k extra Hk Hplain.
  destruct (freeLocals_entries L cb us)
    as [cb' [us' [release [rest [E [Hlt [Hrel [Hmany [Hentry Hlast]]]]]]]]].
  rewrite E. clear E. unfold run.
  rewrite (Hentry (k - 1)%nat) by lia.
  destruct (exec_unrolled L host cb' release rest Hlt Hrel (k - 1)%nat
              (4 * k + 16 + extra)%nat s []) as [Hexit Heff]; [lia|].
  replace (S (k - 1)) with k in * by lia.
  rewrite plain_slots_effects in Heff by exact Hplain.
  split; [exact Hexit|].
  unfold run_effects in Heff.
  split; [exact (f_equal fst Heff) | exact (f_equal snd Heff)].
Qed.

Lemma plain_frame_witness :
  (1 <= 2 <= kNumFreeLocalsHelpers Samples.sample_layout)%nat /\
  no_refcounted_slot Samples.sample_layout 2 Samples.int_frame = true /\
  let '(cb', us', release) :=
    emitFreeLocalsHelpers_code Samples.sample_layout [] Samples.no_stubs in
  let r := run Samples.quiet_host cb' (4 * 2 + 16 + 0)
             (freeLocalsHelpers us' (2 - 1)) Samples.int_frame in
  exit r = ExitReturn /\ mem (final r) = mem Samples.int_frame /\
  events r = [].
Proof.
  assert (H1 : (1 <= 2 <= kNumFreeLocalsHelpers Samples.sample_layout)%nat)
    by (cbn; lia).
  assert (H2 : no_refcounted_slot Samples.sample_layout 2 Samples.int_frame
               = true) by (vm_compute; reflexivity).
  split; [exact H1|]. split; [exact H2|].
  exact (plain_frame_left_untouched Samples.sample_layout Samples.quiet_host
           [] Samples.no_stubs Samples.int_frame 2 0 H1 H2).
Defined.

(** *** The looping entry on a frame without refcounted locals *)

Lemma signed64_eqb x y :
  0 <= x < 2 ^ 64 -> 0 <= y < 2 ^ 64 ->
  (signed 64 x =? signed 64 y) = (x =? y).
Proof.
  intros Hx Hy. unfold signed, wrap. rewrite !Z.mod_small by lia.
  change (2 ^ (64 - 1)) with (2 ^ 63).
  assert (H64 : 2 ^ 64 = 2 * 2 ^ 63) by reflexivity.
  destruct (Z.ltb_spec x (2 ^ 63)), (Z.ltb_spec y (2 ^ 63));
    destruct (Z.eqb_spec x y);
    try match goal with
        | |- (?a =? ?b) = _ => destruct (Z.eqb_spec a b)
        end;
    lia || reflexivity.
Qed.

Section PlainLoop.

Variable L : Layout.
Variable host : HostFn -> State -> State.

Hypothesis slot_size : 0 < sizeof_TypedValue L.

(** With the pointer [n] slots below [last] and no slot refcounted, the
    loop runs [n] times. *)
Lemma plain_loop_exits n : forall s t,
  (1 <= n)%nat ->
  0 <= get s local ->
  get s local + Z.of_nat n * sizeof_TypedValue L = get s last ->
  get s last < 2 ^ 64 ->
  no_refcounted_slot L n s = true ->
  loop_exits_after L host n s t.
Proof.
  induction n as [|n IH]; intros s t Hn Hlo Hdist Hhi Hplain; [lia|].
  cbn [no_refcounted_slot] in Hplain. apply andb_prop in Hplain.
  destruct Hplain as [Hty Hrest]. apply negb_true_iff in Hty.
  cbn [loop_exits_after]. unfold loop_iteration, release_local_if_refcounted.
  rewrite Hty. cbn [fst snd].
  set (s1 := step_simple (cmpbi (KindOfRefCountThreshold L) type)
               (load_type L s)).
  set (s' := step_simple (cmpq local last) (advance L s1)).
  assert (Hlast' : get s' last = get s last) by reflexivity.
  assert (Hlocal' : get s' local
                    = wrap64 (get s local + sizeof_TypedValue L)).
  { unfold s', s1, advance, load_type, get, local, last, type, rarg.
    cbn [step_simple set_cr0 setr get regs reg_eqb Nat.add Nat.eqb].
    apply wrap64_idem. }
  assert (Hcc : cond CC_NZ (cr0 s')
                = negb (get s last
                        =? wrap64 (get s local + sizeof_TypedValue L))).
  { rewrite <- Hlocal', <- Hlast'.
    rewrite <- (signed64_eqb (get s' last) (get s' local)).
    - reflexivity.
    - rewrite Hlast'. nia.
    - rewrite Hlocal'. apply wrap64_range. }
  rewrite Hcc.
  assert (Hmem' : mem s' = mem s) by reflexivity.
  destruct n as [|n].
  - replace (get s local + sizeof_TypedValue L) with (get s last) by lia.
    rewrite wrap64_small by nia. now rewrite Z.eqb_refl.
  - assert (Hstep : wrap64 (get s local + sizeof_TypedValue L)
                    = get s local + sizeof_TypedValue L)
      by (apply wrap64_small; nia).
    rewrite Hstep.
    destruct (Z.eqb_spec (get s last) (get s local + sizeof_TypedValue L))
      as [Heq|Hne]; [nia|].
    cbn [negb]. apply IH.
    + lia.
    + rewrite Hlocal', Hstep. lia.
    + rewrite Hlocal', Hstep, Hlast'. nia.
    + rewrite Hlast'. exact Hhi.
    + rewrite <- Hrest. apply no_refcounted_slot_ext.
      * exact Hmem'.
      * reflexivity.
Qed.

End PlainLoop.

Section LoopRun.

Variable L : Layout.
Variable host : HostFn -> State -> State.
Variable cbf : list Vcode.
Variable release : nat.
Variable after_release : list Vcode.

Hypothesis release_in_block : (release < List.length cbf)%nat.
Hypothesis release_code :
  skipn release cbf
  = emitDecRefHelper_code L local type [local; last] ++ after_release.

(** The loop, round by round, down to the state in which it is left. *)
Lemma exec_loop_rounds n : forall f rest s t,
  (n + 23 <= f)%nat ->
  loop_exits_after L host n s t ->
  exec host cbf f
    (doWhile CC_NZ
       (decref_local L release ++ next_local L ++ [I (cmpq local last)])
     :: rest) s t
  = exec host cbf (f - n) rest (fst (loop_rounds L host n s t))
      (snd (loop_rounds L host n s t)).
Proof.
  induction n as [|n IH]; intros f rest s t Hf Hexit; [contradiction|].
  cbn [loop_exits_after] in Hexit.
  destruct f as [|f]; [lia|].
  erewrite exec_doWhile;
    [ | apply (exec_loop_body L host cbf release after_release
                 release_in_block release_code); lia ].
  cbn [exit final events loop_rounds].
  destruct (cond CC_NZ (cr0 (fst (loop_iteration L host s t)))).
  - rewrite IH by (lia || exact Hexit). f_equal.
  - subst n. cbn [loop_rounds]. f_equal. lia.
Qed.

(** The unrolled entries down to the shared [ret], with the state in which
    the helper returns. *)
Lemma exec_unrolled_slots i : forall f s t,
  (4 * i + 20 <= f)%nat ->
  exec host cbf f (unrolled_code L release (S i) ++ [I ret]) s t
  = mkRun ExitReturn (fst (unrolled_slots L host i s t))
          (snd (unrolled_slots L host i s t)).
Proof.
  induction i as [|j IH]; intros f s t Hf;
    rewrite (unrolled_code_S L release);
    rewrite <- !app_assoc;
    replace f with (3 + (f - 3))%nat by lia;
    rewrite (exec_decref_local L host cbf release after_release
               release_in_block release_code) by lia;
    cbn [unrolled_slots Nat.eqb app unrolled_code].
  - replace (f - 3)%nat with (S (f - 4)) by lia. apply exec_ret.
  - unfold next_local. cbn [app].
    replace (f - 3)%nat with (S (f - 4)) by lia.
    rewrite exec_simple by reflexivity.
    fold (advance L (fst (release_local_if_refcounted L host s t))).
    apply IH. lia.
Qed.

End LoopRun.

Section PlainStates.

Variable L : Layout.
Variable host : HostFn -> State -> State.

Lemma plain_release s t :
  refcounted_type L s = false ->
  release_local_if_refcounted L host s t
  = (step_simple (cmpbi (KindOfRefCountThreshold L) type) (load_type L s),
     t).
Proof.
  intros H. unfold release_local_if_refcounted. now rewrite H.
Qed.

Lemma no_refcounted_slot_S k s :
  no_refcounted_slot L (S k) s = true ->
  refcounted_type L s = false /\
  no_refcounted_slot L k (advance L s) = true.
Proof.
  intros H. change (negb (refcounted_type L s)
                    && no_refcounted_slot L k (advance L s) = true) in H.
  apply andb_prop in H. destruct H as [Hty Hrest].
  apply negb_true_iff in Hty. split; assumption.
Qed.

Lemma wrap64_step a b c :
  wrap64 a = wrap64 b -> wrap64 (a + c) = wrap64 (b + c).
Proof.
  intros H. rewrite <- (wrap64_plus_l a c), H. apply wrap64_plus_l.
Qed.

(** Rounds of the loop over slots that are not refcounted: nothing is
    written or called, and the pointer moves up one slot per round. *)
Lemma plain_loop_rounds n : forall k s t,
  no_refcounted_slot L (n + k) s = true ->
  snd (loop_rounds L host n s t) = t /\
  mem (fst (loop_rounds L host n s t)) = mem s /\
  no_refcounted_slot L k (fst (loop_rounds L host n s t)) = true /\
  wrap64 (get (fst (loop_rounds L host n s t)) local)
  = wrap64 (get s local + Z.of_nat n * sizeof_TypedValue L) /\
  ((1 <= n)%nat ->
   wrap64 (get (fst (loop_rounds L host n s t)) local)
   = get (fst (loop_rounds L host n s t)) local).
Proof.
  induction n as [|n IH]; intros k s t Hplain.
  - cbn [loop_rounds fst snd Nat.add] in *. repeat split.
    + exact Hplain.
    + f_equal. cbn. lia.
    + lia.
  - cbn [Nat.add] in Hplain.
    apply no_refcounted_slot_S in Hplain. destruct Hplain as [Hty Hrest].
    cbn [loop_rounds]. unfold loop_iteration.
    rewrite (plain_release s t Hty). cbn [fst snd].
    set (s1 := step_simple (cmpq local last)
                 (advance L
                    (step_simple (cmpbi (KindOfRefCountThreshold L) type)
                       (load_type L s)))).
    assert (Hmem1 : mem s1 = mem s) by reflexivity.
    assert (Hlocal1 : get s1 local = get (advance L s) local)
      by reflexivity.
    assert (Hadv : get (advance L s) local
                   = wrap64 (get s local + sizeof_TypedValue L)).
    { unfold advance, get, local, rarg.
      cbn [step_simple set_cr0 setr get regs reg_eqb Nat.add Nat.eqb].
      apply wrap64_idem. }
    assert (Hplain1 : no_refcounted_slot L (n + k) s1 = true).
    { rewrite <- Hrest. apply no_refcounted_slot_ext; assumption. }
    destruct (IH k s1 t Hplain1) as [Ht [Hm [Hk [Hl Hw]]]].
    repeat split.
    + exact Ht.
    + now rewrite Hm.
    + exact Hk.
    + rewrite Hl, Hlocal1, Hadv, wrap64_plus_l. f_equal. lia.
    + intros _. destruct n as [|n].
      * cbn [loop_rounds fst]. rewrite Hlocal1, Hadv. apply wrap64_idem.
      * apply Hw. lia.
Qed.

(** The unrolled entries over slots that are not refcounted. *)
Lemma plain_unrolled_slots i : forall s t,
  no_refcounted_slot L (S i) s = true ->
  snd (unrolled_slots L host i s t) = t /\
  mem (fst (unrolled_slots L host i s t)) = mem s /\
  wrap64 (get (fst (unrolled_slots L host i s t)) local)
  = wrap64 (get s local + Z.of_nat i * sizeof_TypedValue L) /\
  (wrap64 (get s local) = get s local ->
   wrap64 (get (fst (unrolled_slots L host i s t)) local)
   = get (fst (unrolled_slots L host i s t)) local).
Proof.
  induction i as [|i IH]; intros s t Hplain;
    apply no_refcounted_slot_S in Hplain; destruct Hplain as [Hty Hrest];
    cbn [unrolled_slots]; rewrite (plain_release s t Hty); cbn [fst snd].
  - repeat split.
    + f_equal. change (get (step_simple
                              (cmpbi (KindOfRefCountThreshold L) type)
                              (load_type L s)) local) with (get s local).
      cbn. lia.
    + intros Hw. exact Hw.
  - set (s1 := advance L
                 (step_simple (cmpbi (KindOfRefCountThreshold L) type)
                    (load_type L s))).
    assert (Hmem1 : mem s1 = mem s) by reflexivity.
    assert (Hlocal1 : get s1 local = get (advance L s) local)
      by reflexivity.
    assert (Hadv : get (advance L s) local
                   = wrap64 (get s local + sizeof_TypedValue L)).
    { unfold advance, get, local, rarg.
      cbn [step_simple set_cr0 setr get regs reg_eqb Nat.add Nat.eqb].
      apply wrap64_idem. }
    assert (Hplain1 : no_refcounted_slot L (S i) s1 = true).
    { rewrite <- Hrest. apply no_refcounted_slot_ext; assumption. }
    destruct (IH s1 t Hplain1) as [Ht [Hm [Hl Hw]]].
    repeat split.
    + exact Ht.
    + now rewrite Hm.
    + rewrite Hl, Hlocal1, Hadv, wrap64_plus_l. f_equal. lia.
    + intros _. apply Hw. rewrite Hlocal1, Hadv. apply wrap64_idem.
Qed.

End PlainStates.

(** The looping entry on a frame without refcounted locals: with [local]
    exactly [n] slots, [n] at least 1, below the local at which the unrolled
    entries start, and none of the [n + K] slots refcounted, the loop is left
    after exactly [n] rounds and the helper returns with memory as it was,
    nothing called, and [local] moved up by [n + K - 1] slots, to the last of
    the locals it went through. *)
Theorem looping_entry_plain_frame :
  forall (L : Layout) (host : HostFn -> State -> State) (cb : CodeBlock)
         (us : UniqueStubs) (s : State) (n extra : nat),
    (1 <= kNumFreeLocalsHelpers L)%nat ->
    (1 <= n)%nat ->
    0 < sizeof_TypedValue L ->
    0 <= get s local ->
    get s local + Z.of_nat n * sizeof_TypedValue L
    = get s rvmfp
      + localOffset L (Z.of_nat (kNumFreeLocalsHelpers L) - 1) ->
    get s rvmfp + localOffset L (Z.of_nat (kNumFreeLocalsHelpers L) - 1)
    < 2 ^ 64 ->
    no_refcounted_slot L (n + kNumFreeLocalsHelpers L) s = true ->
    let '(cb', us', release) := emitFreeLocalsHelpers_code L cb us in
    let r := run host cb' (n + 4 * kNumFreeLocalsHelpers L + 25 + extra)
               (freeManyLocalsHelper us') s in
    exit r = ExitReturn /\ mem (final r) = mem s /\ events r = [] /\
    loop_exits_after L host n (enter_many L s) [] /\
    get (final r) local
    = wrap64 (get s local
              + (Z.of_nat n + Z.of_nat (kNumFreeLocalsHelpers L) - 1)
                * sizeof_TypedValue L).
Proof.
  intros L host cb us s n extra HK Hn Hsize Hlo Hdist Hhi Hplain.
  assert (Hplain' : no_refcounted_slot L (n + kNumFreeLocalsHelpers L)
                      (enter_many L s) = true).
  { rewrite <- Hplain. apply no_refcounted_slot_ext; reflexivity. }
  assert (Hlast : get (enter_many L s) last
                  = get s rvmfp
                    + localOffset L (Z.of_nat (kNumFreeLocalsHelpers L) - 1)).
  { unfold enter_many, get, last, rarg.
    cbn [step_simple setr get regs reg_eqb Nat.add Nat.eqb ea].
    rewrite wrap64_idem. apply wrap64_small. unfold get in *. nia. }
  assert (Hloop : loop_exits_after L host n (enter_many L s) []).
  { apply plain_loop_exits.
    - exact Hsize.
    - exact Hn.
    - exact Hlo.
    - rewrite Hlast. exact Hdist.
    - rewrite Hlast. exact Hhi.
    - clear - Hplain'. revert Hplain'. generalize (enter_many L s).
      generalize (kNumFreeLocalsHelpers L). clear.
      induction n as [|n IH]; intros K s0 H; [reflexivity|].
      cbn [Nat.add no_refcounted_slot] in *.
      apply andb_prop in H. destruct H as [H1 H2].
      rewrite H1. cbn [andb]. apply (IH K). exact H2. }
  destruct (freeLocals_entries L cb us)
    as [cb' [us' [release [rest [E [Hlt [Hrel [Hmany [Hentry Hcode]]]]]]]]].
  rewrite E. clear E. unfold run. rewrite Hmany.
  unfold freeManyLocalsHelper_code. cbn [app].
  replace (n + 4 * kNumFreeLocalsHelpers L + 25 + extra)%nat
    with (S (n + 4 * kNumFreeLocalsHelpers L + 24 + extra)) by lia.
  rewrite exec_simple by reflexivity. fold (enter_many L s).
  rewrite (exec_loop_rounds L host cb' release rest Hlt Hrel n)
    by (lia || exact Hloop).
  destruct (plain_loop_rounds L host n (kNumFreeLocalsHelpers L)
              (enter_many L s) [] Hplain')
    as [Ht [Hm [Hk [Hl Hw]]]].
  set (s' := fst (loop_rounds L host n (enter_many L s) [])) in *.
  rewrite Ht.
  assert (Hrun :
    exec host cb' (n + 4 * kNumFreeLocalsHelpers L + 24 + extra - n)
      (unrolled_code L release (kNumFreeLocalsHelpers L) ++ [I ret]) s' []
    = mkRun ExitReturn
        (fst (unrolled_slots L host (kNumFreeLocalsHelpers L - 1) s' []))
        (snd (unrolled_slots L host (kNumFreeLocalsHelpers L - 1) s' []))).
  { replace (unrolled_code L release (kNumFreeLocalsHelpers L))
      with (unrolled_code L release (S (kNumFreeLocalsHelpers L - 1)))
      by (f_equal; lia).
    apply (exec_unrolled_slots L host cb' release rest Hlt Hrel). lia. }
  rewrite Hrun. clear Hrun.
  replace (kNumFreeLocalsHelpers L) with (S (kNumFreeLocalsHelpers L - 1))
    in Hk by lia.
  destruct (plain_unrolled_slots L host (kNumFreeLocalsHelpers L - 1) s' []
              Hk) as [Ht2 [Hm2 [Hl2 Hw2]]].
  cbn [exit final events].
  split; [reflexivity|]. split; [now rewrite Hm2, Hm|].
  split; [exact Ht2|]. split; [exact Hloop|].
  rewrite <- (Hw2 (Hw Hn)), Hl2.
  rewrite (wrap64_step _ _ _ (eq_trans (eq_sym (wrap64_idem _))
                                (f_equal wrap64 Hl))).
  rewrite wrap64_plus_l. f_equal.
  change (get (enter_many L s) local) with (get s local).
  rewrite Nat2Z.inj_sub by lia. change (Z.of_nat 1) with 1. lia.
Qed.

Lemma looping_entry_plain_witness :
  (1 <= kNumFreeLocalsHelpers Samples.sample_layout)%nat /\
  (1 <= 2)%nat /\
  0 < sizeof_TypedValue Samples.sample_layout /\
  0 <= get plain_locals_frame local /\
  get plain_locals_frame local
  + Z.of_nat 2 * sizeof_TypedValue Samples.sample_layout
  = get plain_locals_frame rvmfp
    + localOffset Samples.sample_layout
        (Z.of_nat (kNumFreeLocalsHelpers Samples.sample_layout) - 1) /\
  get plain_locals_frame rvmfp
  + localOffset Samples.sample_layout
      (Z.of_nat (kNumFreeLocalsHelpers Samples.sample_layout) - 1)
  < 2 ^ 64 /\
  no_refcounted_slot Samples.sample_layout
    (2 + kNumFreeLocalsHelpers Samples.sample_layout) plain_locals_frame
  = true /\
  let '(cb', us', release) :=
    emitFreeLocalsHelpers_code Samples.sample_layout [] Samples.no_stubs in
  let r := run Samples.quiet_host cb'
             (2 + 4 * kNumFreeLocalsHelpers Samples.sample_layout + 25 + 0)
             (freeManyLocalsHelper us') plain_locals_frame in
  exit r = ExitReturn /\ mem (final r) = mem plain_locals_frame /\
  events r = [] /\
  loop_exits_after Samples.sample_layout Samples.quiet_host 2
    (enter_many Samples.sample_layout plain_locals_frame) [] /\
  get (final r) local
  = wrap64 (get plain_locals_frame local
            + (Z.of_nat 2
               + Z.of_nat (kNumFreeLocalsHelpers Samples.sample_layout) - 1)
              * sizeof_TypedValue Samples.sample_layout).
Proof.
  assert (H1 : (1 <= kNumFreeLocalsHelpers Samples.sample_layout)%nat)
    by (cbn; lia).
  assert (H2 : (1 <= 2)%nat) by lia.
  assert (H3 : 0 < sizeof_TypedValue Samples.sample_layout) by (cbn; lia).
  assert (H4 : 0 <= get plain_locals_frame local)
    by (change (0 <= 3824); lia).
  assert (H5 : get plain_locals_frame local
               + Z.of_nat 2 * sizeof_TypedValue Samples.sample_layout
               = get plain_locals_frame rvmfp
                 + localOffset Samples.sample_layout
                     (Z.of_nat (kNumFreeLocalsHelpers Samples.sample_layout)
                      - 1)) by reflexivity.
  assert (H6 : get plain_locals_frame rvmfp
               + localOffset Samples.sample_layout
                   (Z.of_nat (kNumFreeLocalsHelpers Samples.sample_layout)
                    - 1) < 2 ^ 64) by reflexivity.
  assert (H7 : no_refcounted_slot Samples.sample_layout
                 (2 + kNumFreeLocalsHelpers Samples.sample_layout)
                 plain_locals_frame = true) by (vm_compute; reflexivity).
  split; [exact H1|]. split; [exact H2|]. split; [exact H3|].
  split; [exact H4|]. split; [exact H5|]. split; [exact H6|].
  split; [exact H7|].
  exact (looping_entry_plain_frame Samples.sample_layout Samples.quiet_host
           [] Samples.no_stubs plain_locals_frame 2 0
           H1 H2 H3 H4 H5 H6 H7).
Defined.

(** On the sample frame of eleven plain locals the looping entry returns
    with [local] at 3984, the address of the highest local; two rounds of
    the loop took it from 3824 to 3856 and the nine unrolled entries from
    there to 3984. *)
Example looping_entry_plain_sample_run :
  let '(cb', us', release) :=
    emitFreeLocalsHelpers_code Samples.sample_layout [] Samples.no_stubs in
  let r := run Samples.quiet_host cb' 70 (freeManyLocalsHelper us')
             plain_locals_frame in
  exit r = ExitReturn /\
  events r = [] /\
  get (final r) local = 3984 /\
  get (fst (loop_rounds Samples.sample_layout Samples.quiet_host 2
              (enter_many Samples.sample_layout plain_locals_frame) []))
      local = 3856.
Proof. vm_compute. repeat split. Qed.

(** *** What the helpers call *)

Lemma destructor_pairs_app b m :
  destructor_pairs b = Some m ->
  forall a n, destructor_pairs a = Some n ->
              destructor_pairs (a ++ b) = Some (n + m)%nat.
Proof.
  intros Hb.
  assert (H : forall a,
             (forall n, destructor_pairs a = Some n ->
                        destructor_pairs (a ++ b) = Some (n + m)%nat) /\
             (forall x n, destructor_pairs (x :: a) = Some n ->
                          destructor_pairs ((x :: a) ++ b)
                          = Some (n + m)%nat)).
  { induction a as [|y a [IH1 IH2]].
    - split.
      + intros n Hn. cbn in Hn. injection Hn as <-. exact Hb.
      + intros x n Hn. destruct x as [[]| |]; discriminate Hn.
    - split; [apply IH2|].
      intros x n Hn. cbn [app].
      destruct x as [[]| |]; try discriminate Hn.
      destruct y; try discriminate Hn.
      cbn [destructor_pairs] in *.
      destruct (fixup =? 3); [|discriminate Hn].
      destruct (destructor_pairs a) as [p|] eqn:Hp; [|discriminate Hn].
      cbn [option_map] in *. injection Hn as <-.
      now rewrite (IH1 p eq_refl). }
  intros a. apply H.
Qed.

Section Calls.

Variable L : Layout.
Variable host : HostFn -> State -> State.

Lemma release_step_events s t :
  exists es n,
    snd (release_local_if_refcounted L host s t) = t ++ es /\
    destructor_pairs es = Some n /\ (n <= 1)%nat.
Proof.
  unfold release_local_if_refcounted, release_result.
  destruct (refcounted_type L s);
    [ | exists [], 0%nat; cbn [snd]; rewrite app_nil_r; auto ].
  destruct (_ <? 1);
    [ exists [], 0%nat; cbn [snd events]; rewrite app_nil_r; auto | ].
  destruct (_ =? 1);
    [ | exists [], 0%nat; cbn [snd events]; rewrite app_nil_r; auto ].
  eexists _, 1%nat. cbn [snd events]. split; [reflexivity|].
  split; [reflexivity | lia].
Qed.

Lemma release_steps_events k : forall s t,
  exists es n,
    snd (release_refcounted_locals L host k s t) = t ++ es /\
    destructor_pairs es = Some n /\ (n <= k)%nat.
Proof.
  unfold release_refcounted_locals.
  induction k as [|k IH]; intros s t.
  - exists [], 0%nat. cbn [each_local snd]. rewrite app_nil_r. auto.
  - cbn [each_local].
    destruct (release_step_events s t) as [e1 [n1 [H1 [P1 B1]]]].
    destruct (release_local_if_refcounted L host s t) as [s1 t1].
    cbn [snd] in H1. subst t1.
    destruct (IH (advance L s1) (t ++ e1)) as [e2 [n2 [H2 [P2 B2]]]].
    exists (e1 ++ e2), (n1 + n2)%nat. split.
    + rewrite H2. now rewrite app_assoc.
    + split; [now apply destructor_pairs_app | lia].
Qed.

End Calls.

(** Whatever the frame holds, the [k]-th unrolled entry calls nothing but
    destructors: the events of a run are at most [k] destructor calls, each
    followed at once by its synchronization point; there is no service
    request and no other host call. *)
Theorem unrolled_entry_calls_only_destructors :
  forall (L : Layout) (host : HostFn -> State -> State) (cb : CodeBlock)
         (us : UniqueStubs) (s : State) (k extra : nat),
    (1 <= k <= kNumFreeLocalsHelpers L)%nat ->
    let '(cb', us', release) := emitFreeLocalsHelpers_code L cb us in
    let r := run host cb' (4 * k + 16 + extra)
               (freeLocalsHelpers us' (k - 1)) s in
    exists n, destructor_pairs (events r) = Some n /\ (n <= k)%nat.
Proof.
  intros L host cb us s k extra Hk.
  destruct (freeLocals_entries L cb us)
    as [cb' [us' [release [rest [E [Hlt [Hrel [Hmany [Hentry Hlast]]]]]]]]].
  rewrite E. clear E. unfold run.
  rewrite (Hentry (k - 1)%nat) by lia.
  destruct (exec_unrolled L host cb' release rest Hlt Hrel (k - 1)%nat
              (4 * k + 16 + extra)%nat s []) as [_ Heff]; [lia|].
  replace (S (k - 1)) with k in * by lia.
  unfold run_effects in Heff. apply (f_equal snd) in Heff.
  cbn [snd effects] in Heff. rewrite Heff.
  destruct (release_steps_events L host k s []) as [es [n [He [Hp Hn]]]].
  rewrite He. exists n. split; [exact Hp | exact Hn].
Qed.

Lemma unrolled_entry_calls_witness :
  (1 <= 1 <= kNumFreeLocalsHelpers Samples.sample_layout)%nat /\
  let '(cb', us', release) :=
    emitFreeLocalsHelpers_code Samples.sample_layout [] Samples.no_stubs in
  let r := run Samples.quiet_host cb' (4 * 1 + 16 + 0)
             (freeLocalsHelpers us' (1 - 1)) (Samples.value_frame 20 1 0) in
  exists n, destructor_pairs (events r) = Some n /\ (n <= 1)%nat.
Proof.
  assert (H1 : (1 <= 1 <= kNumFreeLocalsHelpers Samples.sample_layout)%nat)
    by (cbn; lia).
  split; [exact H1|].
  exact (unrolled_entry_calls_only_destructors Samples.sample_layout
           Samples.quiet_host [] Samples.no_stubs
           (Samples.value_frame 20 1 0) 1 0 H1).
Defined.

(** The sample frame whose string has refcount 1: one destructor call and
    its synchronization point. *)
Example unrolled_entry_sample_calls :
  let '(cb', us', release) :=
    emitFreeLocalsHelpers_code Samples.sample_layout [] Samples.no_stubs in
  let r := run Samples.quiet_host cb' 20 (freeLocalsHelpers us' 0)
             (Samples.value_frame 20 1 0) in
  events r = [EvCall (destructor 1) 2000 1000; EvSyncpoint 3] /\
  destructor_pairs (events r) = Some 1%nat.
Proof. vm_compute. repeat split. Qed.


(** *** Where the stubs are placed *)

Section Placement.

Variable L : Layout.

Lemma code_bytes_app a b :
  code_bytes L (a ++ b) = code_bytes L a + code_bytes L b.
Proof.
  unfold code_bytes. induction a as [|x a IH]; cbn [app fold_right];
    [reflexivity | rewrite IH; lia].
Qed.

Lemma align_aligned cb a :
  0 < a -> frontier_bytes L (align L cb a) mod a = 0.
Proof.
  intros Ha. unfold align, align_fill.
  destruct (Z.eqb_spec ((- frontier_bytes L cb) mod a) 0) as [Hz|Hnz].
  - rewrite app_nil_r. apply Z.mod_opp_l_z in Hz; [|lia].
    now rewrite Z.opp_involutive in Hz.
  - unfold frontier_bytes in *. rewrite code_bytes_app.
    cbn [code_bytes fold_right item_bytes].
    rewrite Z.add_0_r, Z.add_assoc, Zplus_mod_idemp_r.
    rewrite Z.add_opp_diag_r. apply Z.mod_0_l. lia.
Qed.

Lemma firstn_frontier (cb rest : list Vcode) :
  firstn (frontier cb) (cb ++ rest) = cb.
Proof.
  unfold frontier. rewrite firstn_app, firstn_all, Nat.sub_diag.
  cbn [firstn]. apply app_nil_r.
Qed.

(** The block as [emitFreeLocalsHelpers] leaves it, piece by piece. *)
Lemma freeLocals_pieces cb us :
  let pre := align L cb (cache_line_size L) in
  let rel := emitDecRefHelper_code L local type [local; last] in
  let aligned := alignJmpTarget L (pre ++ rel) in
  let many := freeManyLocalsHelper_code L (frontier pre) in
  emitFreeLocalsHelpers_code L cb us
  = (aligned ++ many
       ++ unrolled_code L (frontier pre) (kNumFreeLocalsHelpers L) ++ [I ret],
     snd (emit_unrolled L (frontier pre) (kNumFreeLocalsHelpers L)
            (aligned ++ many)
            (set_freeManyLocalsHelper us (frontier aligned))),
     frontier pre).
Proof.
  cbn zeta. unfold emitFreeLocalsHelpers_code, emitDecRefHelper, vwrap.
  match goal with
  | |- context [emit_unrolled ?a ?b ?c ?d ?e] =>
      pose proof (emit_unrolled_fst a b c d e) as Hfst;
      destruct (emit_unrolled a b c d e) as [cb1 us1]
  end.
  cbn [fst snd] in *. subst cb1. now rewrite <- !app_assoc.
Qed.

End Placement.

(** With positive alignments, the release routine starts on a cache-line
    boundary and the looping entry on a jump-target boundary; the code that
    was in the block before is still at its place. *)
Theorem freeLocalsHelpers_entries_aligned :
  forall (L : Layout) (cb : CodeBlock) (us : UniqueStubs),
    0 < cache_line_size L ->
    0 < jmp_target_alignment L ->
    let '(cb', us', release) := emitFreeLocalsHelpers_code L cb us in
    entry_address L cb' release mod cache_line_size L = 0 /\
    entry_address L cb' (freeManyLocalsHelper us') mod jmp_target_alignment L
    = 0 /\
    firstn (frontier cb) cb' = cb.
Proof.
  intros L cb us Hcl Hjmp. rewrite freeLocals_pieces. cbv beta iota zeta.
  set (pre := align L cb (cache_line_size L)).
  set (rel := emitDecRefHelper_code L local type [local; last]).
  destruct (emit_unrolled_keeps L (frontier pre) (kNumFreeLocalsHelpers L)
              (alignJmpTarget L (pre ++ rel)
                 ++ freeManyLocalsHelper_code L (frontier pre))
              (set_freeManyLocalsHelper us
                 (frontier (alignJmpTarget L (pre ++ rel))))) as [Hm _].
  rewrite Hm. cbn [set_freeManyLocalsHelper freeManyLocalsHelper].
  unfold entry_address. repeat split.
  - unfold alignJmpTarget at 1, align at 1. rewrite <- !app_assoc.
    rewrite firstn_frontier. apply align_aligned. exact Hcl.
  - rewrite firstn_frontier. apply align_aligned. exact Hjmp.
  - unfold alignJmpTarget, pre. unfold align. rewrite <- !app_assoc.
    apply firstn_frontier.
Qed.

Lemma freeLocalsHelpers_aligned_witness :
  0 < cache_line_size Samples.sample_layout /\
  0 < jmp_target_alignment Samples.sample_layout /\
  let '(cb', us', release) :=
    emitFreeLocalsHelpers_code Samples.sample_layout
      [I (copy rvmfp rvmsp)] Samples.no_stubs in
  entry_address Samples.sample_layout cb' release
    mod cache_line_size Samples.sample_layout = 0 /\
  entry_address Samples.sample_layout cb' (freeManyLocalsHelper us')
    mod jmp_target_alignment Samples.sample_layout = 0 /\
  firstn (frontier [I (copy rvmfp rvmsp)]) cb' = [I (copy rvmfp rvmsp)].
Proof.
  assert (H1 : 0 < cache_line_size Samples.sample_layout) by (cbn; lia).
  assert (H2 : 0 < jmp_target_alignment Samples.sample_layout) by (cbn; lia).
  split; [exact H1|]. split; [exact H2|].
  exact (freeLocalsHelpers_entries_aligned Samples.sample_layout
           [I (copy rvmfp rvmsp)] Samples.no_stubs H1 H2).
Defined.

(** After one four-byte instruction the release routine of the sample
    layout starts at byte 128 and the looping entry at byte 192. *)
Example freeLocalsHelpers_sample_addresses :
  let '(cb', us', release) :=
    emitFreeLocalsHelpers_code Samples.sample_layout
      [I (copy rvmfp rvmsp)] Samples.no_stubs in
  entry_address Samples.sample_layout cb' release = 128 /\
  entry_address Samples.sample_layout cb' (freeManyLocalsHelper us') = 192.
Proof. vm_compute. repeat split. Qed.


(** The unrolled entries are laid out so that each falls through into the
    next: the code at the entry of index [i + 1] is one guarded release and
    one pointer step followed by the code at the entry of index [i], and the
    entry of index 0 is a guarded release followed by the shared [ret]. *)
Theorem unrolled_entries_fall_through :
  forall (L : Layout) (cb : CodeBlock) (us : UniqueStubs) (i : nat),
    (S i < kNumFreeLocalsHelpers L)%nat ->
    let '(cb', us', release) := emitFreeLocalsHelpers_code L cb us in
    skipn (freeLocalsHelpers us' (S i)) cb'
    = decref_local L release ++ next_local L
        ++ skipn (freeLocalsHelpers us' i) cb' /\
    skipn (freeLocalsHelpers us' 0) cb' = decref_local L release ++ [I ret].
Proof.
  intros L cb us i Hi.
  destruct (freeLocals_entries L cb us)
    as [cb' [us' [release [rest [E [Hlt [Hrel [Hmany [Hentry Hlast]]]]]]]]].
  rewrite E. clear E.
  rewrite (Hentry (S i)), (Hentry i), (Hentry 0%nat) by lia.
  split.
  - rewrite (unrolled_code_S L release (S i)). cbn [Nat.eqb].
    now rewrite <- !app_assoc.
  - cbn [unrolled_code Nat.eqb]. now rewrite !app_nil_r.
Qed.

Lemma unrolled_entries_fall_through_witness :
  (1 < kNumFreeLocalsHelpers Samples.sample_layout)%nat /\
  let '(cb', us', release) :=
    emitFreeLocalsHelpers_code Samples.sample_layout [] Samples.no_stubs in
  skipn (freeLocalsHelpers us' 1) cb'
  = decref_local Samples.sample_layout release
      ++ next_local Samples.sample_layout
      ++ skipn (freeLocalsHelpers us' 0) cb' /\
  skipn (freeLocalsHelpers us' 0) cb'
  = decref_local Samples.sample_layout release ++ [I ret].
Proof.
  assert (H1 : (1 < kNumFreeLocalsHelpers Samples.sample_layout)%nat)
    by (cbn; lia).
  split; [exact H1|].
  exact (unrolled_entries_fall_through Samples.sample_layout []
           Samples.no_stubs 0 H1).
Defined.

(** *** The end-catch stub in the block *)

Lemma endCatch_pieces L cb us :
  let head := firstn 7 (endCatch_code L (List.length cb) []) in
  let fill := align_fill L (cb ++ head) (jmp_target_alignment L) in
  emitEndCatchHelper L cb us
  = (cb ++ endCatch_code L (List.length cb) fill,
     set_endCatchHelperPast us (List.length cb + 6),
     (List.length cb + 7 + List.length fill)%nat).
Proof.
  cbn zeta.
  unfold emitEndCatchHelper, emit_persistent, vwrap, alignJmpTarget, align,
    frontier.
  cbn [fst snd].
  unfold endCatch_code. cbn [firstn app]. rewrite <- !app_assoc. cbn [app].
  rewrite !length_app. cbn [List.length].
  f_equal. lia.
Qed.

(** [us.endCatchHelperPast] is the address of the trap that follows the
    call to [_Unwind_Resume], that is the return address of that call; it
    lies before the entry of the stub, which is on a jump-target boundary.
    Emitting the stub leaves the earlier code of the block and the other
    entries of the stub table as they were. *)
Theorem endCatchHelper_placement :
  forall (L : Layout) (cb : CodeBlock) (us : UniqueStubs),
    0 < jmp_target_alignment L ->
    let '(cb', us', start) := emitEndCatchHelper L cb us in
    nth_error cb' (endCatchHelperPast us' - 1)
    = Some (I (call (Host Unwind_Resume))) /\
    nth_error cb' (endCatchHelperPast us') = Some (I ud2) /\
    (endCatchHelperPast us' < start)%nat /\
    entry_address L cb' start mod jmp_target_alignment L = 0 /\
    firstn (frontier cb) cb' = cb /\
    freeManyLocalsHelper us' = freeManyLocalsHelper us /\
    (forall i, freeLocalsHelpers us' i = freeLocalsHelpers us i).
Proof.
  intros L cb us Hjmp. rewrite endCatch_pieces. cbv beta iota zeta.
  set (head := firstn 7 (endCatch_code L (List.length cb) [])).
  set (fill := align_fill L (cb ++ head) (jmp_target_alignment L)).
  cbn [set_endCatchHelperPast endCatchHelperPast freeManyLocalsHelper
       freeLocalsHelpers].
  repeat split.
  - replace (List.length cb + 6 - 1)%nat with (List.length cb + 5)%nat by lia.
    rewrite nth_error_app2 by lia.
    replace (List.length cb + 5 - List.length cb)%nat with 5%nat by lia.
    reflexivity.
  - rewrite nth_error_app2 by lia.
    replace (List.length cb + 6 - List.length cb)%nat with 6%nat by lia.
    reflexivity.
  - lia.
  - unfold entry_address.
    replace (cb ++ endCatch_code L (List.length cb) fill)
      with ((cb ++ head ++ fill)
              ++ skipn (7 + List.length fill)
                   (endCatch_code L (List.length cb) fill)).
    + replace (List.length cb + 7 + List.length fill)%nat
        with (frontier (cb ++ head ++ fill))
        by (unfold frontier; rewrite !length_app;
            change (List.length head) with 7%nat; lia).
      rewrite firstn_frontier. rewrite app_assoc.
      apply (align_aligned L (cb ++ head)). exact Hjmp.
    + rewrite <- !app_assoc. f_equal.
      unfold endCatch_code, head. cbn [firstn app Nat.add skipn].
      do 7 f_equal.
      rewrite skipn_app, skipn_all, Nat.sub_diag. reflexivity.
  - apply firstn_frontier.
Qed.

Lemma endCatchHelper_placement_witness :
  0 < jmp_target_alignment Samples.sample_layout /\
  let '(cb', us', start) :=
    emitEndCatchHelper Samples.sample_layout [] Samples.no_stubs in
  nth_error cb' (endCatchHelperPast us' - 1)
  = Some (I (call (Host Unwind_Resume))) /\
  nth_error cb' (endCatchHelperPast us') = Some (I ud2) /\
  (endCatchHelperPast us' < start)%nat /\
  entry_address Samples.sample_layout cb' start
    mod jmp_target_alignment Samples.sample_layout = 0 /\
  firstn (frontier []) cb' = [] /\
  freeManyLocalsHelper us' = freeManyLocalsHelper Samples.no_stubs /\
  (forall i, freeLocalsHelpers us' i = freeLocalsHelpers Samples.no_stubs i).
Proof.
  assert (H1 : 0 < jmp_target_alignment Samples.sample_layout) by (cbn; lia).
  split; [exact H1|].
  exact (endCatchHelper_placement Samples.sample_layout [] Samples.no_stubs
           H1).
Defined.

(** *** The end-catch stub when the exception goes on unwinding *)

(** When no debugger return is pending and [tc_unwind_resume] returns no
    catch trace, the stub ends in the call to [_Unwind_Resume], and hands
    it a state in which the thread's register state is marked clean (the one
    byte the stub writes; the rest of memory is as [tc_unwind_resume] left
    it), the first argument register holds the exception found at the
    unwinder's slot of the thread-local area, and the frame pointer is the
    one [tc_unwind_resume] returned in r4. *)
Theorem endCatchHelper_resumes_unwinding_clean :
  forall (L : Layout) (host : HostFn -> State -> State) (cb : CodeBlock)
         (us : UniqueStubs) (s : State) (extra : nat),
    debugger_return_flag L s = 0 ->
    catch_trace_is_null (after_resume_call L host s) = true ->
    let '(cb', us', start) := emitEndCatchHelper L cb us in
    let r := run host cb' (10 + extra) start s in
    let s1 := after_resume_call L host s in
    let handed := at_unwind_resume L s1 in
    exit r = ExitNoReturn Unwind_Resume /\
    final r = host Unwind_Resume handed /\
    load8 (mem handed) (wrap64 (tl_regState L)) = wrap 8 (VMRegState_CLEAN L) /\
    (forall x, x <> wrap64 (tl_regState L) -> mem handed x = mem s1 x) /\
    get handed (rarg 0)
    = load64 (mem handed) (wrap64 (get s1 rvmtl + unwinderExnOff L)) /\
    get handed rvmfp = wrap64 (get s1 r4) /\
    List.last (events r) (EvSyncpoint 0)
    = EvCall Unwind_Resume (get handed (rarg 0)) (get s1 r4).
Proof.
  intros L host cb us s extra Hflag Hnull.
  destruct (endCatch_layout L cb us) as [fill E]. rewrite E. clear E.
  rewrite exec_endCatch. unfold endCatch_result.
  rewrite Hflag, Hnull. cbn [Z.eqb exit final events].
  set (s1 := after_resume_call L host s) in *.
  repeat split.
  - unfold at_unwind_resume.
    cbn [step_simple set_cr0 set_mem setr mem ea].
    unfold load8, store8. rewrite load_store_bytes.
    unfold wrap. rewrite Z.mod_mod by lia. reflexivity.
  - intros x Hx. unfold at_unwind_resume.
    cbn [step_simple set_cr0 set_mem setr mem ea].
    unfold store8. apply store_bytes_other. simpl Z.of_nat. lia.
  - unfold at_unwind_resume.
    cbn [step_simple set_cr0 set_mem setr mem ea get regs reg_eqb rarg
         Nat.add Nat.eqb r4].
    apply wrap64_load64.
Qed.

Lemma endCatchHelper_resumes_unwinding_witness :
  debugger_return_flag Samples.sample_layout (Samples.unwinding 0) = 0 /\
  catch_trace_is_null
    (after_resume_call Samples.sample_layout (Samples.resuming_host 0 4100)
       (Samples.unwinding 0)) = true /\
  let '(cb', us', start) :=
    emitEndCatchHelper Samples.sample_layout [] Samples.no_stubs in
  let r := run (Samples.resuming_host 0 4100) cb' (10 + 0) start
             (Samples.unwinding 0) in
  let s1 := after_resume_call Samples.sample_layout
              (Samples.resuming_host 0 4100) (Samples.unwinding 0) in
  let handed := at_unwind_resume Samples.sample_layout s1 in
  exit r = ExitNoReturn Unwind_Resume /\
  final r = Samples.resuming_host 0 4100 Unwind_Resume handed /\
  load8 (mem handed) (wrap64 (tl_regState Samples.sample_layout))
  = wrap 8 (VMRegState_CLEAN Samples.sample_layout) /\
  (forall x, x <> wrap64 (tl_regState Samples.sample_layout) ->
             mem handed x = mem s1 x) /\
  get handed (rarg 0)
  = load64 (mem handed)
      (wrap64 (get s1 rvmtl + unwinderExnOff Samples.sample_layout)) /\
  get handed rvmfp = wrap64 (get s1 r4) /\
  List.last (events r) (EvSyncpoint 0)
  = EvCall Unwind_Resume (get handed (rarg 0)) (get s1 r4).
Proof.
  assert (H1 : debugger_return_flag Samples.sample_layout
                 (Samples.unwinding 0) = 0) by reflexivity.
  assert (H2 : catch_trace_is_null
                 (after_resume_call Samples.sample_layout
                    (Samples.resuming_host 0 4100) (Samples.unwinding 0))
               = true) by reflexivity.
  split; [exact H1|]. split; [exact H2|].
  exact (endCatchHelper_resumes_unwinding_clean Samples.sample_layout
           (Samples.resuming_host 0 4100) [] Samples.no_stubs
           (Samples.unwinding 0) 0 H1 H2).
Defined.

End StubContractsFacts.

(** ** The assembler stubs in the block *)

Module PPC64AsmMoreFacts.
Import Machine Vasm PPC64Asm MachineFacts PPC64AsmFacts.

Lemma code_size_app a b : code_size (a ++ b) = code_size a + code_size b.
Proof.
  unfold code_size. induction a as [|x a IH]; cbn [app fold_right];
    [reflexivity | rewrite IH; lia].
Qed.

Lemma alignJmpTarget_aligned code_base alignment cb :
  0 < alignment ->
  (code_base + code_size (alignJmpTarget code_base alignment cb))
    mod alignment = 0.
Proof.
  intros Ha. unfold alignJmpTarget.
  destruct (Z.eqb_spec ((- (code_base + code_size cb)) mod alignment) 0)
    as [Hz|Hnz].
  - apply Z.mod_opp_l_z in Hz; [|lia].
    now rewrite Z.opp_involutive in Hz.
  - rewrite code_size_app. cbn [code_size fold_right instr_bytes].
    rewrite Z.add_0_r, Z.add_assoc, Zplus_mod_idemp_r.
    rewrite Z.add_opp_diag_r. apply Z.mod_0_l. lia.
Qed.

Lemma addr_of_app code_base (a b : list Instr) (k : nat) :
  addr_of code_base (a ++ b) (List.length a + k)
  = code_base + code_size a + code_size (firstn k b).
Proof.
  unfold addr_of. rewrite firstn_app.
  rewrite firstn_all2 by lia.
  replace (List.length a + k - List.length a)%nat with k by lia.
  fold (code_size (a ++ firstn k b)). rewrite code_size_app. lia.
Qed.

Lemma addr_of_frontier code_base (a b : list Instr) :
  addr_of code_base (a ++ b) (List.length a) = code_base + code_size a.
Proof.
  replace (List.length a) with (List.length a + 0)%nat at 1 by lia.
  rewrite addr_of_app. cbn [firstn code_size fold_right]. lia.
Qed.

(** The function-enter helper starts on a jump-target boundary.  The
    address recorded as [functionEnterHelperReturn] is the frontier right
    after the call of the hook: the instruction there is the [cmpdi] that
    tests the result of the hook, and the one before it is the branch to the
    hook.  The hook is called with that address in the link register, with
    the stack pointer 80 bytes below where it was on entry, and with the
    caller's stack pointer stored where the new one points (the back
    chain). *)
Theorem functionEnterHelper_hook_frame :
  forall (host : HostFn -> State -> State) (host_addr : HostFn -> Z)
         (code_base alignment : Z) (cb0 : list Instr) (s : State)
         (extra : nat),
    0 < alignment ->
    let '(code, start, helperReturn) :=
      emitFunctionEnterHelper code_base alignment cb0 in
    let ra := addr_of code_base code helperReturn in
    let s3 := at_hook_call host_addr ra s in
    addr_of code_base code start mod alignment = 0 /\
    nth_error code (helperReturn - 1)
    = Some (branchAuto (ToHost onFunctionCall) Always Save) /\
    nth_error code helperReturn = Some (cmpdi rret 0) /\
    exec host host_addr code_base code (13 + extra) start s []
    = functionEnter_result host host_addr ra
        (addr_of code_base code (helperReturn + 7)) s /\
    lr s3 = wrap64 ra /\
    get s3 rsp = wrap64 (get s rsp - 80) /\
    load64 (mem s3) (get s3 rsp) = wrap64 (get s rsp).
Proof.
  intros host host_addr code_base alignment cb0 s extra Ha.
  rewrite functionEnter_layout. cbv beta iota zeta.
  set (cb := alignJmpTarget code_base alignment cb0).
  repeat split.
  - rewrite addr_of_frontier. apply alignJmpTarget_aligned. exact Ha.
  - rewrite nth_error_app2 by lia.
    replace (List.length cb + 4 - 1 - List.length cb)%nat with 3%nat by lia.
    reflexivity.
  - rewrite nth_error_app2 by lia.
    replace (List.length cb + 4 - List.length cb)%nat with 4%nat by lia.
    reflexivity.
  - replace (List.length cb + 4 + 7)%nat with (List.length cb + 11)%nat
      by lia.
    apply exec_functionEnter.
  - unfold at_hook_call.
    cbn [step_simple set_ctr set_lr set_mem setr get regs reg_eqb].
    apply wrap64_idem.
  - unfold at_hook_call.
    cbn [step_simple set_ctr set_lr set_mem setr get regs reg_eqb mem].
    rewrite wrap64_idem. unfold load64, store64. rewrite load_store_bytes.
    reflexivity.
Qed.

Lemma functionEnterHelper_hook_frame_witness :
  0 < 16 /\
  let '(code, start, helperReturn) := emitFunctionEnterHelper 0 16 [mflr r3] in
  let ra := addr_of 0 code helperReturn in
  let s3 := at_hook_call Samples.host_at ra Samples.helper_entry in
  addr_of 0 code start mod 16 = 0 /\
  nth_error code (helperReturn - 1)
  = Some (branchAuto (ToHost onFunctionCall) Always Save) /\
  nth_error code helperReturn = Some (cmpdi rret 0) /\
  exec (Samples.hook_returning 1) Samples.host_at 0 code (13 + 0) start
    Samples.helper_entry []
  = functionEnter_result (Samples.hook_returning 1) Samples.host_at ra
      (addr_of 0 code (helperReturn + 7)) Samples.helper_entry /\
  lr s3 = wrap64 ra /\
  get s3 rsp = wrap64 (get Samples.helper_entry rsp - 80) /\
  load64 (mem s3) (get s3 rsp) = wrap64 (get Samples.helper_entry rsp).
Proof.
  assert (H1 : 0 < 16) by lia.
  split; [exact H1|].
  exact (functionEnterHelper_hook_frame (Samples.hook_returning 1)
           Samples.host_at 0 16 [mflr r3] Samples.helper_entry 0 H1).
Defined.

End PPC64AsmMoreFacts.

(** ** The byte writer of the CFI buffer *)

Module EHFrameMoreFacts.
Import Bytes BytesFacts EHFrame.

Lemma le_bytes_are_bytes (n : nat) : forall t,
  Forall (fun b => 0 <= b < 256) (le_bytes n t).
Proof.
  induction n as [|n IH]; intros t; cbn [le_bytes]; constructor.
  - apply Z.mod_pos_bound. lia.
  - apply IH.
Qed.

(** [write<T>] grows the buffer by exactly [sizeof(T)] bytes and leaves
    what was written before untouched; the new bytes are the little-endian
    representation of the value and read back as the value modulo
    2^(8 sizeof(T)), whatever follows them; the indices of the FDE and of
    the expression are not changed. *)
Theorem write_appends_object_representation :
  forall (n : nat) (t : Z) (w : EHFrameWriter) (rest : list Z),
    let old := List.length (m_buf w) in
    let w' := write n t w in
    List.length (m_buf w') = (old + n)%nat /\
    firstn old (m_buf w') = m_buf w /\
    Forall (fun b => 0 <= b < 256) (skipn old (m_buf w')) /\
    read n (skipn old (m_buf w') ++ rest)
    = Some (t mod 256 ^ Z.of_nat n, rest) /\
    m_fde w' = m_fde w /\ m_expression w' = m_expression w.
Proof.
  intros n t w rest old w'. subst old w'. unfold write. cbn [m_buf m_fde
    m_expression].
  rewrite skipn_app, skipn_all, Nat.sub_diag. cbn [skipn app].
  repeat split.
  - rewrite length_app, length_le_bytes. reflexivity.
  - rewrite firstn_app, firstn_all, Nat.sub_diag. cbn [firstn].
    apply app_nil_r.
  - apply le_bytes_are_bytes.
  - unfold read, take. rewrite length_app, length_le_bytes.
    destruct (Nat.leb_spec n (n + List.length rest)); [|lia].
    rewrite firstn_app, skipn_app, length_le_bytes, Nat.sub_diag.
    rewrite <- (length_le_bytes n t) at 1 3.
    rewrite firstn_all, skipn_all. cbn [firstn skipn app].
    rewrite app_nil_r, from_le_le_bytes. reflexivity.
Qed.

End EHFrameMoreFacts.

(** ** The exception trait *)

Module BaseExceptionFacts.
Import BaseException.

Lemma toString_list_chain fuel : forall h e l,
  toString_list fuel h e = Some l -> is_chain h l e /\ (List.length l < fuel)%nat.
Proof.
  induction fuel as [|f IH]; intros h e l H; [discriminate|].
  cbn [toString_list] in H. destruct e as [x|].
  - destruct (toString_list f h (getPrevious h x)) as [l'|] eqn:E;
      [|discriminate].
    injection H as <-. apply IH in E. destruct E as [Hc Hl].
    cbn [is_chain List.length]. split; [split; [reflexivity | exact Hc] | lia].
  - injection H as <-. cbn. split; [reflexivity | lia].
Qed.

Lemma chain_toString_list h : forall l e fuel,
  is_chain h l e -> (List.length l < fuel)%nat ->
  toString_list fuel h e = Some l.
Proof.
  induction l as [|x l IH]; intros e fuel Hc Hl; cbn [is_chain] in Hc.
  - subst e. destruct fuel; [cbn in Hl; lia | reflexivity].
  - destruct Hc as [-> Hc]. destruct fuel as [|f]; [lia|].
    cbn [toString_list]. rewrite (IH _ f Hc); [reflexivity|].
    cbn [List.length] in Hl. lia.
Qed.

Lemma last_cons (l : list Object) : forall x y,
  List.last (y :: l) x = List.last l y.
Proof.
  induction l as [|z l IH]; intros x y; [reflexivity|].
  change (List.last (y :: z :: l) x) with (List.last (z :: l) x).
  now rewrite (IH x z), (IH y z).
Qed.

Lemma chain_end_last h : forall l x fuel,
  is_chain h (x :: l) (Some x) -> (List.length l < fuel)%nat ->
  chain_end fuel h x = Some (List.last l x) /\
  getPrevious h (List.last l x) = None.
Proof.
  induction l as [|y l IH]; intros x fuel [_ Hc] Hl.
  - cbn [is_chain] in Hc. destruct fuel as [|f]; [lia|].
    cbn [chain_end List.last]. rewrite Hc. split; reflexivity.
  - destruct fuel as [|f]; [lia|]. cbn [is_chain] in Hc.
    destruct Hc as [Hy Hc]. cbn [chain_end]. rewrite Hy.
    cbn [List.length] in Hl.
    destruct (IH y f (conj eq_refl Hc) ltac:(lia)) as [He Hn].
    rewrite last_cons. split; assumption.
Qed.

Lemma getPrevious_setPrevious_other h e p x :
  x <> e -> getPrevious (setPrevious h e p) x = getPrevious h x.
Proof.
  intros Hx. unfold getPrevious, setPrevious.
  destruct (Nat.eqb_spec x e); [contradiction | reflexivity].
Qed.

Lemma getPrevious_setPrevious_same h e p :
  getPrevious (setPrevious h e p) e = Some p.
Proof.
  unfold getPrevious, setPrevious. now rewrite Nat.eqb_refl.
Qed.

(** A chain that does not pass through [e] is not affected by setting the
    previous exception of [e]. *)
Lemma is_chain_setPrevious h e p : forall l e0,
  is_chain h l e0 -> ~ In e l -> is_chain (setPrevious h e p) l e0.
Proof.
  induction l as [|x l IH]; intros e0 Hc Hin; [exact Hc|].
  cbn [is_chain] in *. destruct Hc as [-> Hc]. split; [reflexivity|].
  rewrite getPrevious_setPrevious_other.
  - apply IH; [exact Hc|]. intros H. apply Hin. now right.
  - intros ->. apply Hin. now left.
Qed.

Lemma is_chain_extended h p lp : forall l x,
  is_chain h (x :: l) (Some x) ->
  is_chain (setPrevious h (List.last l x) p) lp (Some p) ->
  is_chain (setPrevious h (List.last l x) p) ((x :: l) ++ lp) (Some x).
Proof.
  induction l as [|y l IH]; intros x [_ Hc] Hp.
  - cbn [List.last app is_chain] in *. split; [reflexivity|].
    now rewrite getPrevious_setPrevious_same.
  - cbn [is_chain] in Hc. destruct Hc as [Hy Hc].
    rewrite last_cons in *.
    destruct (chain_end_last h l y (S (List.length l))
                (conj eq_refl Hc) ltac:(lia)) as [_ Hnone].
    cbn [app is_chain]. split; [reflexivity|].
    rewrite getPrevious_setPrevious_other.
    + rewrite Hy. apply (IH y); [split; [reflexivity | exact Hc] | exact Hp].
    + intros ->. rewrite Hnone in Hy. discriminate Hy.
Qed.

Lemma last_In (l : list Object) : forall x, In (List.last l x) (x :: l).
Proof.
  induction l as [|y l IH]; intros x; [now left|].
  rewrite last_cons. right. apply IH.
Qed.

Lemma disjoint_not_In a b x :
  disjoint a b = true -> In x a -> ~ In x b.
Proof.
  unfold disjoint. rewrite forallb_forall. intros H Ha Hb.
  specialize (H x Ha). apply negb_true_iff in H.
  assert (Hex : existsb (Nat.eqb x) b = true).
  { apply existsb_exists. exists x. split; [exact Hb | apply Nat.eqb_refl]. }
  rewrite Hex in H. discriminate H.
Qed.

(** [setPreviousChain] appends to the end of the chain.  When the chain of
    previous exceptions of [$this] is finite and shares no exception with
    the finite chain of [$previous], the call ends, the exception at the end
    of the first chain (which had no previous exception) gets [$previous],
    nothing else changes, and the list that [__toString] then collects from
    [$this] is the old list followed by the list of [$previous]. *)
Theorem setPreviousChain_appends_chain :
  forall (h : Heap) (this p : Object) (fuel : nat) (l lp : list Object),
    toString_list fuel h (Some this) = Some l ->
    toString_list fuel h (Some p) = Some lp ->
    disjoint l lp = true ->
    exists h',
      setPreviousChain fuel h this p = Some h' /\
      toString_list (fuel + fuel) h' (Some this) = Some (l ++ lp) /\
      getPrevious h (List.last l this) = None /\
      getPrevious h' (List.last l this) = Some p /\
      forall o, o <> List.last l this -> h' o = h o.
Proof.
  intros h this p fuel l lp Hl Hlp Hdis.
  apply toString_list_chain in Hl. destruct Hl as [Hc Hlen].
  apply toString_list_chain in Hlp. destruct Hlp as [Hcp Hlenp].
  destruct l as [|x l]; [cbn in Hc; discriminate Hc|].
  assert (Hx : x = this) by (destruct Hc as [H _]; now injection H).
  subst x. rewrite last_cons.
  cbn [List.length] in Hlen.
  destruct (chain_end_last h l this fuel Hc ltac:(lia)) as [Hend Hnone].
  exists (setPrevious h (List.last l this) p).
  unfold setPreviousChain. rewrite Hend.
  split; [reflexivity|]. split; [|split; [exact Hnone|split]].
  - apply chain_toString_list.
    + apply is_chain_extended; [exact Hc|].
      apply is_chain_setPrevious; [exact Hcp|].
      apply (disjoint_not_In (this :: l) lp); [exact Hdis | apply last_In].
    + rewrite length_app. cbn [List.length]. lia.
  - apply getPrevious_setPrevious_same.
  - intros o Ho. unfold setPrevious.
    destruct (Nat.eqb_spec o (List.last l this)); [contradiction | reflexivity].
Qed.

Lemma setPreviousChain_appends_witness :
  toString_list 3 sample_heap (Some 0%nat) = Some [0; 1]%nat /\
  toString_list 3 sample_heap (Some 2%nat) = Some [2%nat] /\
  disjoint [0; 1]%nat [2%nat] = true /\
  exists h',
    setPreviousChain 3 sample_heap 0%nat 2%nat = Some h' /\
    toString_list (3 + 3) h' (Some 0%nat) = Some ([0; 1] ++ [2])%nat /\
    getPrevious sample_heap (List.last [0; 1]%nat 0%nat) = None /\
    getPrevious h' (List.last [0; 1]%nat 0%nat) = Some 2%nat /\
    forall o, o <> List.last [0; 1]%nat 0%nat -> h' o = sample_heap o.
Proof.
  assert (H1 : toString_list 3 sample_heap (Some 0%nat) = Some [0; 1]%nat)
    by reflexivity.
  assert (H2 : toString_list 3 sample_heap (Some 2%nat) = Some [2%nat])
    by reflexivity.
  assert (H3 : disjoint [0; 1]%nat [2%nat] = true) by reflexivity.
  split; [exact H1|]. split; [exact H2|]. split; [exact H3|].
  exact (setPreviousChain_appends_chain sample_heap 0%nat 2%nat 3%nat
           [0; 1]%nat [2%nat] H1 H2 H3).
Defined.

(** Every exception on a chain is its last one or is followed by another
    one of the chain. *)
Lemma chain_successor h : forall l x z,
  is_chain h (x :: l) (Some x) -> In z (x :: l) ->
  z = List.last l x \/
  exists y, In y l /\ getPrevious h z = Some y.
Proof.
  induction l as [|y l IH]; intros x z [_ Hc] Hz.
  - left. destruct Hz as [<-|[]]. reflexivity.
  - cbn [is_chain] in Hc. destruct Hc as [Hy Hc]. rewrite last_cons.
    destruct Hz as [<-|Hz].
    + right. exists y. split; [now left | exact Hy].
    + destruct (IH y z (conj eq_refl Hc) Hz) as [Hl|[w [Hw Hp]]].
      * now left.
      * right. exists w. split; [now right | exact Hp].
Qed.

(** [setPreviousChain] does not check for cycles.  When [$previous] is
    [$this] or any other exception of the (finite) chain of [$this], the
    call ends and closes a cycle: afterwards neither the collecting loop of
    [__toString] nor the loop of another [setPreviousChain] on [$this] ever
    ends, whatever the number of rounds allowed. *)
Theorem setPreviousChain_can_close_a_cycle :
  forall (h : Heap) (this p : Object) (fuel : nat) (l : list Object),
    toString_list fuel h (Some this) = Some l ->
    In p l ->
    exists h',
      setPreviousChain fuel h this p = Some h' /\
      forall fuel',
        toString_list fuel' h' (Some this) = None /\
        chain_end fuel' h' this = None.
Proof.
  intros h this p fuel l Hl Hp.
  apply toString_list_chain in Hl. destruct Hl as [Hc Hlen].
  destruct l as [|x l]; [contradiction|].
  assert (Hx : x = this) by (destruct Hc as [H _]; now injection H).
  subst x. cbn [List.length] in Hlen.
  destruct (chain_end_last h l this fuel Hc ltac:(lia)) as [Hend Hnone].
  set (e := List.last l this) in *.
  exists (setPrevious h e p).
  unfold setPreviousChain. rewrite Hend. split; [reflexivity|].
  assert (Hnext : forall z, In z (this :: l) ->
            exists y, In y (this :: l)
                      /\ getPrevious (setPrevious h e p) z = Some y).
  { intros z Hz. destruct (Nat.eq_dec z e) as [->|Hne].
    - exists p. split; [exact Hp | apply getPrevious_setPrevious_same].
    - destruct (chain_successor h l this z Hc Hz) as [Hl|[y [Hy Hprev]]];
        [contradiction|].
      exists y. split; [now right|].
      now rewrite getPrevious_setPrevious_other. }
  assert (Hloop : forall fuel' z, In z (this :: l) ->
            toString_list fuel' (setPrevious h e p) (Some z) = None /\
            chain_end fuel' (setPrevious h e p) z = None).
  { induction fuel' as [|f IH]; intros z Hz; [split; reflexivity|].
    destruct (Hnext z Hz) as [y [Hy Hprev]].
    cbn [toString_list chain_end]. rewrite Hprev.
    destruct (IH y Hy) as [H1 H2]. rewrite H1, H2. split; reflexivity. }
  intros fuel'. apply Hloop. now left.
Qed.

Lemma setPreviousChain_cycle_witness :
  toString_list 3 sample_heap (Some 0%nat) = Some [0; 1]%nat /\
  In 0%nat [0; 1]%nat /\
  exists h',
    setPreviousChain 3 sample_heap 0%nat 0%nat = Some h' /\
    forall fuel',
      toString_list fuel' h' (Some 0%nat) = None /\
      chain_end fuel' h' 0%nat = None.
Proof.
  assert (H1 : toString_list 3 sample_heap (Some 0%nat) = Some [0; 1]%nat)
    by reflexivity.
  assert (H2 : In 0%nat [0; 1]%nat) by (left; reflexivity).
  split; [exact H1|]. split; [exact H2|].
  exact (setPreviousChain_can_close_a_cycle sample_heap 0%nat 0%nat 3%nat
           [0; 1]%nat H1 H2).
Defined.

(** A trace of two frames around an entry that is not an array. *)
Example getTraceAsString_sample :
  getTraceAsString
    [ FrameArray (mkFrame (Some "a.php"%string) (Some "3"%string)
                    (Some "C"%string) (Some "->"%string) (Some "f"%string));
      NotArray;
      FrameArray (mkFrame None None None None (Some "g"%string)) ]
  = ("#0 a.php(3): C->f()" ++ newline ++ "#1 (): g()" ++ newline
       ++ "#2 {main}")%string.
Proof. reflexivity. Qed.

(** *** The trace as a string *)

Lemma trace_fold_frames tr : forall st,
  fold_left trace_step tr st = fold_left trace_step (filter is_frame tr) st.
Proof.
  induction tr as [|e tr IH]; intros st; [reflexivity|].
  destruct e; cbn [filter is_frame fold_left trace_step]; apply IH.
Qed.

Lemma trace_fold_count tr : forall i s,
  exists s', fold_left trace_step tr (i, s)
             = ((i + List.length (filter is_frame tr))%nat, s') /\
             (filter is_frame tr = [] -> s' = s).
Proof.
  induction tr as [|e tr IH]; intros i s.
  - exists s. cbn. rewrite Nat.add_0_r. split; [reflexivity | auto].
  - destruct e; cbn [filter is_frame fold_left trace_step fst snd].
    + apply IH.
    + destruct (IH (S i) (s ++ frame_text i f)%string) as [s' [H _]].
      exists s'. cbn [List.length]. rewrite H. split.
      * f_equal. lia.
      * discriminate.
Qed.

(** [getTraceAsString] ignores the entries of the trace that are not
    arrays, also for the numbering: the string is the one obtained from the
    frames alone, and it ends with the line [#n {main}] where [n] is the
    number of frames; for a trace without frames that line is all of it. *)
Theorem getTraceAsString_numbers_frames :
  forall tr : list TraceEntry,
    getTraceAsString tr = getTraceAsString (filter is_frame tr) /\
    (exists lines,
        getTraceAsString tr
        = (lines ++ "#" ++ decimal (List.length (filter is_frame tr))
             ++ " {main}")%string /\
        (filter is_frame tr = [] -> lines = EmptyString)).
Proof.
  intros tr. unfold getTraceAsString. split.
  - now rewrite trace_fold_frames.
  - destruct (trace_fold_count tr O EmptyString) as [s' [H Hnil]].
    rewrite H. exists s'. split; [reflexivity | exact Hnil].
Qed.

End BaseExceptionFacts.

(** ** The method-jumps service *)

Module MethodJumpsFacts.
Import MethodJumps.

(** [add_ns] qualifies a class name once: its result starts with a
    backslash, is the name itself or the name with a backslash put before
    it, and is left unchanged by [add_ns]; so [get_inheritance] answers the
    same for a name with and without the leading backslash.  On the empty
    name [get_inheritance] raises [Invalid_argument] before it looks
    anything up. *)
Theorem class_name_is_qualified_once :
  forall (class_type result : Type)
         (get_class : string -> option class_type)
         (children : class_type -> list result)
         (ancestors : class_type -> filter -> list result -> list result)
         (name q : string) (f : filter) (find_children : bool),
    add_ns name = Ret q ->
    String.get 0 q = Some backslash /\
    add_ns q = Ret q /\
    (q = name \/ q = String backslash name) /\
    get_inheritance class_type result get_class children ancestors
      q f find_children
    = get_inheritance class_type result get_class children ancestors
        name f find_children /\
    get_inheritance class_type result get_class children ancestors
      EmptyString f find_children
    = Raise (Invalid_argument "index out of bounds").
Proof.
  intros class_type result get_class children ancestors name q f fc H.
  assert (Hq : String.get 0 q = Some backslash).
  { unfold add_ns in H. destruct (String.get 0 name) as [c|] eqn:E;
      [|discriminate].
    destruct (Ascii.eqb_spec c backslash) as [->|Hne].
    - injection H as <-. exact E.
    - injection H as <-. reflexivity. }
  assert (Hidem : add_ns q = Ret q).
  { unfold add_ns. rewrite Hq. reflexivity. }
  repeat split.
  - exact Hq.
  - exact Hidem.
  - unfold add_ns in H. destruct (String.get 0 name) as [c|]; [|discriminate].
    destruct (Ascii.eqb c backslash); injection H as <-; auto.
  - unfold get_inheritance. now rewrite H, Hidem.
Qed.

Lemma class_name_witness :
  add_ns "Foo" = Ret (String backslash "Foo") /\
  String.get 0 (String backslash "Foo") = Some backslash /\
  add_ns (String backslash "Foo") = Ret (String backslash "Foo") /\
  (String backslash "Foo" = "Foo"%string
   \/ String backslash "Foo" = String backslash "Foo") /\
  get_inheritance nat nat (fun _ => Some 0%nat) (fun c => [c])
    (fun c _ acc => acc) (String backslash "Foo") Class false
  = get_inheritance nat nat (fun _ => Some 0%nat) (fun c => [c])
      (fun c _ acc => acc) "Foo" Class false /\
  get_inheritance nat nat (fun _ => Some 0%nat) (fun c => [c])
    (fun c _ acc => acc) EmptyString Class false
  = Raise (Invalid_argument "index out of bounds").
Proof.
  assert (H : add_ns "Foo" = Ret (String backslash "Foo")) by reflexivity.
  split; [exact H|].
  exact (class_name_is_qualified_once nat nat (fun _ => Some 0%nat)
           (fun c => [c]) (fun c _ acc => acc) "Foo" (String backslash "Foo")
           Class false H).
Defined.

End MethodJumpsFacts.

(** ** Type constraints *)

Module EmitTypeHintFacts.
Import EmitTypeHint.

Section Constraints.

Variable Namespace : Type.
Variable dedup : list TC.type_constraint_flag -> list TC.type_constraint_flag.
Variable elaborate_raw : Namespace -> id -> string.

Hypothesis dedup_keeps : forall l x, In x l -> In x (dedup l).

Lemma empty_ok : empty_or_hh_type (TC.make None []).
Proof. left. split; reflexivity. Qed.

Lemma with_flags_ok tc flags :
  In TC.HHType flags -> empty_or_hh_type tc ->
  empty_or_hh_type (with_flags_if_non_empty dedup tc flags).
Proof.
  intros Hin [[Hn Hf]|[n [Hn Hf]]]; unfold with_flags_if_non_empty.
  - rewrite Hn, Hf. left. destruct tc; cbn in *. now subst.
  - rewrite Hn. right. exists n. cbn [TC.name TC.flags]. split; [reflexivity|].
    apply dedup_keeps, in_or_app. now left.
Qed.

Lemma apply_constraint_ok kind tparams ns name tc :
  apply_constraint Namespace elaborate_raw kind tparams ns name = Value tc ->
  empty_or_hh_type tc.
Proof.
  unfold apply_constraint.
  destruct (mem tparams (snd name)).
  - intros H. injection H as <-. right. eexists. split; [reflexivity|].
    cbn. auto.
  - destruct (kind_eqb kind TypeDef && _); [discriminate|].
    intros H. injection H as <-. right. eexists. split; [reflexivity|].
    cbn. auto.
Qed.

Lemma map_with_flags_ok r flags tc :
  In TC.HHType flags ->
  (forall tc0, r = Value tc0 -> empty_or_hh_type tc0) ->
  map_result (fun tc => with_flags_if_non_empty dedup tc flags) r = Value tc ->
  empty_or_hh_type tc.
Proof.
  intros Hin Hr. destruct r as [tc0|]; cbn [map_result]; [|discriminate].
  intros H. injection H as <-. apply with_flags_ok; [exact Hin|].
  now apply Hr.
Qed.

(** Every constraint that [hint_to_type_constraint] returns is either
    empty (no name, no flags) or has a name and the flag [HHType]: the
    function never returns flags without a name or a name without flags.
    [List.dedup] only has to keep the elements of its argument. *)
Theorem type_constraint_is_empty_or_hh_type :
  forall (h : hint) (kind : type_hint_kind) (tparams : list string)
         (skipawaitable : bool) (namespace : Namespace) (tc : TC.t),
    hint_to_type_constraint Namespace dedup elaborate_raw kind tparams
      skipawaitable namespace h = Value tc ->
    empty_or_hh_type tc.
Proof.
  fix IH 1. intros h kind tparams skip ns tc.
  destruct h as [p t|p co args v ret|p hs|p name args|p si|p h1 h2 acc|p t];
    cbn [hint_to_type_constraint].
  - (* Hoption *)
    assert (Hnullable :
      map_result
        (fun tc => with_flags_if_non_empty dedup tc
                     [TC.Nullable; TC.HHType; TC.ExtendedHint])
        (hint_to_type_constraint Namespace dedup elaborate_raw kind tparams
           skip ns t) = Value tc -> empty_or_hh_type tc).
    { apply map_with_flags_ok; [cbn; auto|]. intros tc0. apply IH. }
    destruct skip; [|exact Hnullable].
    destruct t as [p' t'|p' co args v ret|p' hs|p' name args|p' si
                  |p' h1 h2 acc|p' t']; try exact Hnullable.
    + destruct args as [|h1 [|h2 rest]]; try exact Hnullable.
      * destruct (is_awaitable (snd name)); [|exact Hnullable].
        intros H. injection H as <-. apply empty_ok.
      * destruct (is_awaitable (snd name)); [|exact Hnullable].
        apply IH.
    + destruct t' as [p2 t2|p2 co args v ret|p2 hs|p2 name args|p2 si
                     |p2 h1 h2 acc|p2 t2]; try exact Hnullable.
      destruct args as [|h1 [|h2 rest]]; try exact Hnullable.
      destruct (is_awaitable (snd name)); [|exact Hnullable].
      apply map_with_flags_ok; [cbn; auto|]. intros tc0. apply IH.
  - intros H. injection H as <-. apply empty_ok.
  - intros H. injection H as <-. right. eexists. split; [reflexivity|].
    cbn. auto.
  - (* Happly *)
    destruct args as [|h1 [|h2 rest]].
    + destruct (String.eqb (snd name) "mixed");
        [intros H; injection H as <-; apply empty_ok|].
      destruct (String.eqb (snd name) "void" && negb (kind_eqb kind TypeDef));
        [intros H; injection H as <-; apply empty_ok|].
      destruct (skip && is_awaitable (snd name));
        [intros H; injection H as <-; apply empty_ok|].
      apply apply_constraint_ok.
    + destruct (skip && is_awaitable (snd name));
        [|apply apply_constraint_ok].
      destruct (is_void h1);
        [intros H; injection H as <-; apply empty_ok|].
      apply IH.
    + apply apply_constraint_ok.
  - intros H. injection H as <-. right. eexists. split; [reflexivity|].
    cbn. auto.
  - intros H. injection H as <-. right. eexists. split; [reflexivity|].
    cbn. auto.
  - apply map_with_flags_ok; [cbn; auto|]. intros tc0. apply IH.
Qed.

Lemma map_result_fatal {A B} (f : A -> B) r pos msg :
  map_result f r = Fatal pos msg -> r = Fatal pos msg.
Proof.
  destruct r; cbn [map_result]; intros H; [discriminate H|].
  injection H as -> ->. reflexivity.
Qed.

Lemma apply_constraint_fatal kind tparams ns name pos msg :
  apply_constraint Namespace elaborate_raw kind tparams ns name
  = Fatal pos msg ->
  scope_error kind msg.
Proof.
  unfold apply_constraint.
  destruct (mem tparams (snd name)); [discriminate|].
  destruct (kind_eqb kind TypeDef) eqn:Hk; cbn [andb]; [|discriminate].
  destruct (String.eqb_spec (snd name) "self") as [Hs|Hs]; cbn [orb].
  - intros H. injection H as _ <-. split; [now destruct kind|].
    exists (snd name). split; [now left | reflexivity].
  - destruct (String.eqb_spec (snd name) "parent") as [Hp|Hp];
      [|discriminate].
    intros H. injection H as _ <-. split; [now destruct kind|].
    exists (snd name). split; [now right | reflexivity].
Qed.

(** [hint_to_type_constraint] raises only for a type definition, and only
    the fatal error about [self] or [parent] without a class scope: for the
    kinds [Property], [Return] and [Param] it always returns a constraint. *)
Theorem type_constraint_fatal_only_without_class_scope :
  forall (h : hint) (kind : type_hint_kind) (tparams : list string)
         (skipawaitable : bool) (namespace : Namespace) (pos : Pos)
         (msg : string),
    hint_to_type_constraint Namespace dedup elaborate_raw kind tparams
      skipawaitable namespace h = Fatal pos msg ->
    kind = TypeDef /\
    exists name, (name = "self" \/ name = "parent")%string /\
      msg = ("Cannot access " ++ name
               ++ " when no class scope is active")%string.
Proof.
  fix IH 1. intros h kind tparams skip ns pos msg.
  destruct h as [p t|p co args v ret|p hs|p name args|p si|p h1 h2 acc|p t];
    cbn [hint_to_type_constraint]; try discriminate.
  - (* Hoption *)
    assert (Hnullable :
      map_result
        (fun tc => with_flags_if_non_empty dedup tc
                     [TC.Nullable; TC.HHType; TC.ExtendedHint])
        (hint_to_type_constraint Namespace dedup elaborate_raw kind tparams
           skip ns t) = Fatal pos msg -> scope_error kind msg).
    { intros H. apply map_result_fatal in H. revert H. apply IH. }
    destruct skip; [|exact Hnullable].
    destruct t as [p' t'|p' co args v ret|p' hs|p' name args|p' si
                  |p' h1 h2 acc|p' t']; try exact Hnullable.
    + destruct args as [|h1 [|h2 rest]]; try exact Hnullable.
      * destruct (is_awaitable (snd name)); [discriminate|exact Hnullable].
      * destruct (is_awaitable (snd name)); [|exact Hnullable].
        apply IH.
    + destruct t' as [p2 t2|p2 co args v ret|p2 hs|p2 name args|p2 si
                     |p2 h1 h2 acc|p2 t2]; try exact Hnullable.
      destruct args as [|h1 [|h2 rest]]; try exact Hnullable.
      destruct (is_awaitable (snd name)); [|exact Hnullable].
      intros H. apply map_result_fatal in H. revert H. apply IH.
  - (* Happly *)
    destruct args as [|h1 [|h2 rest]].
    + destruct (String.eqb (snd name) "mixed"); [discriminate|].
      destruct (String.eqb (snd name) "void" && negb (kind_eqb kind TypeDef));
        [discriminate|].
      destruct (skip && is_awaitable (snd name)); [discriminate|].
      apply apply_constraint_fatal.
    + destruct (skip && is_awaitable (snd name));
        [|apply apply_constraint_fatal].
      destruct (is_void h1); [discriminate|].
      apply IH.
    + apply apply_constraint_fatal.
  - intros H. apply map_result_fatal in H. revert H. apply IH.
Qed.

End Constraints.

Lemma flag_eqb_eq a b : flag_eqb a b = true -> a = b.
Proof. destruct a, b; cbn; congruence. Qed.

Lemma dedup_first_keeps l : forall x, In x l -> In x (dedup_first l).
Proof.
  induction l as [|y l IH]; intros x Hx; [contradiction|].
  cbn [dedup_first]. destruct (flag_eqb y x) eqn:E.
  - left. now apply flag_eqb_eq.
  - destruct Hx as [->|Hx].
    + now left.
    + right. apply filter_In. split; [now apply IH | now rewrite E].
Qed.

Lemma type_constraint_witness :
  (forall l x, In x l -> In x (dedup_first l)) /\
  hint_to_type_constraint unit dedup_first (fun _ name => snd name) Param
    [] true tt
    (Hoption 1 (Hsoft 2 (Happly 3 (4, "Awaitable"%string)
                           [Happly 5 (6, "Foo"%string) []])))
  = Value (TC.make (Some "Foo"%string) [TC.Soft; TC.HHType; TC.ExtendedHint])
  /\
  empty_or_hh_type
    (TC.make (Some "Foo"%string) [TC.Soft; TC.HHType; TC.ExtendedHint]).
Proof.
  assert (H1 : forall l x, In x l -> In x (dedup_first l))
    by exact dedup_first_keeps.
  assert (H2 : hint_to_type_constraint unit dedup_first
                 (fun _ name => snd name) Param [] true tt
                 (Hoption 1 (Hsoft 2 (Happly 3 (4, "Awaitable"%string)
                                        [Happly 5 (6, "Foo"%string) []])))
               = Value (TC.make (Some "Foo"%string)
                          [TC.Soft; TC.HHType; TC.ExtendedHint]))
    by reflexivity.
  split; [exact H1|]. split; [exact H2|].
  exact (type_constraint_is_empty_or_hh_type unit dedup_first
           (fun _ name => snd name) H1 _ Param [] true tt _ H2).
Defined.

Lemma type_constraint_fatal_witness :
  hint_to_type_constraint unit dedup_first (fun _ name => snd name) TypeDef
    [] false tt (Hoption 1 (Happly 2 (3, "parent"%string) []))
  = Fatal 3 "Cannot access parent when no class scope is active" /\
  TypeDef = TypeDef /\
  exists name, (name = "self" \/ name = "parent")%string /\
    "Cannot access parent when no class scope is active"%string
    = ("Cannot access " ++ name ++ " when no class scope is active")%string.
Proof.
  assert (H : hint_to_type_constraint unit dedup_first
                (fun _ name => snd name) TypeDef [] false tt
                (Hoption 1 (Happly 2 (3, "parent"%string) []))
              = Fatal 3 "Cannot access parent when no class scope is active")
    by reflexivity.
  split; [exact H|].
  exact (type_constraint_fatal_only_without_class_scope unit dedup_first
           (fun _ name => snd name) _ TypeDef [] false tt _ _ H).
Defined.

End EmitTypeHintFacts.
